(** * Kapuchin's inlined monkey-patching engine (extras/kapuchin_monkey.py)

    A shallow embedding of the patch engine and of the part of the Python
    object model it runs on, followed by the properties of the engine.

    Layout:
    - [Py]      the object model: values, heap objects, attribute lookup,
                assignment and deletion, with their exceptions;
    - [Monkey]  the engine, function by function, under the source's names;
    - [Decorators]  the engine's decorators, which record patches on what
                they decorate;
    - [Kapuchin]  the plugin helpers of klippy/extras/kapuchin.py;
    - [World]   concrete heaps for the examples;
    - the theorems: the properties C1 to C10 first, then further
      properties of the same code, X1 to X22. *)

From stdpp Require Import gmap strings list pretty sorting.

Set Warnings "-register-all".

(* ===================================================================== *)
(** ** The Python object model                                            *)
(* ===================================================================== *)

Module Py.

(** Object identity. *)
Definition ref := nat.

(** The two universal root bases and the built-in types of modules and
    functions live at fixed addresses. *)
Definition object_ref : ref := 0.
Definition type_ref : ref := 1.
Definition module_type_ref : ref := 2.
Definition function_type_ref : ref := 3.

(** Values.  Classes, instances, modules and functions are heap objects
    ([VRef]); the wrappers that [_get_base] unwraps are immutable values
    around the wrapped callable.  [VPatch] and [VDecoratorData] are the
    engine's own two classes, [Patch] and [DecoratorData], with their
    attributes as fields. *)
Inductive value : Type :=
| VNone
| VBool (b : bool)
| VInt (z : Z)
| VStr (s : string)
| VTuple (vs : list value)
| VList (vs : list value)
| VDict (items : list (value * value))
| VRef (r : ref)
| VBound (func self : value)          (* bound method: has __func__ *)
| VProperty (fget : value)            (* property: a data descriptor *)
| VStaticmethod (func : value)
| VClassmethod (func : value)
| VGetSetName                         (* the built-in __name__ slot descriptor *)
| VPatch (destination : value) (name : string) (obj settings : value)
| VDecoratorData (patches : list value) (override : list (string * value))
                 (filter : value).

(** Exceptions.  [UserCode] stands for control leaving the engine into an
    accessor the model does not interpret (a property's getter, setter or
    deleter, a slot setter, a copy protocol); [OutOfFuel] is not a Python
    exception: it marks a loop of the model that used up its budget, and no
    handler of the engine catches it. *)
Inductive exn : Type :=
| AttributeError | RuntimeError | TypeError | ImportError | RecursionError
| UserCode | OutOfFuel.

Global Instance exn_eq_dec : EqDecision exn.
Proof. solve_decision. Defined.

Inductive res (A : Type) : Type :=
| Ok (a : A)
| Raise (e : exn).
Global Arguments Ok {A} a.
Global Arguments Raise {A} e.

Definition res_bind {A B} (r : res A) (k : A → res B) : res B :=
  match r with Ok a => k a | Raise e => Raise e end.

(** [__dict__]: a Python dict keeps insertion order and has unique keys. *)
Definition dict := list (string * value).

Fixpoint dict_get (d : dict) (k : string) : option value :=
  match d with
  | [] => None
  | (k', v) :: d' => if decide (k' = k) then Some v else dict_get d' k
  end.

(** [d[k] = v]: an existing key keeps its position, a new one goes last. *)
Fixpoint dict_set (d : dict) (k : string) (v : value) : dict :=
  match d with
  | [] => [(k, v)]
  | (k', v') :: d' =>
      if decide (k' = k) then (k, v) :: d' else (k', v') :: dict_set d' k v
  end.

(** [del d[k]]. *)
Fixpoint dict_del (d : dict) (k : string) : dict :=
  match d with
  | [] => []
  | (k', v') :: d' =>
      if decide (k' = k) then dict_del d' k else (k', v') :: dict_del d' k
  end.

Inductive kind : Type := KInstance | KClass | KModule | KFunction.

Global Instance kind_eq_dec : EqDecision kind.
Proof. solve_decision. Defined.

(** A heap object.  [otype] is [type(o)]; [oname] is what the built-in
    [__name__] slot of classes and functions reads; [omro] is [__mro__]
    (classes only), computed by Python when the class is created and stored
    here as it is. *)
Record object : Type := Object {
  okind : kind;
  otype : ref;
  oname : string;
  omro  : list ref;
  odict : dict;
}.

Definition with_dict (o : object) (d : dict) : object :=
  {| okind := okind o; otype := otype o; oname := oname o;
     omro := omro o; odict := d |}.

Abbreviation heap := (gmap ref object).

(** [isinstance(v, type)] and [isinstance(v, types.ModuleType)]. *)
Definition has_kind (h : heap) (k : kind) (v : value) : bool :=
  match v with
  | VRef r => match h !! r with
              | Some o => bool_decide (okind o = k)
              | None => false
              end
  | _ => false
  end.
Definition is_class (h : heap) (v : value) : bool := has_kind h KClass v.
Definition is_module (h : heap) (v : value) : bool := has_kind h KModule v.

(** [inspect.getmro(cls)]: the stored [__mro__]. *)
Definition getmro (h : heap) (r : ref) : list ref :=
  match h !! r with Some o => omro o | None => [] end.

(** The type-level lookup ([_PyType_Lookup]): the first class of the
    linearization whose own [__dict__] has the name. *)
Fixpoint mro_lookup (h : heap) (cs : list ref) (n : string) : option value :=
  match cs with
  | [] => None
  | c :: cs' =>
      match h !! c ≫= (λ o, dict_get (odict o) n) with
      | Some v => Some v
      | None => mro_lookup h cs' n
      end
  end.

(** Data descriptors take precedence over the object's own [__dict__]. *)
Definition is_data_descr (v : value) : bool :=
  match v with
  | VProperty _ | VGetSetName => true
  | _ => false
  end.

(** [d.__get__(inst, owner)]; [inst = None] is access through the class.
    Values that are not descriptors are returned as they are. *)
Definition descr_get (h : heap) (d : value) (inst : option value) (owner : ref)
  : res value :=
  match d with
  | VRef f =>
      if has_kind h KFunction d
      then match inst with Some i => Ok (VBound d i) | None => Ok d end
      else Ok d
  | VStaticmethod f => Ok f
  | VClassmethod f => Ok (VBound f (VRef owner))
  | VProperty _ =>
      match inst with Some _ => Raise UserCode | None => Ok d end
  | VGetSetName =>
      match inst with
      | Some (VRef i) =>
          match h !! i with Some o => Ok (VStr (oname o)) | None => Raise TypeError end
      | Some _ => Raise TypeError
      | None => Ok d
      end
  | _ => Ok d
  end.

(** [object.__getattribute__(o, n)] ([PyObject_GenericGetAttr]): the type of
    [o] is searched first, then [o]'s own [__dict__]; [o]'s bases are not.
    Immutable values expose the attributes the engine asks them for. *)
Definition object_getattribute (h : heap) (o : value) (n : string) : res value :=
  match o with
  | VRef r =>
      match h !! r with
      | None => Raise AttributeError
      | Some ob =>
          let own := dict_get (odict ob) n in
          match mro_lookup h (getmro h (otype ob)) n with
          | Some d =>
              if is_data_descr d then descr_get h d (Some o) (otype ob)
              else match own with
                   | Some v => Ok v
                   | None => descr_get h d (Some o) (otype ob)
                   end
          | None =>
              match own with Some v => Ok v | None => Raise AttributeError end
          end
      end
  | VBound f s =>
      if decide (n = "__func__") then Ok f
      else if decide (n = "__self__") then Ok s
      else Raise AttributeError
  | VStaticmethod f | VClassmethod f =>
      if decide (n = "__func__") then Ok f else Raise AttributeError
  | VProperty g =>
      if decide (n = "fget") then Ok g else Raise AttributeError
  | _ => Raise AttributeError
  end.

(** [type.__getattribute__(c, n)] ([type_getattro]): what [getattr] does on
    a class.  The class's whole linearization is searched and what is found
    is bound through the class. *)
Definition type_getattribute (h : heap) (r : ref) (n : string) : res value :=
  match h !! r with
  | None => Raise AttributeError
  | Some ob =>
      let meta := mro_lookup h (getmro h (otype ob)) n in
      let data := match meta with
                  | Some d => if is_data_descr d then Some d else None
                  | None => None
                  end in
      match data with
      | Some d => descr_get h d (Some (VRef r)) (otype ob)
      | None =>
          match mro_lookup h (omro ob) n with
          | Some a => descr_get h a None r
          | None =>
              match meta with
              | Some d => descr_get h d (Some (VRef r)) (otype ob)
              | None => Raise AttributeError
              end
          end
      end
  end.

(** [getattr(o, n)]. *)
Definition getattr (h : heap) (o : value) (n : string) : res value :=
  match o with
  | VRef r => if is_class h o then type_getattribute h r n
              else object_getattribute h o n
  | _ => object_getattribute h o n
  end.

(** [getattr(o, n, default)]: only [AttributeError] is turned into the
    default. *)
Definition getattr_default (h : heap) (o : value) (n : string) (dflt : value)
  : res value :=
  match getattr h o n with
  | Raise AttributeError => Ok dflt
  | r => r
  end.

(** [hasattr(o, n)]. *)
Definition hasattr (h : heap) (o : value) (n : string) : res bool :=
  match getattr h o n with
  | Ok _ => Ok true
  | Raise AttributeError => Ok false
  | Raise e => Raise e
  end.

(** State and exceptions: a computation returns its result, or the
    exception it raised, together with the heap at that point. *)
Definition M (A : Type) : Type := heap → res A * heap.

Definition ret {A} (a : A) : M A := λ h, (Ok a, h).
Definition raise {A} (e : exn) : M A := λ h, (Raise e, h).
Definition bind {A B} (m : M A) (k : A → M B) : M B :=
  λ h, match m h with
       | (Ok a, h') => k a h'
       | (Raise e, h') => (Raise e, h')
       end.
(** A read of the heap that may raise, and the same inside [try]. *)
Definition read {A} (f : heap → res A) : M A := λ h, (f h, h).
Definition try {A} (f : heap → res A) : M (res A) := λ h, (Ok (f h), h).

(** [setattr(o, n, v)].  A data descriptor on the type takes the assignment
    over: that is accessor code.  Otherwise the own [__dict__] is written.
    Heap objects are those of Python code, which have a writable
    [__dict__]; the built-in types, which refuse assignment, are not told
    apart. *)
Definition setattr (o : value) (n : string) (v : value) : M unit := λ h,
  match o with
  | VRef r =>
      match h !! r with
      | None => (Raise AttributeError, h)
      | Some ob =>
          match mro_lookup h (getmro h (otype ob)) n with
          | Some d =>
              if is_data_descr d then (Raise UserCode, h)
              else (Ok (), <[r := with_dict ob (dict_set (odict ob) n v)]> h)
          | None => (Ok (), <[r := with_dict ob (dict_set (odict ob) n v)]> h)
          end
      end
  | _ => (Raise AttributeError, h)
  end.

(** [delattr(o, n)]: only the own [__dict__] is looked at. *)
Definition delattr (o : value) (n : string) : M unit := λ h,
  match o with
  | VRef r =>
      match h !! r with
      | None => (Raise AttributeError, h)
      | Some ob =>
          let del :=
            match dict_get (odict ob) n with
            | Some _ => (Ok (), <[r := with_dict ob (dict_del (odict ob) n)]> h)
            | None => (Raise AttributeError, h)
            end in
          match mro_lookup h (getmro h (otype ob)) n with
          | Some d => if is_data_descr d then (Raise UserCode, h) else del
          | None => del
          end
      end
  | _ => (Raise AttributeError, h)
  end.

(** Truth value, [len], iteration, [ids += (id,)] and [ids[:-1]]. *)
Definition py_truth (v : value) : bool :=
  match v with
  | VNone => false
  | VBool b => b
  | VInt z => bool_decide (z ≠ 0%Z)
  | VStr s => bool_decide (s ≠ "")
  | VTuple vs | VList vs => bool_decide (vs ≠ [])
  | VDict items => bool_decide (items ≠ [])
  | _ => true
  end.

Definition py_len (v : value) : res nat :=
  match v with
  | VTuple vs | VList vs => Ok (length vs)
  | VDict items => Ok (length items)
  | VStr s => Ok (String.length s)
  | _ => Raise TypeError
  end.

Definition py_iter (v : value) : res (list value) :=
  match v with
  | VTuple vs | VList vs => Ok vs
  | VDict items => Ok (items.*1)
  | VStr s => Ok ((λ c, VStr (String c "")) <$> String.list_ascii_of_string s)
  | _ => Raise TypeError
  end.

Definition py_iadd_tuple (v : value) (x : value) : res value :=
  match v with
  | VTuple vs => Ok (VTuple (vs ++ [x]))
  | VList vs => Ok (VList (vs ++ [x]))
  | _ => Raise TypeError
  end.

Definition py_init (v : value) : res value :=
  match v with
  | VTuple vs => Ok (VTuple (take (length vs - 1) vs))
  | VList vs => Ok (VList (take (length vs - 1) vs))
  | VStr s => Ok (VStr (String.substring 0 (String.length s - 1) s))
  | _ => Raise TypeError
  end.

(** [v == s] for a string [s]: only an equal string is equal to it. *)
Definition py_eq_str (v : value) (s : string) : bool :=
  match v with VStr s' => bool_decide (s' = s) | _ => false end.

End Py.

Export Py.

(** The two monads use stdpp's [x ← m; k] and [m;; k]. *)
Global Instance res_mbind : MBind res := λ A B k r, res_bind r k.
Global Instance res_mret : MRet res := @Ok.
Global Instance M_mbind : MBind M := λ A B k m, bind m k.
Global Instance M_mret : MRet M := @ret.

(* ===================================================================== *)
(** ** The engine                                                         *)
(* ===================================================================== *)

Module Monkey.

(** Names of the internal marker attributes. *)
Definition _CREATED (n : string) : string := "_monkey_created_" +:+ n.
Definition _ORIGINAL_IDS (n : string) : string := "_monkey_ids_" +:+ n.
Definition _ORIGINAL_ITEM (n : string) (i : nat) : string :=
  "_monkey_item_" +:+ n +:+ "_" +:+ pretty i.
Definition _DECORATOR_DATA : string := "_monkey_decorator_data".

(** [class Patch]. *)
Record Patch : Type := mkPatch {
  destination : value;
  name : string;
  obj : value;
  settings : value;
}.

(** [get_attribute(obj, name)]. *)
Fixpoint get_attribute_loop (h : heap) (objs : list value) (n : string)
  : res value :=
  match objs with
  | [] => Raise AttributeError
  | o :: objs' =>
      match object_getattribute h o n with
      | Ok v => Ok v
      | Raise AttributeError => get_attribute_loop h objs' n
      | Raise e => Raise e
      end
  end.

Definition get_attribute (h : heap) (o : value) (n : string) : res value :=
  let objs := match o with
              | VRef r => if is_class h o then VRef <$> getmro h r else [o]
              | _ => [o]
              end in
  get_attribute_loop h objs n.

(** [apply(patch, id='default')]. *)
Definition apply (p : Patch) (id : string) : M unit :=
  r ← try (λ h, get_attribute h (destination p) (name p));
  match r with
  | Raise AttributeError =>
      setattr (destination p) (_CREATED (name p)) (VBool true)
  | Raise e => raise e
  | Ok target =>
      let original_ids := _ORIGINAL_IDS (name p) in
      ids ← read (λ h, getattr_default h (destination p) original_ids (VTuple []));
      len ← read (λ _, py_len ids);
      setattr (destination p) (_ORIGINAL_ITEM (name p) len) target;;
      ids' ← read (λ _, py_iadd_tuple ids (VStr id));
      setattr (destination p) original_ids ids'
  end;;
  setattr (destination p) (name p) (obj p).

(** [revert(patch)].  The message of the [RuntimeError] is formatted from
    [patch.destination.__name__], read before the exception is built. *)
Definition revert (p : Patch) : M unit :=
  let created := _CREATED (name p) in
  flag ← read (λ h, getattr_default h (destination p) created (VBool false));
  if py_truth flag then
    delattr (destination p) (name p)
  else
    let original_ids := _ORIGINAL_IDS (name p) in
    r ← try (λ h, getattr h (destination p) original_ids);
    ids ← match r with
          | Ok ids =>
              if py_truth ids then mret ids
              else (read (λ h, getattr h (destination p) "__name__");;
                    raise RuntimeError)
          | Raise AttributeError =>
              read (λ h, getattr h (destination p) "__name__");;
              raise RuntimeError
          | Raise e => raise e
          end;
    len ← read (λ _, py_len ids);
    let original_item := _ORIGINAL_ITEM (name p) (len - 1) in
    attr ← read (λ h, getattr h (destination p) original_item);
    setattr (destination p) (name p) attr;;
    delattr (destination p) original_item;;
    ids' ← read (λ _, py_init ids);
    setattr (destination p) original_ids ids'.

(** [get_original_attribute(obj, name, id='default')].  The scan
    [reversed(tuple(enumerate(ids)))] goes from the last index down. *)
Fixpoint scan_ids (h : heap) (o : value) (n : string) (id : string)
    (rev_ids : list value) : res value :=
  match rev_ids with
  | [] => Raise AttributeError
  | original_id :: older =>
      if py_eq_str original_id id
      then getattr h o (_ORIGINAL_ITEM n (length older))
      else scan_ids h o n id older
  end.

Definition get_original_attribute (h : heap) (o : value) (n : string)
    (id : string) : res value :=
  let original_ids := _ORIGINAL_IDS n in
  ids ← match getattr h o original_ids with
        | Ok ids =>
            if py_truth ids then Ok ids
            else (getattr h o "__name__";; Raise AttributeError)
        | Raise AttributeError =>
            getattr h o "__name__";; Raise AttributeError
        | Raise e => Raise e
        end;
  items ← py_iter ids;
  scan_ids h o n id (reverse items).

(** [default_filter(name, obj)]. *)
Definition startswith (s pre : string) : bool := String.prefix pre s.

Definition default_filter (h : heap) (n : string) (v : value) : bool :=
  negb (is_module h v || startswith n "_").

(** [_true]: true whatever the arguments. *)
Definition _true (h : heap) (n : string) (v : value) : bool := true.

(** A filter is a callable of the caller; [None] stands for [_true]. *)
Definition filter_fn : Type := heap → string → value → bool.

Definition filter_or_true (f : option filter_fn) : filter_fn :=
  match f with Some f => f | None => _true end.

(** [_get_base(obj)]: the recursion is Python's, cut by the interpreter's
    recursion limit [depth].  The last case cannot be reached in Python 3,
    where classmethod and staticmethod objects have [__func__]. *)
Fixpoint _get_base (depth : nat) (h : heap) (o : value) : res value :=
  match depth with
  | 0 => Raise RecursionError
  | S depth' =>
      has_func ← hasattr h o "__func__";
      if has_func : bool then
        f ← getattr h o "__func__"; _get_base depth' h f
      else
        match o with
        | VProperty fget => _get_base depth' h fget
        | VClassmethod _ | VStaticmethod _ =>
            f ← descr_get h o None object_ref; _get_base depth' h f
        | _ => Ok o
        end
  end.

(** [datas.setdefault(obj, None)] on the dict kept on a class: the entry
    of that very class, [None] when it has none.  (The [None] that
    [setdefault] then stores changes no later answer.) *)
Fixpoint setdefault_none (items : list (value * value)) (key : value) : value :=
  match items with
  | [] => VNone
  | (VRef r', v) :: rest =>
      match key with
      | VRef r => if decide (r' = r) then v else setdefault_none rest key
      | _ => setdefault_none rest key
      end
  | _ :: rest => setdefault_none rest key
  end.

(** [get_decorator_data(obj)], with [set_default=False] as the builder and
    the discovery call it. *)
Definition get_decorator_data (h : heap) (o : value) : res value :=
  if is_class h o then
    datas ← getattr_default h o _DECORATOR_DATA (VDict []);
    match datas with
    | VDict items => Ok (setdefault_none items o)
    | _ => Raise AttributeError
    end
  else getattr_default h o _DECORATOR_DATA VNone.

(** [copy.deepcopy(v)]: atoms, classes, functions and properties are
    copied as themselves, containers element by element, a bound method
    around a copy of its receiver, and an instance of the engine's own two
    classes attribute by attribute; a module cannot be copied, and any
    other object is copied by its own protocol. *)
Fixpoint deepcopy (h : heap) (v : value) : res value :=
  let copies := fix copies (vs : list value) : res (list value) :=
    match vs with
    | [] => Ok []
    | x :: xs => x' ← deepcopy h x; xs' ← copies xs; Ok (x' :: xs')
    end in
  let copies_items :=
    fix copies_items (kvs : list (value * value)) : res (list (value * value)) :=
    match kvs with
    | [] => Ok []
    | (k, x) :: rest =>
        k' ← deepcopy h k; x' ← deepcopy h x; rest' ← copies_items rest;
        Ok ((k', x') :: rest')
    end in
  let copies_kwargs :=
    fix copies_kwargs (kvs : list (string * value)) : res (list (string * value)) :=
    match kvs with
    | [] => Ok []
    | (k, x) :: rest =>
        x' ← deepcopy h x; rest' ← copies_kwargs rest; Ok ((k, x') :: rest')
    end in
  match v with
  | VNone | VBool _ | VInt _ | VStr _ | VProperty _ => Ok v
  | VTuple vs => vs' ← copies vs; Ok (VTuple vs')
  | VList vs => vs' ← copies vs; Ok (VList vs')
  | VDict items => items' ← copies_items items; Ok (VDict items')
  | VRef r =>
      match h !! r with
      | Some o =>
          match okind o with
          | KClass | KFunction => Ok v
          | KModule => Raise TypeError
          | KInstance => Raise UserCode
          end
      | None => Raise UserCode
      end
  | VBound f s => s' ← deepcopy h s; Ok (VBound f s')
  | VPatch d n o s =>
      d' ← deepcopy h d; o' ← deepcopy h o; s' ← deepcopy h s;
      Ok (VPatch d' n o' s')
  | VDecoratorData patches override flt =>
      patches' ← copies patches; override' ← copies_kwargs override;
      flt' ← deepcopy h flt;
      Ok (VDecoratorData patches' override' flt')
  | _ => Raise UserCode
  end.

(** [Patch._update] on its keyword arguments:
    [setattr(self, key, copy.deepcopy(value))] for each item.  A key that
    is none of the four attributes adds an attribute the engine never
    reads.  [name] is a string, as the class documents it: a [name]
    override that is no string is refused here with the [TypeError] that
    Python raises later, at the first use of the name as an attribute
    name. *)
Fixpoint _update (h : heap) (p : Patch) (kwargs : list (string * value))
  : res Patch :=
  match kwargs with
  | [] => Ok p
  | (key, val) :: rest =>
      val' ← deepcopy h val;
      p' ← (if decide (key = "destination") then
              Ok (mkPatch val' (name p) (obj p) (settings p))
            else if decide (key = "name") then
              match val' with
              | VStr s => Ok (mkPatch (destination p) s (obj p) (settings p))
              | _ => Raise TypeError
              end
            else if decide (key = "obj") then
              Ok (mkPatch (destination p) (name p) val' (settings p))
            else if decide (key = "settings") then
              Ok (mkPatch (destination p) (name p) (obj p) val')
            else Ok p);
      _update h p' rest
  end.

(** [getattr(root, '__dict__', {})]: heap objects and the instances of the
    engine's two classes have one. *)
Definition py_dict (h : heap) (v : value) : dict :=
  match v with
  | VRef r => match h !! r with Some o => odict o | None => [] end
  | VPatch d n o s =>
      [("destination", d); ("name", VStr n); ("obj", o); ("settings", s)]
  | VDecoratorData patches override flt =>
      [("patches", VList patches);
       ("override", VDict ((λ kv, (VStr kv.1, kv.2)) <$> override));
       ("filter", flt)]
  | _ => []
  end.

(** The two inner loops of [_get_members]: the items of one root, then the
    roots, with the set [seen] of names and the list [members]. *)
Fixpoint collect_items (h : heap) (flt : filter_fn) (items : dict)
    (seen : list string) (members : list (string * value))
  : list string * list (string * value) :=
  match items with
  | [] => (seen, members)
  | (n, v) :: rest =>
      let members' :=
        if bool_decide (n ∉ seen) && flt h n v then members ++ [(n, v)]
        else members in
      collect_items h flt rest (n :: seen) members'
  end.

Fixpoint collect_roots (h : heap) (flt : filter_fn) (roots : list value)
    (seen : list string) (members : list (string * value))
  : list (string * value) :=
  match roots with
  | [] => members
  | root :: rest =>
      let '(seen', members') := collect_items h flt (py_dict h root) seen members in
      collect_roots h flt rest seen' members'
  end.

(** [sorted(members)]: tuples [(name, value)] compare by name first, and
    no two members have the same name. *)
Definition member_le (a b : string * value) : Prop := String.le a.1 b.1.

Global Instance member_le_dec : RelDecision member_le.
Proof. intros a b. unfold member_le. apply _. Defined.

Definition sorted (members : list (string * value)) : list (string * value) :=
  merge_sort member_le members.

(** The roots of one object: [base for base in inspect.getmro(obj) if base
    not in (type, object)], or the object alone. *)
Definition member_roots (h : heap) (traverse_bases : bool) (o : value)
  : list value :=
  match o with
  | VRef r =>
      if traverse_bases && is_class h o
      then VRef <$> filter (λ b, b ≠ type_ref ∧ b ≠ object_ref) (getmro h r)
      else [o]
  | _ => [o]
  end.

(** [_get_members(obj, traverse_bases, filter, recursive)]: the [while
    stack] loop, on a budget of iterations. *)
Fixpoint _get_members_loop (fuel : nat) (h : heap) (traverse_bases : bool)
    (flt : filter_fn) (recursive : bool) (stack : list value)
    (out : list (string * value)) : res (list (string * value)) :=
  match stack with
  | [] => Ok out
  | o :: stack' =>
      match fuel with
      | 0 => Raise OutOfFuel
      | S fuel' =>
          let roots := member_roots h traverse_bases o in
          let members := sorted (collect_roots h flt roots [] []) in
          let classes :=
            if recursive then filter (λ v, is_class h v = true) members.*2
            else [] in
          _get_members_loop fuel' h traverse_bases flt recursive
            (stack' ++ classes) (out ++ members)
      end
  end.

Definition _get_members (fuel : nat) (h : heap) (o : value)
    (traverse_bases : bool) (flt : option filter_fn) (recursive : bool)
  : res (list (string * value)) :=
  _get_members_loop fuel h traverse_bases (filter_or_true flt) recursive [o] [].

(** The attributes of a [DecoratorData]; any other value has none. *)
Definition data_filter (data : value) : res value :=
  match data with
  | VDecoratorData _ _ f => Ok f
  | _ => Raise AttributeError
  end.

Definition data_override (data : value) : res (list (string * value)) :=
  match data with
  | VDecoratorData _ override _ => Ok override
  | _ => Raise AttributeError
  end.

Definition data_patches (data : value) : res value :=
  match data with
  | VDecoratorData patches _ _ => Ok (VList patches)
  | _ => Raise AttributeError
  end.

Definition is_None (v : value) : bool :=
  match v with VNone => true | _ => false end.
Definition is_False (v : value) : bool :=
  match v with VBool false => true | _ => false end.

(** The body of the [for name_, value in members] loop of
    [create_patches], on the pair (stack, out): [None] is [continue]. *)
Definition create_patches_member (depth : nat) (h : heap) (flt : filter_fn)
    (recursive use_decorators : bool) (parent_patch : Patch)
    (acc : list Patch * list Patch) (member : string * value)
  : res (list Patch * list Patch) :=
  let '(stack, out) := acc in
  let '(name_, val) := member in
  settings' ← deepcopy h (settings parent_patch);
  let patch_obj := mkPatch (destination parent_patch) name_ val settings' in
  kept ← (if use_decorators then
            base ← _get_base depth h val;
            decorator_data ← get_decorator_data h base;
            filter_override ← (if is_None decorator_data then Ok VNone
                               else data_filter decorator_data);
            if (is_None filter_override && negb (flt h name_ val))
               || is_False filter_override
            then Ok None
            else if is_None decorator_data then Ok (Some patch_obj)
            else (override ← data_override decorator_data;
                  p ← _update h patch_obj override; Ok (Some p))
          else if negb (flt h name_ val) then Ok None
          else Ok (Some patch_obj));
  match kept with
  | None => Ok (stack, out)
  | Some patch_obj =>
      if recursive && is_class h val then
        match get_attribute h (destination patch_obj) (name patch_obj) with
        | Raise AttributeError => Ok (stack, out ++ [patch_obj])
        | Raise e => Raise e
        | Ok target =>
            if is_class h target then
              Ok (stack ++ [mkPatch target (name patch_obj) (obj patch_obj)
                              (settings patch_obj)], out)
            else Ok (stack, out ++ [patch_obj])
        end
      else Ok (stack, out ++ [patch_obj])
  end.

Fixpoint create_patches_members (depth : nat) (h : heap) (flt : filter_fn)
    (recursive use_decorators : bool) (parent_patch : Patch)
    (acc : list Patch * list Patch) (members : list (string * value))
  : res (list Patch * list Patch) :=
  match members with
  | [] => Ok acc
  | m :: rest =>
      acc' ← create_patches_member depth h flt recursive use_decorators
               parent_patch acc m;
      create_patches_members depth h flt recursive use_decorators
        parent_patch acc' rest
  end.

(** The [while stack] loop of [create_patches]. *)
Fixpoint create_patches_loop (fuel depth : nat) (h : heap)
    (traverse_bases : bool) (flt : filter_fn)
    (recursive use_decorators : bool) (stack out : list Patch)
  : res (list Patch) :=
  match stack with
  | [] => Ok out
  | parent_patch :: stack' =>
      match fuel with
      | 0 => Raise OutOfFuel
      | S fuel' =>
          members ← _get_members fuel h (obj parent_patch) traverse_bases
                      None false;
          acc ← create_patches_members depth h flt recursive use_decorators
                  parent_patch (stack', out) members;
          create_patches_loop fuel' depth h traverse_bases flt recursive
            use_decorators acc.1 acc.2
      end
  end.

(** [create_patches(destination, root, settings, traverse_bases, filter,
    recursive, use_decorators)]. *)
Definition create_patches (fuel depth : nat) (h : heap)
    (destination_ root settings_ : value) (traverse_bases : bool)
    (flt : option filter_fn) (recursive use_decorators : bool)
  : res (list Patch) :=
  create_patches_loop fuel depth h traverse_bases (filter_or_true flt)
    recursive use_decorators [mkPatch destination_ "" root settings_] [].

(** What discovery asks of its environment: [pkgutil.iter_modules([path])]
    as the list of (name, is_package) it yields, and the module that
    [sys.modules.get(name)] or else [importlib.import_module(name)] gives,
    if any.  The modules are taken as already executed: importing changes
    nothing here. *)
Record importer : Type := Importer {
  iter_modules : string → list (string * bool);
  import_module : string → option value;
}.

(** A generator run to its end: what it yielded, in order, and how it
    ended. *)
Definition generated (A : Type) : Type := list A * res unit.

(** The [for finder, name, is_package in ...] loop of
    [_module_iterator].  The [__name__] of a package is a string; the
    formatting of any other value into the module name is not modelled. *)
Fixpoint _module_iterator_entries (env : importer) (h : heap) (package : value)
    (recursive : bool) (entries : list (string * bool))
    (stack yielded : list value) : list value * list value * res unit :=
  match entries with
  | [] => (stack, yielded, Ok ())
  | (n, is_package) :: rest =>
      match getattr h package "__name__" with
      | Raise e => (stack, yielded, Raise e)
      | Ok (VStr package_name) =>
          match import_module env (package_name +:+ "." +:+ n) with
          | None => (stack, yielded, Raise ImportError)
          | Some module =>
              if is_package : bool then
                if recursive then
                  _module_iterator_entries env h package recursive rest
                    (stack ++ [module]) (yielded ++ [module])
                else
                  _module_iterator_entries env h package recursive rest
                    stack yielded
              else
                _module_iterator_entries env h package recursive rest
                  stack (yielded ++ [module])
          end
      | Ok _ => (stack, yielded, Raise TypeError)
      end
  end.

(** The [for path in paths] loop. *)
Fixpoint _module_iterator_paths (env : importer) (h : heap) (package : value)
    (recursive : bool) (paths : list value)
    (stack yielded : list value) : list value * list value * res unit :=
  match paths with
  | [] => (stack, yielded, Ok ())
  | path :: rest =>
      let entries := match path with
                     | VStr p => iter_modules env p
                     | _ => []
                     end in
      match _module_iterator_entries env h package recursive entries
              stack yielded with
      | (stack', yielded', Ok _) =>
          _module_iterator_paths env h package recursive rest stack' yielded'
      | failed => failed
      end
  end.

(** The [while stack] loop. *)
Fixpoint _module_iterator_loop (fuel : nat) (env : importer) (h : heap)
    (recursive : bool) (stack yielded : list value) : generated value :=
  match stack with
  | [] => (yielded, Ok ())
  | package :: stack' =>
      match fuel with
      | 0 => (yielded, Raise OutOfFuel)
      | S fuel' =>
          match getattr_default h package "__path__" (VList []) ≫= py_iter with
          | Raise e => (yielded, Raise e)
          | Ok paths =>
              match _module_iterator_paths env h package recursive paths
                      stack' yielded with
              | (stack'', yielded', Ok _) =>
                  _module_iterator_loop fuel' env h recursive stack'' yielded'
              | (_, yielded', Raise e) => (yielded', Raise e)
              end
          end
      end
  end.

(** [_module_iterator(root, recursive)]. *)
Definition _module_iterator (fuel : nat) (env : importer) (h : heap)
    (root : value) (recursive : bool) : generated value :=
  _module_iterator_loop fuel env h recursive [root] [root].

(** The body of [for _, value in members] in [find_patches]. *)
Fixpoint find_patches_members (depth : nat) (h : heap)
    (members : list (string * value)) (out : list value) : res (list value) :=
  match members with
  | [] => Ok out
  | (_, val) :: rest =>
      base ← _get_base depth h val;
      decorator_data ← get_decorator_data h base;
      if is_None decorator_data then find_patches_members depth h rest out
      else
        patches ← data_patches decorator_data;
        more ← py_iter patches;
        find_patches_members depth h rest (out ++ more)
  end.

(** The body of [for module in modules_iter]. *)
Fixpoint find_patches_modules (fuel depth : nat) (h : heap)
    (modules : list value) (out : list value) : res (list value) :=
  match modules with
  | [] => Ok out
  | module :: rest =>
      members ← _get_members fuel h module true None true;
      out' ← find_patches_members depth h members out;
      find_patches_modules fuel depth h rest out'
  end.

(** [find_patches(modules, recursive)]: each package's generator is
    consumed module by module; when it ends by raising, that is raised
    after the modules it yielded have been gone through. *)
Fixpoint find_patches_packages (fuel depth : nat) (env : importer) (h : heap)
    (recursive : bool) (packages : list value) (out : list value)
  : res (list value) :=
  match packages with
  | [] => Ok out
  | package :: rest =>
      let '(yielded, ended) := _module_iterator fuel env h package recursive in
      out' ← find_patches_modules fuel depth h yielded out;
      ended;;
      find_patches_packages fuel depth env h recursive rest out'
  end.

Definition find_patches (fuel depth : nat) (env : importer) (h : heap)
    (modules : list value) (recursive : bool) : res (list value) :=
  find_patches_packages fuel depth env h recursive modules [].

(** [Patch.__dict__] and [Patch.__hash__].  [hash] of a list raises
    [TypeError]; what it is on the hashable values is left to the
    interpreter ([hash_atom], [hash_tuple]). *)
Definition patch_dict (p : Patch) : dict :=
  [("destination", destination p); ("name", VStr (name p));
   ("obj", obj p); ("settings", settings p)].

Definition items_value (d : dict) : list value :=
  (λ kv, VTuple [VStr kv.1; kv.2]) <$> d.

Section hash.
Context (hash_atom : value → Z) (hash_tuple : list Z → Z).

Fixpoint py_hash (v : value) : res Z :=
  let hashes := fix hashes (vs : list value) : res (list Z) :=
    match vs with
    | [] => Ok []
    | x :: xs => x' ← py_hash x; xs' ← hashes xs; Ok (x' :: xs')
    end in
  match v with
  | VList _ | VDict _ => Raise TypeError
  | VTuple vs => hs ← hashes vs; Ok (hash_tuple hs)
  | _ => Ok (hash_atom v)
  end.

(** [hash(sorted(_iteritems(self.__dict__)))]. *)
Definition Patch___hash__ (p : Patch) : res Z :=
  py_hash (VList (items_value (sorted (patch_dict p)))).

(** [s.add(p)] and [d[p] = v] hash the key first. *)
Definition set_add_patch (s : list Z) (p : Patch) : res (list Z) :=
  hsh ← Patch___hash__ p; Ok (hsh :: s).

Definition dict_setitem_patch (d : list (Z * value)) (p : Patch) (v : value)
  : res (list (Z * value)) :=
  hsh ← Patch___hash__ p; Ok ((hsh, v) :: d).
End hash.

End Monkey.

(* ===================================================================== *)
(** ** The decorators                                                     *)
(* ===================================================================== *)

(** [patch], [patches], [destination], [name] and [filter] of
    kapuchin_monkey.py, with [get_decorator_data] as they call it
    ([set_default=True]).  They are in a module of their own because
    [destination] and [name] are also the fields of [Patch].

    A [DecoratorData], and the dict of them that a class keeps, are mutable
    objects that the engine changes in place.  Values are held by value
    here, in the [__dict__] entry that refers to them: a change in place
    rewrites that entry.  This is exact as long as one entry refers to the
    object.  The engine itself makes a second reference in one case only:
    a class that finds the dict of one of its bases stores that very dict
    on itself as well; there the two entries are separate copies here. *)
Module Decorators.
Import Monkey.

(** The first object of [cs] whose own [__dict__] has [n], with what it
    holds there. *)
Fixpoint first_holder (h : heap) (cs : list ref) (n : string)
  : option (ref * value) :=
  match cs with
  | [] => None
  | c :: cs' =>
      match h !! c ≫= (λ o, dict_get (odict o) n) with
      | Some v => Some (c, v)
      | None => first_holder h cs' n
      end
  end.

(** Where [getattr(o, n)] finds a value that is stored, not computed: the
    object that holds it, and what is stored.  The search goes as in
    [type_getattribute] and [object_getattribute]. *)
Definition stored (h : heap) (o : value) (n : string) : option (ref * value) :=
  match o with
  | VRef r =>
      match h !! r with
      | Some ob =>
          if bool_decide (okind ob = KClass) then
            match first_holder h (omro ob) n with
            | Some found => Some found
            | None => first_holder h (getmro h (otype ob)) n
            end
          else
            match dict_get (odict ob) n with
            | Some v => Some (r, v)
            | None => first_holder h (getmro h (otype ob)) n
            end
      | None => None
      end
  | _ => None
  end.

(** The object that [getattr] handed out sits in the entry as it is, or
    inside a [staticmethod]. *)
Definition put_back (raw v' : value) : value :=
  match raw with
  | VStaticmethod _ => VStaticmethod v'
  | _ => v'
  end.

(** A change in place of the object that [getattr(o, n)] returned: the
    entry that holds it now holds [v']. *)
Definition rewrite_stored (o : value) (n : string) (v' : value) : M unit := λ h,
  match stored h o n with
  | Some (c, raw) =>
      match h !! c with
      | Some oc =>
          (Ok (), <[c := with_dict oc (dict_set (odict oc) n (put_back raw v'))]> h)
      | None => (Ok (), h)
      end
  | None => (Ok (), h)
  end.

(** [datas[obj] = data] for a class [obj]. *)
Fixpoint vdict_set (items : list (value * value)) (key : ref) (v : value)
  : list (value * value) :=
  match items with
  | [] => [(VRef key, v)]
  | (VRef r', v') :: rest =>
      if decide (r' = key) then (VRef key, v) :: rest
      else (VRef r', v') :: vdict_set rest key v
  | kv :: rest => kv :: vdict_set rest key v
  end.

(** [DecoratorData()]. *)
Definition DecoratorData : value := VDecoratorData [] [] VNone.

(** [get_decorator_data(obj, set_default=True)]. *)
Definition get_decorator_data (o : value) : M value :=
  cls ← read (λ h, Ok (is_class h o));
  if cls : bool then
    datas ← read (λ h, getattr_default h o _DECORATOR_DATA (VDict []));
    match datas, o with
    | VDict items, VRef r =>
        let data := setdefault_none items o in
        if is_None data then
          let data := DecoratorData in
          let datas := VDict (vdict_set items r data) in
          rewrite_stored o _DECORATOR_DATA datas;;
          setattr o _DECORATOR_DATA datas;;
          mret data
        else mret data
    | _, _ => raise AttributeError
    end
  else
    data ← read (λ h, getattr_default h o _DECORATOR_DATA VNone);
    if is_None data then
      let data := DecoratorData in
      setattr o _DECORATOR_DATA data;;
      mret data
    else mret data.

(** The change in place of the [DecoratorData] that
    [get_decorator_data(o, set_default=True)] returned: for a class it is
    the entry of [o] in the dict, otherwise the attribute itself. *)
Definition change_decorator_data (o : value) (data' : value) : M unit :=
  cls ← read (λ h, Ok (is_class h o));
  if cls : bool then
    datas ← read (λ h, getattr_default h o _DECORATOR_DATA (VDict []));
    match datas, o with
    | VDict items, VRef r =>
        rewrite_stored o _DECORATOR_DATA (VDict (vdict_set items r data'))
    | _, _ => raise AttributeError
    end
  else rewrite_stored o _DECORATOR_DATA data'.

(** [data.patches], [data.override], [data.filter]: a [DecoratorData] has
    them, the built-in values have not, and on any other object they are
    that object's own business. *)
Definition as_DecoratorData (data : value)
  : res (list value * list (string * value) * value) :=
  match data with
  | VDecoratorData patches override flt => Ok (patches, override, flt)
  | VNone | VBool _ | VInt _ | VStr _ | VTuple _ | VList _ | VDict _
  | VProperty _ | VGetSetName => Raise AttributeError
  | _ => Raise UserCode
  end.

(** A [Patch] object as a value. *)
Definition patch_value (p : Patch) : value :=
  VPatch (Monkey.destination p) (Monkey.name p) (obj p) (settings p).

(** [data.patches.append(patch_obj)], [data.patches.extend(patches_list)],
    [data.override[key] = value] and [data.filter = value]. *)
Definition patches_append (data p : value) : res value :=
  '(patches, override, flt) ← as_DecoratorData data;
  Ok (VDecoratorData (patches ++ [p]) override flt).

Definition patches_extend (data : value) (ps : list value) : res value :=
  '(patches, override, flt) ← as_DecoratorData data;
  Ok (VDecoratorData (patches ++ ps) override flt).

Definition override_setitem (data : value) (key : string) (v : value) : res value :=
  '(patches, override, flt) ← as_DecoratorData data;
  Ok (VDecoratorData patches (dict_set override key v) flt).

Definition filter_assign (data : value) (v : value) : res value :=
  '(patches, override, flt) ← as_DecoratorData data;
  Ok (VDecoratorData patches override v).

(** [patch(destination, name, settings)(wrapped)].  A [__name__] that is
    no string is refused as in [_update]. *)
Definition patch (depth : nat) (destination_ : value) (name_ : option string)
    (settings_ : value) (wrapped : value) : M value :=
  base ← read (λ h, _get_base depth h wrapped);
  n ← match name_ with
       | Some n => mret n
       | None =>
           v ← read (λ h, getattr h base "__name__");
           match v with VStr s => mret s | _ => raise TypeError end
       end;
  settings' ← read (λ h, deepcopy h settings_);
  let patch_obj := VPatch destination_ n wrapped settings' in
  data ← get_decorator_data base;
  data' ← read (λ _, patches_append data patch_obj);
  change_decorator_data base data';;
  mret wrapped.

(** [patches(destination, settings, traverse_bases, filter, recursive,
    use_decorators)(wrapped)]. *)
Definition patches (fuel depth : nat) (destination_ settings_ : value)
    (traverse_bases : bool) (flt : option filter_fn)
    (recursive use_decorators : bool) (wrapped : value) : M value :=
  settings' ← read (λ h, deepcopy h settings_);
  patches_list ← read (λ h, create_patches fuel depth h destination_ wrapped
                              settings' traverse_bases flt recursive
                              use_decorators);
  base ← read (λ h, _get_base depth h wrapped);
  data ← get_decorator_data base;
  data' ← read (λ _, patches_extend data (patch_value <$> patches_list));
  change_decorator_data base data';;
  mret wrapped.

(** [destination(value)(wrapped)], [name(value)(wrapped)] and
    [filter(value)(wrapped)]. *)
Definition destination (depth : nat) (v : value) (wrapped : value) : M value :=
  base ← read (λ h, _get_base depth h wrapped);
  data ← get_decorator_data base;
  data' ← read (λ _, override_setitem data "destination" v);
  change_decorator_data base data';;
  mret wrapped.

Definition name (depth : nat) (v : value) (wrapped : value) : M value :=
  base ← read (λ h, _get_base depth h wrapped);
  data ← get_decorator_data base;
  data' ← read (λ _, override_setitem data "name" v);
  change_decorator_data base data';;
  mret wrapped.

Definition filter (depth : nat) (v : value) (wrapped : value) : M value :=
  base ← read (λ h, _get_base depth h wrapped);
  data ← get_decorator_data base;
  data' ← read (λ _, filter_assign data v);
  change_decorator_data base data';;
  mret wrapped.

End Decorators.

(* ===================================================================== *)
(** ** The plugin helpers of klippy/extras/kapuchin.py                    *)
(* ===================================================================== *)

Module Kapuchin.
Import Monkey.

(** What [apply(patch)] reads of its argument: [patch.destination],
    [patch.name], [patch.obj]. *)
Definition as_Patch (v : value) : res Patch :=
  match v with
  | VPatch d n o s => Ok (mkPatch d n o s)
  | VRef _ | VBound _ _ | VStaticmethod _ | VClassmethod _ => Raise UserCode
  | _ => Raise AttributeError
  end.

(** The host's part.  [call f args kwargs] is the call of the function
    [f] with these positional and keyword arguments; its body is the
    host's or the plugin's code.  [new_plugin config status] is the
    [class _Plugin] statement of [bootstrap_plugin] with the
    [_Plugin(config)] that it returns. *)
Section host.
Context (fuel depth : nat) (env : importer).
Context (call : value → list value → list (string * value) → M value).
Context (new_plugin : value → value → M value).

(** [for patch in patches: monkey.apply(patch)]. *)
Fixpoint apply_each (patches : list value) : M unit :=
  match patches with
  | [] => mret ()
  | patch :: rest =>
      p ← read (λ _, as_Patch patch);
      apply p "default";;
      apply_each rest
  end.

(** [bootstrap_plugin(module, config, before_patch, after_patch, status)]. *)
Definition bootstrap_plugin (module config before_patch after_patch status : value)
  : M value :=
  (if py_truth before_patch then call before_patch [config] [];; mret ()
   else mret ());;
  patches ← read (λ h, find_patches fuel depth env h [module] true);
  apply_each patches;;
  (if py_truth after_patch then call after_patch [config] [];; mret ()
   else mret ());;
  new_plugin config status.

(** [call_original(cls, name, self, ...)] with the further positional and
    keyword arguments. *)
Definition call_original (cls : value) (name : string) (self : value)
    (args : list value) (kwargs : list (string * value)) : M value :=
  original ← read (λ h, get_original_attribute h cls name "default");
  call original (self :: args) kwargs.
End host.
End Kapuchin.

(* ===================================================================== *)
(** ** A concrete world                                                   *)
(* ===================================================================== *)

Module World.
Import Monkey.

Definition builtin (n : string) : object :=
  {| okind := KFunction; otype := function_type_ref; oname := n;
     omro := []; odict := [] |}.

Definition class_ (n : string) (mro : list ref) (d : dict) : object :=
  {| okind := KClass; otype := type_ref; oname := n; omro := mro; odict := d |}.

Definition instance (cls : ref) (d : dict) : object :=
  {| okind := KInstance; otype := cls; oname := ""; omro := []; odict := d |}.

Definition module_ (d : dict) : object :=
  {| okind := KModule; otype := module_type_ref; oname := ""; omro := [];
     odict := d |}.

(** The built-in part: [object], [type], the module and function types and
    a few of their slots. *)
Definition builtins : heap :=
  list_to_map
    [ (object_ref, class_ "object" [object_ref]
         [("__repr__", VRef 4); ("__hash__", VRef 5); ("__init__", VRef 6)]);
      (type_ref, class_ "type" [type_ref; object_ref]
         [("__name__", VGetSetName); ("__repr__", VRef 7); ("mro", VRef 8)]);
      (module_type_ref, class_ "module" [module_type_ref; object_ref] []);
      (function_type_ref, class_ "function" [function_type_ref; object_ref]
         [("__name__", VGetSetName)]);
      (4, builtin "__repr__"); (5, builtin "__hash__"); (6, builtin "__init__");
      (7, builtin "__repr__"); (8, builtin "mro") ].

(** [class Fan: max_power = 1; def set_speed(self, v): ...] and one
    instance [fan = Fan()]. *)
Definition Fan : ref := 10.
Definition set_speed : ref := 11.
Definition fan : ref := 12.

Definition world : heap :=
  <[Fan := class_ "Fan" [Fan; object_ref]
             [("__module__", VStr "fan"); ("max_power", VInt 1);
              ("set_speed", VRef set_speed)]]>
  (<[set_speed := builtin "set_speed"]>
  (<[fan := instance Fan []]> builtins)).

(** The same class with a static method besides:
    [class Fan: ...; @staticmethod def clamp(v): ...]. *)
Definition clamp : ref := 13.

Definition with_static : heap :=
  <[Fan := class_ "Fan" [Fan; object_ref]
             [("__module__", VStr "fan"); ("max_power", VInt 1);
              ("set_speed", VRef set_speed);
              ("clamp", VStaticmethod (VRef clamp))]]>
  (<[clamp := builtin "clamp"]> world).

(** A template class with a public function, a private one and a nested
    class, and a host class that has a nested class of the same name:
    [class Template: def foo ...; def _bar ...; class Inner: a = 1; b = 2]
    and [class Host: class Inner: a = 0]; and a subclass of the template
    that defines [foo] again, [class Derived(Template): def foo ...;
    extra = 7]. *)
Definition Template : ref := 20.
Definition foo : ref := 21.
Definition _bar : ref := 22.
Definition TInner : ref := 23.
Definition Derived : ref := 24.
Definition derived_foo : ref := 25.
Definition Host : ref := 30.
Definition HInner : ref := 31.

Definition templates : heap :=
  <[Template := class_ "Template" [Template; object_ref]
     [("__module__", VStr "patches"); ("foo", VRef foo); ("_bar", VRef _bar);
      ("Inner", VRef TInner); ("__doc__", VNone)]]>
  (<[Derived := class_ "Derived" [Derived; Template; object_ref]
     [("__module__", VStr "patches"); ("foo", VRef derived_foo);
      ("extra", VInt 7)]]>
  (<[derived_foo := builtin "foo"]>
  (<[foo := builtin "foo"]>
  (<[_bar := builtin "_bar"]>
  (<[TInner := class_ "Inner" [TInner; object_ref]
      [("__module__", VStr "patches"); ("a", VInt 1); ("b", VInt 2);
       ("__doc__", VNone)]]>
  (<[Host := class_ "Host" [Host; object_ref]
      [("__module__", VStr "host"); ("Inner", VRef HInner)]]>
  (<[HInner := class_ "Inner" [HInner; object_ref]
      [("__module__", VStr "host"); ("a", VInt 0)]]>
   world))))))).

(** A package [patches] with two child modules, each declaring one patch
    through the [patch] decorator: the decorated function carries a
    [DecoratorData] whose [patches] holds that patch.
    [patches/fan_scaling.py: @patch(...) def set_fan ...] and
    [patches/tmc_clock.py: @patch(...) def get_status ...]. *)
Definition patches_pkg : ref := 40.
Definition fan_scaling : ref := 41.
Definition tmc_clock : ref := 42.
Definition set_fan : ref := 43.
Definition get_status : ref := 44.

Definition decorated (n : string) (patches : list value) : object :=
  {| okind := KFunction; otype := function_type_ref; oname := n; omro := [];
     odict := [(Monkey._DECORATOR_DATA, VDecoratorData patches [] VNone)] |}.

Definition discovery (pA pB : value) : heap :=
  <[patches_pkg := module_
     [("__name__", VStr "patches"); ("__path__", VList [VStr "/patches"]);
      ("fan_scaling", VRef fan_scaling); ("tmc_clock", VRef tmc_clock)]]>
  (<[fan_scaling := module_
      [("__name__", VStr "patches.fan_scaling"); ("__doc__", VNone);
       ("set_fan", VRef set_fan)]]>
  (<[tmc_clock := module_
      [("__name__", VStr "patches.tmc_clock"); ("__doc__", VNone);
       ("get_status", VRef get_status)]]>
  (<[set_fan := decorated "set_fan" [pA]]>
  (<[get_status := decorated "get_status" [pB]]>
   world)))).

(** The directory listing in the given order of the two children, and the
    modules as loaded. *)
Definition on_disk (fan_first : bool) : Monkey.importer :=
  {| Monkey.iter_modules p :=
       if decide (p = "/patches") then
         if fan_first then [("fan_scaling", false); ("tmc_clock", false)]
         else [("tmc_clock", false); ("fan_scaling", false)]
       else [];
     Monkey.import_module n :=
       if decide (n = "patches.fan_scaling") then Some (VRef fan_scaling)
       else if decide (n = "patches.tmc_clock") then Some (VRef tmc_clock)
       else None |}.

(** A plugin as klippy/patches/fan_scaling.py writes it: a class whose
    methods are the replacements,
    [class _FanScalingPatches(object): def _apply_speed ...; def __init__ ...],
    in a module of its own. *)
Definition _FanScalingPatches : ref := 50.
Definition _apply_speed : ref := 51.
Definition __init__ : ref := 52.
Definition fan_scaling_plugin : ref := 53.

Definition plugin_class : object :=
  class_ "_FanScalingPatches" [_FanScalingPatches; object_ref]
    [("__module__", VStr "fan_scaling"); ("_apply_speed", VRef _apply_speed);
     ("__init__", VRef __init__); ("__doc__", VNone)].

Definition plugin_module : object :=
  module_ [("__name__", VStr "fan_scaling"); ("__doc__", VNone);
           ("_FanScalingPatches", VRef _FanScalingPatches)].

Definition plugin : heap :=
  <[_FanScalingPatches := plugin_class]>
  (<[_apply_speed := builtin "_apply_speed"]>
  (<[__init__ := builtin "__init__"]>
  (<[fan_scaling_plugin := plugin_module]> world))).

(** A function that carries decorator data. *)
Definition with_data (n : string) (data : value) : object :=
  {| okind := KFunction; otype := function_type_ref; oname := n; omro := [];
     odict := [(Monkey._DECORATOR_DATA, data)] |}.

(** The plugin after [@monkey.name('_apply_speed')] and
    [@monkey.name('__init__')] on its two methods, and the same with
    [@monkey.filter(True)] on the first besides. *)
Definition renamed : heap :=
  <[_apply_speed :=
      with_data "_apply_speed"
        (VDecoratorData [] [("name", VStr "_apply_speed")] VNone)]>
  (<[__init__ :=
      with_data "__init__" (VDecoratorData [] [("name", VStr "__init__")] VNone)]>
   plugin).

Definition forced : heap :=
  <[_apply_speed :=
      with_data "_apply_speed"
        (VDecoratorData [] [("name", VStr "_apply_speed")] (VBool true))]>
  renamed.

(** The template class with decorator data recorded on it; its subclass
    [Derived] has none of its own. *)
Definition registered_class : object :=
  class_ "Template" [Template; object_ref]
    [("__module__", VStr "patches"); ("foo", VRef foo); ("_bar", VRef _bar);
     ("Inner", VRef TInner); ("__doc__", VNone);
     (Monkey._DECORATOR_DATA,
      VDict [(VRef Template,
              VDecoratorData [VPatch (VRef Host) "foo" (VRef foo) VNone] []
                VNone)])].

Definition registered : heap := <[Template := registered_class]> templates.

(** A module that holds an instance of the decorated class:
    [t = Template()]. *)
Definition template_instance : ref := 54.
Definition holder : ref := 55.

Definition with_instance : heap :=
  <[holder := module_ [("__name__", VStr "holder"); ("__doc__", VNone);
                       ("t", VRef template_instance)]]>
  (<[template_instance := instance Template []]> registered).

(** A listing with a package that cannot be imported. *)
Definition broken_disk : Monkey.importer :=
  {| Monkey.iter_modules p :=
       if decide (p = "/patches") then
         [("fan_scaling", false); ("missing", true); ("tmc_clock", false)]
       else [];
     Monkey.import_module n :=
       if decide (n = "patches.fan_scaling") then Some (VRef fan_scaling)
       else if decide (n = "patches.tmc_clock") then Some (VRef tmc_clock)
       else None |}.

(** A listing with a sub-package, [patches/extra/], that imports to the
    module [tmc_clock]. *)
Definition nested_disk : Monkey.importer :=
  {| Monkey.iter_modules p :=
       if decide (p = "/patches") then [("fan_scaling", false); ("extra", true)]
       else [];
     Monkey.import_module n :=
       if decide (n = "patches.fan_scaling") then Some (VRef fan_scaling)
       else if decide (n = "patches.extra") then Some (VRef tmc_clock)
       else None |}.

(** The objects of the classes above, as the heaps hold them. *)
Definition fan_class : object :=
  class_ "Fan" [Fan; object_ref]
    [("__module__", VStr "fan"); ("max_power", VInt 1);
     ("set_speed", VRef set_speed)].

Definition template_class : object :=
  class_ "Template" [Template; object_ref]
    [("__module__", VStr "patches"); ("foo", VRef foo); ("_bar", VRef _bar);
     ("Inner", VRef TInner); ("__doc__", VNone)].

Definition derived_class : object :=
  class_ "Derived" [Derived; Template; object_ref]
    [("__module__", VStr "patches"); ("foo", VRef derived_foo);
     ("extra", VInt 7)].

(** The package [patches] whose two children patch the class [Fan]:
    [@patch(Fan, name='set_speed') def set_fan ...] in the first and
    [@patch(Fan, name='max_power') def get_status ...] in the second; and
    the same with both children patching [set_speed]. *)
Definition speed_patch : value := VPatch (VRef Fan) "set_speed" (VRef set_fan) VNone.
Definition power_patch : value :=
  VPatch (VRef Fan) "max_power" (VRef get_status) VNone.
Definition speed_patch_again : value :=
  VPatch (VRef Fan) "set_speed" (VRef get_status) VNone.

Definition declared : heap := discovery speed_patch power_patch.
Definition stacked : heap := discovery speed_patch speed_patch_again.

(** A host whose calls answer with the function called and its positional
    arguments, and whose plugin object is the pair of what it was made
    from. *)
Definition echo (f : value) (args : list value) (kwargs : list (string * value))
  : M value := λ h, (Ok (VTuple (f :: args)), h).

Definition plugin_of (config status : value) : M value :=
  λ h, (Ok (VTuple [config; status]), h).

End World.

(* ===================================================================== *)
(** ** The vocabulary of the properties                                   *)
(* ===================================================================== *)

(** The own [__dict__] entry of object [c] under name [n]. *)
Definition own (h : heap) (c : ref) (n : string) : option value :=
  h !! c ≫= (λ o, dict_get (odict o) n).

(** Everything of an object but its [__dict__]. *)
Definition static_eq (o o' : object) : Prop :=
  okind o = okind o' ∧ otype o = otype o' ∧ oname o = oname o' ∧
  omro o = omro o'.

(** Two heaps with the same objects, up to the contents of the dicts. *)
Definition same_shape (h h' : heap) : Prop :=
  ∀ c, option_Forall2 static_eq (h !! c) (h' !! c).

(** ... and whose dicts agree on the name [n]. *)
Definition same_at (n : string) (h h' : heap) : Prop :=
  same_shape h h' ∧ ∀ c, own h c n = own h' c n.

(** What access through the class does to a stored value
    ([v.__get__(None, cls)]). *)
Definition through_class (r : ref) (v : value) : value :=
  match v with
  | VStaticmethod f => f
  | VClassmethod f => VBound f (VRef r)
  | _ => v
  end.

(** A destination [r] is well placed when it is not an ancestor of its own
    type and, if it is a class, heads its own linearization: Python
    guarantees both for every object that can be assigned to. *)
Definition well_placed (h : heap) (r : ref) : Prop :=
  ∃ ob, h !! r = Some ob ∧ (r ∉ getmro h (otype ob)) ∧
        (okind ob = KClass → ∃ rest, omro ob = r :: rest).

(** The names the type of [r] leaves to the object's own dict. *)
Definition type_level (h : heap) (r : ref) (k : string) : option value :=
  h !! r ≫= (λ ob, mro_lookup h (getmro h (otype ob)) k).

Definition plain_on_type (h : heap) (r : ref) (k : string) : Prop :=
  ∀ d, type_level h r k = Some d → is_data_descr d = false.

(** The heap with [r]'s dict replaced by [D]. *)
Definition at_dict (h : heap) (r : ref) (ob : object) (D : dict) : heap :=
  <[r := with_dict ob D]> h.

(** The slot [(r, n)] is plain when the type of [r] has no data descriptor
    under the member name or under one of its marker names, so that reads
    and writes of these names are reads and writes of [r]'s own dict. *)
Definition slot_plain (h : heap) (r : ref) (n : string) : Prop :=
  plain_on_type h r n ∧
  plain_on_type h r (Monkey._CREATED n) ∧
  plain_on_type h r (Monkey._ORIGINAL_IDS n) ∧
  ∀ i, plain_on_type h r (Monkey._ORIGINAL_ITEM n i).

(** The two observations the spec calls CreatedFlag and OriginalSlot
    stack, as [revert] and [get_original_attribute] read them. *)
Definition created_flag (h : heap) (d : value) (n : string) : bool :=
  match getattr_default h d (Monkey._CREATED n) (VBool false) with
  | Ok flag => py_truth flag
  | Raise _ => false
  end.

Definition stack_tags (h : heap) (d : value) (n : string) : list value :=
  match getattr_default h d (Monkey._ORIGINAL_IDS n) (VTuple []) with
  | Ok ids => match py_iter ids with Ok l => l | Raise _ => [] end
  | Raise _ => []
  end.

(** The member of the slot [(r, n)] exists and its created flag is not
    set. *)
Definition existing (r : ref) (n : string) (h : heap) : Prop :=
  well_placed h r ∧
  (∃ V, Monkey.get_attribute h (VRef r) n = Ok V) ∧
  created_flag h (VRef r) n = false.

(** A call of the engine's two mutating entry points. *)
Inductive call : Type :=
| CallApply (p : Monkey.Patch) (id : string)
| CallRevert (p : Monkey.Patch).

Definition call_patch (c : call) : Monkey.Patch :=
  match c with CallApply p _ => p | CallRevert p => p end.

Definition do_call (c : call) : M unit :=
  match c with
  | CallApply p id => Monkey.apply p id
  | CallRevert p => Monkey.revert p
  end.

(** The calls one after the other; a caller that catches the exception of
    a failed call goes on from the heap as the call left it. *)
Fixpoint run_calls (cs : list call) (h : heap) : heap :=
  match cs with
  | [] => h
  | c :: cs' => run_calls cs' (do_call c h).2
  end.

(** The calls one after the other, stopping at the first that raises. *)
Fixpoint do_calls (cs : list call) : M unit :=
  match cs with
  | [] => mret ()
  | c :: cs' => do_call c;; do_calls cs'
  end.

(** [apply] calls on one slot with the given replacements and tags, and
    [revert] calls on that slot. *)
Definition apply_calls (d : value) (n : string) (stg : value)
    (ps : list (value * string)) : list call :=
  (λ p, CallApply (Monkey.mkPatch d n p.1 stg) p.2) <$> ps.

Definition revert_calls (d : value) (n : string) (stg : value)
    (rs : list value) : list call :=
  (λ v, CallRevert (Monkey.mkPatch d n v stg)) <$> rs.

(** What [revert] reads back from a stored item: [getattr] on a class
    takes the stored value through the descriptor protocol. *)
Definition read_back (ob : object) (r : ref) (v : value) : value :=
  if bool_decide (okind ob = KClass) then through_class r v else v.

Definition on_slot (d : value) (n : string) (c : call) : Prop :=
  Monkey.destination (call_patch c) = d ∧ Monkey.name (call_patch c) = n.

(** The spec's invariant on one slot: not both a set created flag and a
    non-empty stack. *)
Definition exclusive (h : heap) (d : value) (n : string) : bool :=
  negb (created_flag h d n && bool_decide (stack_tags h d n ≠ [])).

(** A triple: from a heap in [P], the computation ends in [Q] with its
    result, or raises leaving a heap in [E]. *)
Definition hoare {A} (P : heap → Prop) (m : M A) (Q : A → heap → Prop)
    (E : heap → Prop) : Prop :=
  ∀ h, P h → match m h with
             | (Ok a, h') => Q a h'
             | (Raise _, h') => E h'
             end.

(** The dict after a storing [apply], and after a popping [revert]. *)
Definition pushed (n : string) (D : dict) (l : list value) (target : value)
    (id : string) (v : value) : dict :=
  dict_set
    (dict_set (dict_set D (Monkey._ORIGINAL_ITEM n (length l)) target)
       (Monkey._ORIGINAL_IDS n) (VTuple (l ++ [VStr id])))
    n v.

Definition popped (n : string) (D : dict) (l : list value) (a : value) : dict :=
  dict_set
    (dict_del (dict_set D n a) (Monkey._ORIGINAL_ITEM n (length l)))
    (Monkey._ORIGINAL_IDS n) (VTuple l).

(** The lookup as the specification words it: the linearization without
    the two universal root bases, the first class that defines the name. *)
Definition resolve_as_specified (h : heap) (T : ref) (n : string) : res value :=
  match mro_lookup h
          (filter (λ c, c ≠ object_ref ∧ c ≠ type_ref) (getmro h T)) n with
  | Some v => Ok v
  | None => Raise AttributeError
  end.

(** The classes whose own members [_get_members] merges: the
    linearization without the two root bases. *)
Definition merged_roots (mro : list ref) : list ref :=
  filter (λ b, b ≠ type_ref ∧ b ≠ object_ref) mro.

(** A value that no decorator has touched: its base carries no decorator
    data. *)
Definition undecorated (depth : nat) (h : heap) (v : value) : Prop :=
  ∃ base, Monkey._get_base depth h v = Ok base ∧
          Monkey.get_decorator_data h base = Ok VNone.

(** A member that the default filter leaves out. *)
Definition private_member (depth : nat) (h : heap) (m : string * value) : Prop :=
  Monkey.startswith m.1 "_" = true ∧ undecorated depth h m.2.

(** A class whose members come from its own dict only, and whose public
    members are exactly the two given ones. *)
Definition exposes_two (depth : nat) (h : heap) (c : ref)
    (k1 : string) (v1 : value) (k2 : string) (v2 : value) : Prop :=
  ∃ ob, h !! c = Some ob ∧ okind ob = KClass ∧
        merged_roots (omro ob) = [c] ∧
        dict_get (odict ob) k1 = Some v1 ∧
        dict_get (odict ob) k2 = Some v2 ∧
        ∀ n v, dict_get (odict ob) n = Some v → n ≠ k1 → n ≠ k2 →
               private_member depth h (n, v).

(** A public member that is a plain value: no decorator data, neither a
    module nor a class. *)
Definition leaf_member (depth : nat) (h : heap) (v : value) : Prop :=
  undecorated depth h v ∧ is_module h v = false ∧ is_class h v = false.

(** The directory entries of a package's paths, in order. *)
Definition path_entries (env : Monkey.importer) (path : value)
  : list (string * bool) :=
  match path with VStr p => Monkey.iter_modules env p | _ => [] end.

Fixpoint all_entries (env : Monkey.importer) (paths : list value)
  : list (string * bool) :=
  match paths with
  | [] => []
  | path :: rest => path_entries env path ++ all_entries env rest
  end.

(** An entry (name, is_package) with the module it imports to. *)
Definition imports_to (env : Monkey.importer) (pname : string)
    (kid : (string * bool) * value) : Prop :=
  Monkey.import_module env (pname +:+ "." +:+ kid.1.1) = Some kid.2.

(** A child is yielded unless it is a package and [recursive] is off; it
    is pushed for a later visit when it is a package and [recursive] is on. *)
Definition yielded_kids (recursive : bool) (kids : list ((string * bool) * value))
  : list value :=
  (filter (λ kid, negb kid.1.2 || recursive = true) kids).*2.

Definition pushed_kids (recursive : bool) (kids : list ((string * bool) * value))
  : list value :=
  (filter (λ kid, kid.1.2 && recursive = true) kids).*2.

(** The top-level members of a module, as [_get_members] lists them
    first. *)
Definition toplevel_members (h : heap) (module : value) : list (string * value) :=
  Monkey.sorted
    (Monkey.collect_roots h Monkey._true (Monkey.member_roots h true module) [] []).

(** *** Vocabulary of the properties beyond the claims *)

(** The wrappers that [_get_base] unwraps, and a callable under a stack of
    them, the outermost first. *)
Inductive wrapper : Type :=
| WBound (self : value) | WStaticmethod | WClassmethod | WProperty.

Definition wrap_with (w : wrapper) (f : value) : value :=
  match w with
  | WBound self => VBound f self
  | WStaticmethod => VStaticmethod f
  | WClassmethod => VClassmethod f
  | WProperty => VProperty f
  end.

Definition wrapped (ws : list wrapper) (f : value) : value := foldr wrap_with f ws.

(** A value that [_get_base] returns as it is: it has no [__func__] and
    is no property. *)
Definition unwrapped (h : heap) (f : value) : Prop :=
  hasattr h f "__func__" = Ok false ∧ ∀ g, f ≠ VProperty g.

(** The decorator data that the builder and the discovery find for a
    value: that of its base. *)
Definition decorated_as (depth : nat) (h : heap) (v data : value) : Prop :=
  ∃ base, Monkey._get_base depth h v = Ok base ∧
          Monkey.get_decorator_data h base = Ok data.

(** No [filter] decorator was used (or [filter(None)]). *)
Definition no_filter_override (data : value) : Prop :=
  data = VNone ∨ ∃ patches override, data = VDecoratorData patches override VNone.

(** A member that [create_patches] skips when it uses the decorators: the
    filter rejects it and nothing forces it in, or [filter(False)] forces
    it out. *)
Definition left_out (depth : nat) (h : heap) (flt : Monkey.filter_fn)
    (m : string * value) : Prop :=
  ∃ data, decorated_as depth h m.2 data ∧
    ((no_filter_override data ∧ flt h m.1 m.2 = false) ∨
     ∃ patches override, data = VDecoratorData patches override (VBool false)).

(** The filter accepts the member. *)
Definition passes (h : heap) (flt : Monkey.filter_fn) (m : string * value) : Prop :=
  flt h m.1 m.2 = true.

Global Instance passes_dec h flt m : Decision (passes h flt m).
Proof. unfold passes. apply _. Defined.

(** What holds of every patch that [create_patches] emits without the
    decorators: the filter accepted the member, the destination is the one
    given or a class reached from it, and a class member is emitted (not
    descended into) only if the destination has no class under its name. *)
Definition emitted_ok (h : heap) (flt : Monkey.filter_fn) (recursive : bool)
    (D : value) (p : Monkey.Patch) : Prop :=
  flt h (Monkey.name p) (Monkey.obj p) = true ∧
  (Monkey.destination p = D ∨ is_class h (Monkey.destination p) = true) ∧
  (recursive = true → is_class h (Monkey.obj p) = true →
   ∀ target, Monkey.get_attribute h (Monkey.destination p) (Monkey.name p)
             = Ok target → is_class h target = false).

Definition pending_ok (h : heap) (D : value) (p : Monkey.Patch) : Prop :=
  Monkey.destination p = D ∨ is_class h (Monkey.destination p) = true.

(** The attribute names of the slot of a member [n]: the member and its
    three kinds of marker. *)
Definition slot_name (n k : string) : Prop :=
  k = n ∨ k = Monkey._CREATED n ∨ k = Monkey._ORIGINAL_IDS n ∨
  ∃ i, k = Monkey._ORIGINAL_ITEM n i.

(** From [h0] to [h] nothing changed but attributes of the slot [n] of
    the destination [d]. *)
Definition only_slot_changed (d : value) (n : string) (h0 h : heap) : Prop :=
  same_shape h0 h ∧
  ∀ c k, d ≠ VRef c ∨ ¬ slot_name n k → own h c k = own h0 c k.

(** Two members whose slots share no attribute name. *)
Definition disjoint_slots (n n' : string) : Prop :=
  ∀ k, slot_name n k → slot_name n' k → False.

Fixpoint pairwise_disjoint (ns : list string) : Prop :=
  match ns with
  | [] => True
  | n :: rest => Forall (disjoint_slots n) rest ∧ pairwise_disjoint rest
  end.

(** The object [f] keeps its decorator data itself: its type defines no
    attribute of that name, and if [f] is a class, what it has is a dict,
    or else none of its bases has one. *)
Definition owns_record (h : heap) (f : ref) (ob : object) : Prop :=
  h !! f = Some ob ∧
  (f ∉ getmro h (otype ob)) ∧
  type_level h f Monkey._DECORATOR_DATA = None ∧
  if bool_decide (okind ob = KClass) then
    ∃ rest, omro ob = f :: rest ∧
      match dict_get (odict ob) Monkey._DECORATOR_DATA with
      | Some entry => ∃ items, entry = VDict items
      | None => mro_lookup h rest Monkey._DECORATOR_DATA = None
      end
  else True.

(** What [get_decorator_data] finds for such an object, and what is to be
    stored for it to find [data']. *)
Definition current_record (f : ref) (ob : object) : value :=
  if bool_decide (okind ob = KClass) then
    match dict_get (odict ob) Monkey._DECORATOR_DATA with
    | Some (VDict items) => Monkey.setdefault_none items (VRef f)
    | _ => VNone
    end
  else default VNone (dict_get (odict ob) Monkey._DECORATOR_DATA).

Definition record_entry (ob : object) (f : ref) (data' : value) : value :=
  if bool_decide (okind ob = KClass) then
    match dict_get (odict ob) Monkey._DECORATOR_DATA with
    | Some (VDict items) => VDict (Decorators.vdict_set items f data')
    | _ => VDict [(VRef f, data')]
    end
  else data'.

(** The data a decorator works on: the one found, or a new one. *)
Definition or_new (data : value) : value :=
  if Monkey.is_None data then Decorators.DecoratorData else data.

(** From [h] to [h'] nothing changed but the decorator data attribute of
    [f]. *)
Definition only_record_changed (f : ref) (h h' : heap) : Prop :=
  same_shape h h' ∧
  ∀ c k, c ≠ f ∨ k ≠ Monkey._DECORATOR_DATA → own h' c k = own h c k.

(** The patches that a member adds to the result of [find_patches]: those
    recorded on its base, none if there is no record. *)
Definition contributes (depth : nat) (h : heap) (m : string * value)
    (ps : list value) : Prop :=
  ∃ data, decorated_as depth h m.2 data ∧
          ((data = VNone ∧ ps = []) ∨
           ∃ override flt, data = VDecoratorData ps override flt).

(** A patch of a member of one destination, with the value the member has
    before the patch is applied. *)
Record member_patch : Type := MemberPatch {
  mp_name : string;
  mp_obj : value;
  mp_settings : value;
  mp_original : value;
}.

Definition patch_for (r : ref) (e : member_patch) : value :=
  VPatch (VRef r) (mp_name e) (mp_obj e) (mp_settings e).

(** The member exists with its original value and nothing is stacked
    under it. *)
Definition ready (h : heap) (r : ref) (e : member_patch) : Prop :=
  slot_plain h r (mp_name e) ∧
  Monkey.get_attribute h (VRef r) (mp_name e) = Ok (mp_original e) ∧
  getattr_default h (VRef r) (Monkey._ORIGINAL_IDS (mp_name e)) (VTuple [])
    = Ok (VTuple []).

(** The member holds the replacement, and the original is what
    [get_original_attribute] returns for the default id. *)
Definition installed (h : heap) (r : ref) (ob : object) (e : member_patch) : Prop :=
  Monkey.get_attribute h (VRef r) (mp_name e) = Ok (mp_obj e) ∧
  Monkey.get_original_attribute h (VRef r) (mp_name e) "default"
    = Ok (read_back ob r (mp_original e)).

(** The primitives of the object model are unfolded by hand in proofs. *)
Global Arguments object_getattribute : simpl never.
Global Arguments type_getattribute : simpl never.
Global Arguments getattr : simpl never.
Global Arguments getattr_default : simpl never.
Global Arguments setattr : simpl never.
Global Arguments delattr : simpl never.
Global Arguments descr_get : simpl never.
Global Arguments has_kind : simpl never.
Global Arguments Monkey.get_attribute : simpl never.
Global Arguments Monkey.create_patches_member : simpl never.
Global Arguments Monkey.create_patches_loop : simpl never.
Global Arguments Monkey._get_members : simpl never.
Global Arguments Monkey.get_decorator_data : simpl never.
Global Arguments Monkey._get_base : simpl never.

(* ===================================================================== *)
(** ** Dictionaries and marker names                                      *)
(* ===================================================================== *)

Section dict_facts.
  Implicit Types (d : dict) (k : string) (v : value).

Lemma dict_get_set_eq d k v : dict_get (dict_set d k v) k = Some v.
  Proof.
    induction d as [|[k' v'] d IH]; simpl.
    - by rewrite decide_True.
    - destruct (decide (k' = k)) as [->|Hne]; simpl.
      + by rewrite decide_True.
      + by rewrite decide_False.
  Qed.

Lemma dict_get_set_ne d k k' v :
    k ≠ k' → dict_get (dict_set d k v) k' = dict_get d k'.
  Proof.
    intros Hne. induction d as [|[k0 v0] d IH]; simpl.
    - by rewrite decide_False.
    - destruct (decide (k0 = k)) as [->|Hne0]; simpl.
      + by rewrite !decide_False.
      + by rewrite IH.
  Qed.

Lemma dict_get_del_eq d k : dict_get (dict_del d k) k = None.
  Proof.
    induction d as [|[k' v'] d IH]; simpl; [done|].
    destruct (decide (k' = k)) as [->|Hne]; simpl; [done|].
    by rewrite decide_False.
  Qed.

Lemma dict_get_del_ne d k k' :
    k ≠ k' → dict_get (dict_del d k) k' = dict_get d k'.
  Proof.
    intros Hne. induction d as [|[k0 v0] d IH]; simpl; [done|].
    destruct (decide (k0 = k)) as [->|Hne0]; simpl.
    - by rewrite decide_False.
    - by rewrite IH.
  Qed.
End dict_facts.

Section marker_names.
  Import Monkey.

Lemma string_length_app (s t : string) :
    String.length (s +:+ t) = String.length s + String.length t.
  Proof. induction s as [|c s IH]; simpl; [done|]. by rewrite IH. Qed.

Lemma created_ne_name n : _CREATED n ≠ n.
  Proof.
    intros H. apply (f_equal String.length) in H.
    unfold _CREATED in H. rewrite string_length_app in H. simpl in H. lia.
  Qed.

Lemma ids_ne_name n : _ORIGINAL_IDS n ≠ n.
  Proof.
    intros H. apply (f_equal String.length) in H.
    unfold _ORIGINAL_IDS in H. rewrite string_length_app in H. simpl in H. lia.
  Qed.

Lemma item_ne_name n i : _ORIGINAL_ITEM n i ≠ n.
  Proof.
    intros H. apply (f_equal String.length) in H.
    unfold _ORIGINAL_ITEM in H. rewrite !string_length_app in H. simpl in H. lia.
  Qed.

  (** Two marker names of different families differ in their fixed prefix. *)
Local Ltac differ_in_prefix :=
    let H := fresh in intros H; injection H; intros; discriminate.

Lemma created_ne_ids n : _CREATED n ≠ _ORIGINAL_IDS n.
  Proof. unfold _CREATED, _ORIGINAL_IDS. differ_in_prefix. Qed.

Lemma created_ne_item n i : _CREATED n ≠ _ORIGINAL_ITEM n i.
  Proof. unfold _CREATED, _ORIGINAL_ITEM. differ_in_prefix. Qed.

Lemma ids_ne_item n i : _ORIGINAL_IDS n ≠ _ORIGINAL_ITEM n i.
  Proof. unfold _ORIGINAL_IDS, _ORIGINAL_ITEM. differ_in_prefix. Qed.

Lemma item_inj n i j : _ORIGINAL_ITEM n i = _ORIGINAL_ITEM n j → i = j.
  Proof.
    unfold _ORIGINAL_ITEM. intros H.
    do 3 apply (inj (String.app _)) in H.
    by apply (inj pretty) in H.
  Qed.

Lemma item_ne n i j : i ≠ j → _ORIGINAL_ITEM n i ≠ _ORIGINAL_ITEM n j.
  Proof. intros Hne H. by apply Hne, (item_inj n). Qed.
End marker_names.

Create HintDb names.
Global Hint Resolve created_ne_name ids_ne_name item_ne_name created_ne_ids
  created_ne_item ids_ne_item item_ne : names.

(* ===================================================================== *)
(** ** Reads depend on one name only                                      *)
(* ===================================================================== *)

Section same_at.
  Import Monkey.
  Implicit Types (h : heap) (n : string) (o v : value).

Global Instance static_eq_equiv : Equivalence static_eq.
  Proof.
    split.
    - by intros o.
    - intros o o' (?&?&?&?). by repeat split.
    - intros o1 o2 o3 (?&?&?&?) (?&?&?&?). repeat split; congruence.
  Qed.

Global Instance same_shape_equiv : Equivalence same_shape.
  Proof.
    split.
    - intros h c. by destruct (h !! c); constructor.
    - intros h h' H c. specialize (H c). by destruct H; constructor.
    - intros h1 h2 h3 H12 H23 c. specialize (H12 c). specialize (H23 c).
      destruct H12; inversion H23; simplify_eq; constructor. by etrans.
  Qed.

Global Instance same_at_equiv n : Equivalence (same_at n).
  Proof.
    split.
    - by intros h.
    - intros h h' [? ?]. by split.
    - intros h1 h2 h3 [? H12] [? H23]. split; [by etrans|].
      intros c. by rewrite H12.
  Qed.

Lemma same_shape_getmro h h' c : same_shape h h' → getmro h c = getmro h' c.
  Proof.
    intros H. unfold getmro. specialize (H c).
    destruct H as [? ? (?&?&?&?)|]; done.
  Qed.

Lemma same_shape_has_kind h h' k v :
    same_shape h h' → has_kind h k v = has_kind h' k v.
  Proof.
    intros H. unfold has_kind. destruct v; try done.
    specialize (H r). destruct H as [? ? (->&?&?&?)|]; done.
  Qed.

Lemma same_shape_is_class h h' v :
    same_shape h h' → is_class h v = is_class h' v.
  Proof. apply same_shape_has_kind. Qed.

Lemma same_shape_descr_get h h' d inst owner :
    same_shape h h' → descr_get h d inst owner = descr_get h' d inst owner.
  Proof.
    intros H. unfold descr_get. destruct d; try done.
    - by rewrite (same_shape_has_kind h h').
    - destruct inst as [[]|]; try done.
      specialize (H r). by destruct H as [? ? (?&?&->&?)|].
  Qed.

Lemma same_at_mro_lookup n h h' cs :
    same_at n h h' → mro_lookup h cs n = mro_lookup h' cs n.
  Proof.
    intros [_ H]. induction cs as [|c cs IH]; simpl; [done|].
    specialize (H c). unfold own in H. by rewrite H, IH.
  Qed.

Lemma same_at_object_getattribute n h h' o :
    same_at n h h' → object_getattribute h o n = object_getattribute h' o n.
  Proof.
    intros Hs. unfold object_getattribute. destruct o; try done.
    pose proof Hs as [Hsh Hown].
    pose proof (Hown r) as Hr. unfold own in Hr.
    pose proof (Hsh r) as Hshr.
    destruct Hshr as [ob ob' (?&Ht&?&?)|]; [|done].
    simpl in Hr. rewrite Hr, Ht.
    rewrite (same_shape_getmro h h') by done.
    rewrite (same_at_mro_lookup n h h') by done.
    destruct (mro_lookup _ _ _) as [d|]; [|done].
    rewrite (same_shape_descr_get h h') by done. done.
  Qed.

Lemma same_at_type_getattribute n h h' r :
    same_at n h h' → type_getattribute h r n = type_getattribute h' r n.
  Proof.
    intros Hs. unfold type_getattribute.
    pose proof Hs as [Hsh Hown].
    pose proof (Hsh r) as Hshr.
    destruct Hshr as [ob ob' (?&Ht&?&Hm)|]; [|done].
    rewrite Ht, Hm.
    rewrite (same_shape_getmro h h') by done.
    rewrite !(same_at_mro_lookup n h h') by done.
    repeat case_match; try done; by apply same_shape_descr_get.
  Qed.

Lemma same_at_getattr n h h' o :
    same_at n h h' → getattr h o n = getattr h' o n.
  Proof.
    intros Hs. unfold getattr.
    destruct o; try by apply same_at_object_getattribute.
    rewrite (same_shape_is_class h h') by apply Hs.
    destruct (is_class _ _).
    - by apply same_at_type_getattribute.
    - by apply same_at_object_getattribute.
  Qed.

Lemma same_at_getattr_default n h h' o dflt :
    same_at n h h' → getattr_default h o n dflt = getattr_default h' o n dflt.
  Proof. intros Hs. unfold getattr_default. by rewrite (same_at_getattr n h h'). Qed.

Lemma same_at_get_attribute_loop n h h' objs :
    same_at n h h' → get_attribute_loop h objs n = get_attribute_loop h' objs n.
  Proof.
    intros Hs. induction objs as [|o objs IH]; simpl; [done|].
    by rewrite (same_at_object_getattribute n h h'), IH.
  Qed.

Lemma same_at_get_attribute n h h' o :
    same_at n h h' → get_attribute h o n = get_attribute h' o n.
  Proof.
    intros Hs. unfold get_attribute.
    rewrite (same_at_get_attribute_loop n h h') by done.
    destruct o; try done.
    rewrite (same_shape_is_class h h') by apply Hs.
    by rewrite (same_shape_getmro h h') by apply Hs.
  Qed.
End same_at.

(* ===================================================================== *)
(** ** One destination, its dict varying                                  *)
(* ===================================================================== *)

Lemma descr_get_through_class h v r :
  descr_get h v None r = Ok (through_class r v).
Proof. unfold descr_get. destruct v; simpl; try done. by repeat case_match. Qed.

Section destination.
  Import Monkey.
  Context (h : heap) (r : ref) (ob : object).
  Hypothesis Hr : h !! r = Some ob.
  Hypothesis Hmeta : r ∉ getmro h (otype ob).
  Hypothesis Hhead : okind ob = KClass → ∃ rest, omro ob = r :: rest.
  #[local] Set Default Proof Using "Hr Hmeta Hhead".

Lemma at_dict_id : at_dict h r ob (odict ob) = h.
  Proof. unfold at_dict. apply insert_id. rewrite Hr. by destruct ob. Qed.

Lemma at_dict_lookup D : at_dict h r ob D !! r = Some (with_dict ob D).
  Proof. apply lookup_insert_eq. Qed.

Lemma at_dict_twice D D' :
    <[r := with_dict (with_dict ob D) D']> (at_dict h r ob D) = at_dict h r ob D'.
  Proof. unfold at_dict. by rewrite insert_insert_eq. Qed.

Lemma at_dict_shape D : same_shape h (at_dict h r ob D).
  Proof.
    intros c. unfold at_dict. destruct (decide (c = r)) as [->|Hne].
    - rewrite lookup_insert_eq, Hr. by constructor.
    - rewrite lookup_insert_ne by done. by destruct (h !! c); constructor.
  Qed.

Lemma at_dict_own D c k :
    own (at_dict h r ob D) c k = if decide (c = r) then dict_get D k else own h c k.
  Proof.
    unfold own, at_dict. destruct (decide (c = r)) as [->|Hne].
    - by rewrite lookup_insert_eq.
    - by rewrite lookup_insert_ne.
  Qed.

Lemma at_dict_same_at D D' k :
    dict_get D k = dict_get D' k → same_at k (at_dict h r ob D) (at_dict h r ob D').
  Proof.
    intros HD. split.
    - etrans; [symmetry|]; apply at_dict_shape.
    - intros c. rewrite !at_dict_own. by destruct (decide _).
  Qed.

Lemma at_dict_same_at_orig D k :
    dict_get D k = dict_get (odict ob) k → same_at k (at_dict h r ob D) h.
  Proof.
    intros HD. pose proof (at_dict_same_at D (odict ob) k HD) as H.
    by rewrite at_dict_id in H.
  Qed.

Lemma at_dict_getmro D c : getmro (at_dict h r ob D) c = getmro h c.
  Proof. symmetry. apply same_shape_getmro, at_dict_shape. Qed.

Lemma at_dict_is_class D v : is_class (at_dict h r ob D) v = is_class h v.
  Proof. symmetry. apply same_shape_is_class, at_dict_shape. Qed.

Lemma at_dict_mro_lookup D cs k :
    r ∉ cs → mro_lookup (at_dict h r ob D) cs k = mro_lookup h cs k.
  Proof.
    induction cs as [|c cs IH]; simpl; [done|].
    intros [Hc Hcs]%not_elem_of_cons.
    unfold at_dict at 1. rewrite lookup_insert_ne by done. by rewrite IH.
  Qed.

Lemma at_dict_meta D k :
    mro_lookup (at_dict h r ob D) (getmro (at_dict h r ob D) (otype (with_dict ob D))) k
    = type_level h r k.
  Proof.
    unfold type_level. rewrite Hr. simpl.
    rewrite at_dict_getmro. by apply at_dict_mro_lookup.
  Qed.

Lemma at_dict_type_level D k : type_level (at_dict h r ob D) r k = type_level h r k.
  Proof.
    unfold type_level at 1. rewrite at_dict_lookup. simpl. apply at_dict_meta.
  Qed.

Lemma at_dict_plain_on_type D k :
    plain_on_type (at_dict h r ob D) r k ↔ plain_on_type h r k.
  Proof. unfold plain_on_type. by rewrite at_dict_type_level. Qed.

Lemma at_dict_well_placed D : well_placed (at_dict h r ob D) r.
  Proof.
    exists (with_dict ob D). rewrite at_dict_lookup, at_dict_getmro. done.
  Qed.

  (** Writing. *)
Lemma setattr_at D k v :
    plain_on_type h r k →
    setattr (VRef r) k v (at_dict h r ob D) = (Ok (), at_dict h r ob (dict_set D k v)).
  Proof.
    intros Hk. unfold setattr. rewrite at_dict_lookup.
    rewrite at_dict_meta.
    specialize (Hk). unfold plain_on_type in Hk.
    destruct (type_level h r k) as [d|] eqn:E.
    - rewrite (Hk d) by done. simpl. by rewrite at_dict_twice.
    - simpl. by rewrite at_dict_twice.
  Qed.

Lemma delattr_at D k v :
    plain_on_type h r k → dict_get D k = Some v →
    delattr (VRef r) k (at_dict h r ob D) = (Ok (), at_dict h r ob (dict_del D k)).
  Proof.
    intros Hk HD. unfold delattr. rewrite at_dict_lookup.
    rewrite at_dict_meta.
    simpl. rewrite HD, at_dict_twice.
    destruct (type_level h r k) as [d|] eqn:E; [|done].
    by rewrite (Hk d).
  Qed.

Lemma delattr_at_missing D k :
    plain_on_type h r k → dict_get D k = None →
    delattr (VRef r) k (at_dict h r ob D) = (Raise AttributeError, at_dict h r ob D).
  Proof.
    intros Hk HD. unfold delattr. rewrite at_dict_lookup.
    rewrite at_dict_meta.
    simpl. rewrite HD.
    destruct (type_level h r k) as [d|] eqn:E; [|done].
    by rewrite (Hk d).
  Qed.

  (** Reading back what the own dict holds. *)
Lemma object_getattribute_at_own D k v :
    plain_on_type h r k → dict_get D k = Some v →
    object_getattribute (at_dict h r ob D) (VRef r) k = Ok v.
  Proof.
    intros Hk HD. unfold object_getattribute. rewrite at_dict_lookup.
    rewrite at_dict_meta.
    simpl. rewrite HD.
    destruct (type_level h r k) as [d|] eqn:E; [|done].
    by rewrite (Hk d).
  Qed.

Lemma get_attribute_at_own D k v :
    plain_on_type h r k → dict_get D k = Some v →
    get_attribute (at_dict h r ob D) (VRef r) k = Ok v.
  Proof.
    intros Hk HD. unfold get_attribute.
    rewrite at_dict_is_class, at_dict_getmro.
    unfold is_class, has_kind, getmro. rewrite Hr.
    case_bool_decide as Hc.
    - destruct (Hhead Hc) as [rest ->]. simpl.
      by rewrite (object_getattribute_at_own D k v).
    - simpl. by rewrite (object_getattribute_at_own D k v).
  Qed.

Lemma getattr_at_own D k v :
    plain_on_type h r k → dict_get D k = Some v →
    getattr (at_dict h r ob D) (VRef r) k =
      Ok (if bool_decide (okind ob = KClass) then through_class r v else v).
  Proof.
    intros Hk HD. unfold getattr.
    rewrite at_dict_is_class. unfold is_class, has_kind. rewrite Hr.
    case_bool_decide as Hc.
    - unfold type_getattribute. rewrite at_dict_lookup.
      rewrite at_dict_meta.
      destruct (Hhead Hc) as [rest Hmro]. simpl. rewrite Hmro. simpl.
      unfold at_dict at 2. rewrite lookup_insert_eq. simpl. rewrite HD.
      rewrite descr_get_through_class.
      destruct (type_level h r k) as [d|] eqn:E; [|done].
      by rewrite (Hk d).
    - by apply object_getattribute_at_own.
  Qed.
End destination.

(* ===================================================================== *)
(** ** apply and revert, step by step                                     *)
(* ===================================================================== *)

(** Unfolding one monadic step. *)
Ltac run :=
  unfold mbind, M_mbind, res_mbind, bind, res_bind, read, try, raise,
    mret, M_mret, ret; simpl.

Section slot.
  Import Monkey.
  Context (h : heap) (r : ref) (ob : object) (n : string).
  Hypothesis Hr : h !! r = Some ob.
  Hypothesis Hmeta : r ∉ getmro h (otype ob).
  Hypothesis Hhead : okind ob = KClass → ∃ rest, omro ob = r :: rest.
  Hypothesis Hplain : slot_plain h r n.
  #[local] Set Default Proof Using "Hr Hmeta Hhead Hplain".

  Local Notation "'at' D" := (at_dict h r ob D) (at level 10, D at level 9).
  Local Abbreviation d := (VRef r).

  (** The creating branch of [apply]. *)
Lemma apply_creates D v stg id :
    get_attribute (at D) d n = Raise AttributeError →
    apply (mkPatch d n v stg) id (at D)
    = (Ok (), at (dict_set (dict_set D (_CREATED n) (VBool true)) n v)).
  Proof.
    destruct Hplain as (Hn & Hc & _).
    intros Hget. unfold apply. run. rewrite Hget.
    rewrite (setattr_at h r ob) by done.
    by rewrite (setattr_at h r ob).
  Qed.

  (** The storing branch of [apply]. *)
Lemma apply_stores D v stg id target l :
    get_attribute (at D) d n = Ok target →
    getattr_default (at D) d (_ORIGINAL_IDS n) (VTuple []) = Ok (VTuple l) →
    apply (mkPatch d n v stg) id (at D)
    = (Ok (), at (dict_set
                   (dict_set
                      (dict_set D (_ORIGINAL_ITEM n (length l)) target)
                      (_ORIGINAL_IDS n) (VTuple (l ++ [VStr id])))
                   n v)).
  Proof.
    destruct Hplain as (Hn & _ & Hi & Hit).
    intros Hget Hids. unfold apply. run. rewrite Hget, Hids. simpl.
    rewrite (setattr_at h r ob) by done.
    rewrite (setattr_at h r ob) by done.
    by rewrite (setattr_at h r ob).
  Qed.

  (** [revert] on a slot whose created flag reads true. *)
Lemma revert_deletes D v stg flag x :
    getattr_default (at D) d (_CREATED n) (VBool false) = Ok flag →
    py_truth flag = true →
    dict_get D n = Some x →
    revert (mkPatch d n v stg) (at D) = (Ok (), at (dict_del D n)).
  Proof.
    destruct Hplain as (Hn & _).
    intros Hflag Ht HD. unfold revert. run. rewrite Hflag, Ht.
    by erewrite (delattr_at h r ob) by eauto.
  Qed.

Lemma revert_deletes_missing D v stg flag :
    getattr_default (at D) d (_CREATED n) (VBool false) = Ok flag →
    py_truth flag = true →
    dict_get D n = None →
    revert (mkPatch d n v stg) (at D) = (Raise AttributeError, at D).
  Proof.
    destruct Hplain as (Hn & _).
    intros Hflag Ht HD. unfold revert. run. rewrite Hflag, Ht.
    by rewrite (delattr_at_missing h r ob).
  Qed.

  (** [revert] popping the top of the stack. *)
Lemma revert_pops D v stg flag l top a x :
    getattr_default (at D) d (_CREATED n) (VBool false) = Ok flag →
    py_truth flag = false →
    getattr (at D) d (_ORIGINAL_IDS n) = Ok (VTuple (l ++ [top])) →
    getattr (at D) d (_ORIGINAL_ITEM n (length l)) = Ok a →
    dict_get D (_ORIGINAL_ITEM n (length l)) = Some x →
    revert (mkPatch d n v stg) (at D)
    = (Ok (), at (dict_set
                   (dict_del (dict_set D n a) (_ORIGINAL_ITEM n (length l)))
                   (_ORIGINAL_IDS n) (VTuple l))).
  Proof.
    destruct Hplain as (Hn & _ & Hi & Hit).
    intros Hflag Ht Hids Hitem HD. unfold revert. run.
    rewrite Hflag, Ht, Hids.
    assert (py_truth (VTuple (l ++ [top])) = true) as ->.
    { apply bool_decide_eq_true. by destruct l. }
    unfold py_len, py_init. rewrite length_app. simpl.
    replace (length l + 1 - 1) with (length l) by lia.
    rewrite Hitem.
    rewrite (setattr_at h r ob) by done.
    erewrite (delattr_at h r ob); [|done..|].
    2:{ rewrite dict_get_set_ne; [done|]. apply not_eq_sym, item_ne_name. }
    rewrite (setattr_at h r ob) by done.
    by rewrite take_app_length.
  Qed.
End slot.

(** [revert] with no created flag and nothing stored: no write happens, and
    the exception is the [RuntimeError] only if the message can be
    formatted, that is if the destination has a [__name__]. *)
Lemma revert_nothing_stored h (p : Monkey.Patch) flag :
  getattr_default h (Monkey.destination p) (Monkey._CREATED (Monkey.name p))
    (VBool false) = Ok flag →
  py_truth flag = false →
  (getattr h (Monkey.destination p) (Monkey._ORIGINAL_IDS (Monkey.name p))
     = Raise AttributeError ∨
   ∃ ids, getattr h (Monkey.destination p) (Monkey._ORIGINAL_IDS (Monkey.name p))
            = Ok ids ∧ py_truth ids = false) →
  Monkey.revert p h
  = (match getattr h (Monkey.destination p) "__name__" with
     | Ok _ => Raise RuntimeError
     | Raise e => Raise e
     end, h).
Proof.
  intros Hflag Ht Hids. unfold Monkey.revert. run. rewrite Hflag, Ht.
  destruct Hids as [->|(ids & -> & ->)];
    by destruct (getattr h _ "__name__").
Qed.

(** A member that [get_attribute] does not find is not in the own dict,
    and nothing on the type stands for it. *)
Lemma absent_not_own h r n :
  well_placed h r →
  Monkey.get_attribute h (VRef r) n = Raise AttributeError →
  own h r n = None ∧ type_level h r n = None.
Proof.
  intros (ob & Hr & _ & Hhead) Hget.
  assert (object_getattribute h (VRef r) n = Raise AttributeError) as Hraw.
  { unfold Monkey.get_attribute, is_class, has_kind, getmro in Hget.
    rewrite Hr in Hget. case_bool_decide as Hc.
    - destruct (Hhead Hc) as [rest Hmro]. rewrite Hmro in Hget. simpl in Hget.
      by repeat case_match.
    - simpl in Hget. by repeat case_match. }
  unfold own, type_level. rewrite Hr. simpl.
  unfold object_getattribute in Hraw. rewrite Hr in Hraw.
  unfold descr_get in Hraw.
  repeat case_match; simplify_eq; done.
Qed.

(** Side conditions on marker names, and reads of an updated dict. *)
Ltac names := solve [auto with names | apply not_eq_sym; auto with names].
Ltac dict_simpl :=
  repeat first
    [ rewrite dict_get_set_eq
    | rewrite dict_get_del_eq
    | rewrite dict_get_set_ne by names
    | rewrite dict_get_del_ne by names ].

Section slot_reads.
  Import Monkey.
  Context (h : heap) (r : ref) (ob : object) (n : string).
  Hypothesis Hr : h !! r = Some ob.
  Hypothesis Hmeta : r ∉ getmro h (otype ob).
  Hypothesis Hhead : okind ob = KClass → ∃ rest, omro ob = r :: rest.
  Hypothesis Hplain : slot_plain h r n.
  #[local] Set Default Proof Using "Hr Hmeta Hhead Hplain".

Lemma created_flag_at_own D b :
    dict_get D (_CREATED n) = Some (VBool b) →
    created_flag (at_dict h r ob D) (VRef r) n = b.
  Proof.
    destruct Hplain as (_ & Hc & _). intros HD.
    unfold created_flag, getattr_default.
    erewrite (getattr_at_own h r ob) by done. by case_bool_decide.
  Qed.

Lemma created_flag_at_orig D :
    dict_get D (_CREATED n) = dict_get (odict ob) (_CREATED n) →
    created_flag (at_dict h r ob D) (VRef r) n = created_flag h (VRef r) n.
  Proof.
    intros HD. unfold created_flag.
    by rewrite (same_at_getattr_default _ _ h)
      by by apply at_dict_same_at_orig.
  Qed.

Lemma stack_ids_at_own D l :
    dict_get D (_ORIGINAL_IDS n) = Some (VTuple l) →
    getattr (at_dict h r ob D) (VRef r) (_ORIGINAL_IDS n) = Ok (VTuple l).
  Proof.
    destruct Hplain as (_ & _ & Hi & _). intros HD.
    erewrite (getattr_at_own h r ob) by done. by case_bool_decide.
  Qed.

Lemma revert_when_created D v stg :
    created_flag (at_dict h r ob D) (VRef r) n = true →
    revert (mkPatch (VRef r) n v stg) (at_dict h r ob D)
    = match dict_get D n with
      | Some _ => (Ok (), at_dict h r ob (dict_del D n))
      | None => (Raise AttributeError, at_dict h r ob D)
      end.
  Proof.
    unfold created_flag. intros Hf.
    destruct (getattr_default _ _ _ _) as [flag|] eqn:Hflag; [|done].
    destruct (dict_get D n) eqn:HD.
    - by eapply revert_deletes.
    - by eapply revert_deletes_missing.
  Qed.
End slot_reads.

Section created_slot.
  Import Monkey.
  Context (h : heap) (r : ref) (n : string).
  Hypothesis Hwp : well_placed h r.
  Hypothesis Hplain : slot_plain h r n.
  Hypothesis Habsent : get_attribute h (VRef r) n = Raise AttributeError.

  (** After the creating [apply]: the member holds the replacement and the
      flag is set.  After the [revert]: the member is gone, the flag is
      still set. *)
Lemma create_then_revert v stg id :
    let p := mkPatch (VRef r) n v stg in
    ∃ h1 h2,
      apply p id h = (Ok (), h1) ∧
      get_attribute h1 (VRef r) n = Ok v ∧
      created_flag h1 (VRef r) n = true ∧
      revert p h1 = (Ok (), h2) ∧
      get_attribute h2 (VRef r) n = Raise AttributeError ∧
      created_flag h2 (VRef r) n = true ∧
      same_at n h h2.
  Proof.
    intros p. destruct Hwp as (ob & Hr & Hmeta & Hhead).
    destruct (absent_not_own h r n Hwp Habsent) as [Hown _].
    unfold own in Hown. rewrite Hr in Hown. simpl in Hown.
    pose proof Hplain as (Hn & Hc & _).
    set (D1 := dict_set (dict_set (odict ob) (_CREATED n) (VBool true)) n v).
    assert (created_flag (at_dict h r ob D1) (VRef r) n = true) as Hf1.
    { unfold created_flag, getattr_default.
      erewrite (getattr_at_own h r ob); [|done..|].
      2:{ unfold D1. rewrite dict_get_set_ne by auto with names.
          apply dict_get_set_eq. }
      by case_bool_decide. }
    assert (created_flag (at_dict h r ob (dict_del D1 n)) (VRef r) n = true)
      as Hf2.
    { unfold created_flag, getattr_default.
      erewrite (getattr_at_own h r ob); [|done..|].
      2:{ unfold D1. rewrite dict_get_del_ne by (apply not_eq_sym; auto with names).
          rewrite dict_get_set_ne by auto with names.
          apply dict_get_set_eq. }
      by case_bool_decide. }
    assert (same_at n h (at_dict h r ob (dict_del D1 n))) as Hsame.
    { symmetry. apply at_dict_same_at_orig; [done..|].
      by rewrite dict_get_del_eq. }
    exists (at_dict h r ob D1), (at_dict h r ob (dict_del D1 n)).
    split_and!; try done.
    - pose proof (apply_creates h r ob n Hr Hmeta Hhead Hplain
                    (odict ob) v stg id) as Ha.
      rewrite (at_dict_id h r ob Hr Hmeta Hhead) in Ha. by apply Ha.
    - apply get_attribute_at_own; try done. apply dict_get_set_eq.
    - unfold created_flag in Hf1.
      destruct (getattr_default _ _ _ _) as [flag|] eqn:Hflag; [|done].
      eapply revert_deletes; try done. apply dict_get_set_eq.
    - by rewrite <-(same_at_get_attribute n h).
  Qed.
End created_slot.

Section created_then_stacked.
  Import Monkey.
  Context (h : heap) (r : ref) (n : string) (l : list value).
  Hypothesis Hwp : well_placed h r.
  Hypothesis Hplain : slot_plain h r n.
  Hypothesis Habsent : get_attribute h (VRef r) n = Raise AttributeError.
  Hypothesis Hids :
    getattr_default h (VRef r) (_ORIGINAL_IDS n) (VTuple []) = Ok (VTuple l).

  (** A second [apply] on a created slot stacks the first replacement;
      the first [revert] then deletes the member instead of restoring that
      layer, and the second [revert] fails in [delattr]. *)
Lemma create_stack_revert_revert v1 v2 stg id1 id2 :
    let p1 := mkPatch (VRef r) n v1 stg in
    let p2 := mkPatch (VRef r) n v2 stg in
    ∃ h1 h2 h3,
      apply p1 id1 h = (Ok (), h1) ∧
      apply p2 id2 h1 = (Ok (), h2) ∧
      created_flag h2 (VRef r) n = true ∧
      stack_tags h2 (VRef r) n = l ++ [VStr id2] ∧
      revert p2 h2 = (Ok (), h3) ∧
      get_attribute h3 (VRef r) n = Raise AttributeError ∧
      revert p1 h3 = (Raise AttributeError, h3).
  Proof.
    intros p1 p2. pose proof Hwp as (ob & Hr & Hmeta & Hhead).
    destruct (absent_not_own h r n Hwp Habsent) as [Hown _].
    unfold own in Hown. rewrite Hr in Hown. simpl in Hown.
    set (D1 := dict_set (dict_set (odict ob) (_CREATED n) (VBool true)) n v1).
    set (D2 := dict_set
                 (dict_set (dict_set D1 (_ORIGINAL_ITEM n (length l)) v1)
                    (_ORIGINAL_IDS n) (VTuple (l ++ [VStr id2]))) n v2).
    exists (at_dict h r ob D1), (at_dict h r ob D2),
           (at_dict h r ob (dict_del D2 n)).
    split_and!.
    - pose proof (apply_creates h r ob n Hr Hmeta Hhead Hplain
                    (odict ob) v1 stg id1) as Ha.
      rewrite (at_dict_id h r ob Hr Hmeta Hhead) in Ha. by apply Ha.
    - apply apply_stores; try done.
      + apply get_attribute_at_own; try done; [apply Hplain|].
        unfold D1. by dict_simpl.
      + rewrite <-Hids. apply same_at_getattr_default.
        apply at_dict_same_at_orig; try done. unfold D1. by dict_simpl.
    - apply created_flag_at_own; try done. unfold D2, D1. by dict_simpl.
    - unfold stack_tags, getattr_default.
      erewrite (stack_ids_at_own h r ob n) by (try done; unfold D2; by dict_simpl).
      done.
    - unfold p2. rewrite revert_when_created; try done.
      + unfold D2. by dict_simpl.
      + apply created_flag_at_own; try done. unfold D2, D1. by dict_simpl.
    - rewrite <-Habsent. apply same_at_get_attribute.
      apply at_dict_same_at_orig; try done. by dict_simpl.
    - unfold p1. rewrite revert_when_created; try done.
      + by dict_simpl.
      + apply created_flag_at_own; try done. unfold D2, D1. by dict_simpl.
  Qed.
End created_then_stacked.

(* ===================================================================== *)
(** ** Created slots: C2 and C1                                           *)
(* ===================================================================== *)

(** C2.  On a slot whose member is absent, [apply] creates the member and
    sets the created flag; the single [revert] that follows deletes the
    member, so that [get_attribute] fails with [AttributeError] again.  The
    flag is not cleared: after the [revert] it still reads true. *)
Theorem revert_created_deletes_member_keeps_flag
    (h : heap) (r : ref) (n : string) (v stg : value) (id : string) :
  well_placed h r →
  slot_plain h r n →
  Monkey.get_attribute h (VRef r) n = Raise AttributeError →
  ∃ h1 h2,
    Monkey.apply (Monkey.mkPatch (VRef r) n v stg) id h = (Ok (), h1) ∧
    Monkey.get_attribute h1 (VRef r) n = Ok v ∧
    created_flag h1 (VRef r) n = true ∧
    Monkey.revert (Monkey.mkPatch (VRef r) n v stg) h1 = (Ok (), h2) ∧
    Monkey.get_attribute h2 (VRef r) n = Raise AttributeError ∧
    created_flag h2 (VRef r) n = true.
Proof.
  intros Hwp Hplain Habsent.
  destruct (create_then_revert h r n Hwp Hplain Habsent v stg id)
    as (h1 & h2 & ? & ? & ? & ? & ? & ? & _).
  by exists h1, h2.
Qed.

(** The slot [(Fan, "speed")] of the concrete world is a slot as the
    theorems want it. *)
Lemma world_Fan_well_placed : well_placed World.world World.Fan.
Proof.
  eexists. split_and!; [reflexivity| |].
  - change (World.Fan ∉ [type_ref; object_ref]).
    rewrite !not_elem_of_cons. split_and!; [discriminate..|apply not_elem_of_nil].
  - intros _. by eexists.
Defined.

Lemma world_Fan_plain (n : string) :
  type_level World.world World.Fan n = None → slot_plain World.world World.Fan n.
Proof.
  intros Hn. split_and!.
  - intros d. rewrite Hn. discriminate.
  - intros d. vm_compute. discriminate.
  - intros d. vm_compute. discriminate.
  - intros i d. vm_compute. discriminate.
Defined.

Lemma revert_created_deletes_member_keeps_flag_witness :
  ∃ h1 h2,
    Monkey.apply (Monkey.mkPatch (VRef World.Fan) "speed" (VInt 5) VNone)
      "default" World.world = (Ok (), h1) ∧
    Monkey.get_attribute h1 (VRef World.Fan) "speed" = Ok (VInt 5) ∧
    created_flag h1 (VRef World.Fan) "speed" = true ∧
    Monkey.revert (Monkey.mkPatch (VRef World.Fan) "speed" (VInt 5) VNone) h1
      = (Ok (), h2) ∧
    Monkey.get_attribute h2 (VRef World.Fan) "speed" = Raise AttributeError ∧
    created_flag h2 (VRef World.Fan) "speed" = true.
Proof.
  apply (revert_created_deletes_member_keeps_flag
           World.world World.Fan "speed" (VInt 5) VNone "default").
  - exact world_Fan_well_placed.
  - apply world_Fan_plain. reflexivity.
  - reflexivity.
Defined.

(** C1, on the failing input.  Two applies on a slot that was absent
    followed by two reverts: after the second apply the stack holds one
    entry and the created flag is set; the first revert deletes the member
    (the stacked layer is not restored), and the second revert raises
    [AttributeError] out of [delattr]. *)
Theorem two_applies_two_reverts_on_created_slot
    (h : heap) (r : ref) (n : string) (l : list value)
    (v1 v2 stg : value) (id1 id2 : string) :
  well_placed h r →
  slot_plain h r n →
  Monkey.get_attribute h (VRef r) n = Raise AttributeError →
  getattr_default h (VRef r) (Monkey._ORIGINAL_IDS n) (VTuple []) = Ok (VTuple l) →
  ∃ h1 h2 h3,
    Monkey.apply (Monkey.mkPatch (VRef r) n v1 stg) id1 h = (Ok (), h1) ∧
    Monkey.apply (Monkey.mkPatch (VRef r) n v2 stg) id2 h1 = (Ok (), h2) ∧
    created_flag h2 (VRef r) n = true ∧
    stack_tags h2 (VRef r) n = l ++ [VStr id2] ∧
    Monkey.revert (Monkey.mkPatch (VRef r) n v2 stg) h2 = (Ok (), h3) ∧
    Monkey.get_attribute h3 (VRef r) n = Raise AttributeError ∧
    Monkey.revert (Monkey.mkPatch (VRef r) n v1 stg) h3
      = (Raise AttributeError, h3).
Proof.
  intros Hwp Hplain Habsent Hids.
  apply (create_stack_revert_revert h r n l Hwp Hplain Habsent Hids).
Qed.

Lemma two_applies_two_reverts_on_created_slot_witness :
  ∃ h1 h2 h3,
    Monkey.apply (Monkey.mkPatch (VRef World.Fan) "speed" (VInt 5) VNone)
      "default" World.world = (Ok (), h1) ∧
    Monkey.apply (Monkey.mkPatch (VRef World.Fan) "speed" (VInt 6) VNone)
      "default" h1 = (Ok (), h2) ∧
    created_flag h2 (VRef World.Fan) "speed" = true ∧
    stack_tags h2 (VRef World.Fan) "speed" = [] ++ [VStr "default"] ∧
    Monkey.revert (Monkey.mkPatch (VRef World.Fan) "speed" (VInt 6) VNone) h2
      = (Ok (), h3) ∧
    Monkey.get_attribute h3 (VRef World.Fan) "speed" = Raise AttributeError ∧
    Monkey.revert (Monkey.mkPatch (VRef World.Fan) "speed" (VInt 5) VNone) h3
      = (Raise AttributeError, h3).
Proof.
  apply (two_applies_two_reverts_on_created_slot
           World.world World.Fan "speed" [] (VInt 5) (VInt 6) VNone
           "default" "default").
  - exact world_Fan_well_placed.
  - apply world_Fan_plain. reflexivity.
  - reflexivity.
  - reflexivity.
Defined.

(** What the flag left behind does later.  After [apply] and [revert] on
    the absent [speed], the host defines [Fan.speed = 7] itself; a new
    [apply] stores the 7 as the original, and its [revert] deletes the
    member instead of restoring the 7. *)
Example stale_flag_deletes_a_later_original :
  let p := Monkey.mkPatch (VRef World.Fan) "speed" (VInt 5) VNone in
  let run :=
    (Monkey.apply p "default";; Monkey.revert p;;
     setattr (VRef World.Fan) "speed" (VInt 7);;
     Monkey.apply p "default") World.world in
  run.1 = Ok () ∧
  Monkey.get_original_attribute run.2 (VRef World.Fan) "speed" "default"
    = Ok (VInt 7) ∧
  (Monkey.revert p run.2).1 = Ok () ∧
  Monkey.get_attribute (Monkey.revert p run.2).2 (VRef World.Fan) "speed"
    = Raise AttributeError.
Proof. vm_compute. done. Qed.

(* ===================================================================== *)
(** ** Sequences of calls, and what they preserve: C3                     *)
(* ===================================================================== *)

Section hoare.
Context {A B : Type}.
Implicit Types (P E : heap → Prop).

Lemma hoare_bind P (m : M A) (k : A → M B) Q R E :
  hoare P m Q E → (∀ a, hoare (Q a) (k a) R E) → hoare P (m ≫= k) R E.
Proof.
  intros Hm Hk h HP. specialize (Hm h HP). run.
  destruct (m h) as [[a|e] h']; [|done]. by apply Hk.
Qed.

Lemma hoare_pre P P' (m : M A) Q E :
  (∀ h, P h → P' h) → hoare P' m Q E → hoare P m Q E.
Proof. intros HPP Hm h HP. by apply Hm, HPP. Qed.

Lemma hoare_false (m : M A) Q E : hoare (λ _, False) m Q E.
Proof. by intros h []. Qed.

Lemma hoare_read P (f : heap → res A) :
  hoare P (read f) (λ a h, P h ∧ f h = Ok a) P.
Proof. intros h HP. run. by destruct (f h). Qed.

Lemma hoare_try P (f : heap → res A) E :
  hoare P (try f) (λ a h, P h ∧ a = f h) E.
Proof. by intros h HP. Qed.

Lemma hoare_raise P e Q : hoare P (raise (A:=A) e) Q P.
Proof. by intros h HP. Qed.

Lemma hoare_ret P (a : A) E : hoare P (mret a) (λ a' h, P h ∧ a' = a) E.
Proof. by intros h HP. Qed.
End hoare.

Section existing_member.
Import Monkey.
Context (r : ref) (n : string).

Lemma setattr_cases h ob k v :
  h !! r = Some ob →
  (setattr (VRef r) k v h = (Ok (), at_dict h r ob (dict_set (odict ob) k v))
   ∧ plain_on_type h r k)
  ∨ setattr (VRef r) k v h = (Raise UserCode, h).
Proof.
  intros Hr. unfold setattr, plain_on_type, type_level. rewrite Hr. simpl.
  destruct (mro_lookup _ _ _) as [d|]; [destruct (is_data_descr d) eqn:Hd|].
  - by right.
  - left. split; [done|]. by intros ? [= <-].
  - left. split; [done|]. by intros ? [=].
Qed.

Lemma delattr_cases h ob k :
  h !! r = Some ob →
  delattr (VRef r) k h = (Ok (), at_dict h r ob (dict_del (odict ob) k))
  ∨ ∃ e, delattr (VRef r) k h = (Raise e, h).
Proof.
  intros Hr. unfold delattr. rewrite Hr. cbv zeta.
  destruct (mro_lookup _ _ _) as [d|]; [destruct (is_data_descr d)|];
    destruct (dict_get (odict ob) k); eauto.
Qed.

Lemma existing_frame h ob D :
  existing r n h → h !! r = Some ob →
  dict_get D n = dict_get (odict ob) n →
  dict_get D (_CREATED n) = dict_get (odict ob) (_CREATED n) →
  (existing r n) (at_dict h r ob D).
Proof.
  intros (Hwp & [V HV] & Hflag) Hr Hn Hc.
  destruct Hwp as (ob' & Hr' & Hmeta & Hhead). simplify_eq.
  split_and!.
  - by apply at_dict_well_placed.
  - exists V. rewrite <-HV. apply same_at_get_attribute.
    by apply at_dict_same_at_orig.
  - rewrite <-Hflag. unfold created_flag.
    rewrite (same_at_getattr_default _ _ h); [done|].
    by apply at_dict_same_at_orig.
Qed.

Lemma existing_member_set h ob v :
  existing r n h → h !! r = Some ob → plain_on_type h r n →
  (existing r n) (at_dict h r ob (dict_set (odict ob) n v)).
Proof.
  intros (Hwp & _ & Hflag) Hr Hn.
  destruct Hwp as (ob' & Hr' & Hmeta & Hhead). simplify_eq.
  split_and!.
  - by apply at_dict_well_placed.
  - exists v. apply get_attribute_at_own; try done. apply dict_get_set_eq.
  - rewrite <-Hflag. unfold created_flag.
    rewrite (same_at_getattr_default _ _ h); [done|].
    apply at_dict_same_at_orig; try done. by dict_simpl.
Qed.

Lemma hoare_setattr_other k v :
  k ≠ n → k ≠ _CREATED n →
  hoare (existing r n) (setattr (VRef r) k v) (λ _, (existing r n)) (existing r n).
Proof.
  intros Hkn Hkc h Hex. pose proof Hex as ((ob & Hr & _) & _).
  destruct (setattr_cases h ob k v Hr) as [[-> _]| ->]; [|done].
  apply existing_frame; try done; by rewrite dict_get_set_ne.
Qed.

Lemma hoare_setattr_member v :
  hoare (existing r n) (setattr (VRef r) n v) (λ _, (existing r n)) (existing r n).
Proof.
  intros h Hex. pose proof Hex as ((ob & Hr & _) & _).
  destruct (setattr_cases h ob n v Hr) as [[-> Hn]| ->]; [|done].
  by apply existing_member_set.
Qed.

Lemma hoare_delattr_other k :
  k ≠ n → k ≠ _CREATED n →
  hoare (existing r n) (delattr (VRef r) k) (λ _, (existing r n)) (existing r n).
Proof.
  intros Hkn Hkc h Hex. pose proof Hex as ((ob & Hr & _) & _).
  destruct (delattr_cases h ob k Hr) as [->|[e ->]]; [|done].
  apply existing_frame; try done; by rewrite dict_get_del_ne.
Qed.

Lemma hoare_read_existing {A} (f : heap → res A) :
  hoare (existing r n) (read f) (λ _, (existing r n)) (existing r n).
Proof. intros h Hex. run. by destruct (f h). Qed.

Lemma apply_keeps_existing v stg id :
  hoare (existing r n) (apply (mkPatch (VRef r) n v stg) id) (λ _, (existing r n)) (existing r n).
Proof.
  unfold apply. simpl.
  eapply hoare_bind; [apply hoare_try|]. intros [target|e].
  - eapply hoare_bind; [|intros ?; apply hoare_setattr_member].
    apply (hoare_pre _ (existing r n)); [by intros h [Hex ?]|].
    eapply hoare_bind; [apply hoare_read_existing|]. intros ids.
    eapply hoare_bind; [apply hoare_read_existing|]. intros len.
    eapply hoare_bind; [apply hoare_setattr_other; names|]. intros ?.
    eapply hoare_bind; [apply hoare_read_existing|]. intros ids'.
    apply hoare_setattr_other; names.
  - eapply hoare_pre; [|apply hoare_false].
    intros h [(_ & [V HV] & _) He]. congruence.
Qed.

Lemma revert_keeps_existing v stg :
  hoare (existing r n) (revert (mkPatch (VRef r) n v stg)) (λ _, (existing r n)) (existing r n).
Proof.
  unfold revert. simpl.
  eapply hoare_bind; [apply hoare_read|]. intros flag.
  destruct (py_truth flag) eqn:Hflag.
  { eapply hoare_pre; [|apply hoare_false].
    intros h [(_ & _ & Hf) Hread]. unfold created_flag in Hf.
    rewrite Hread in Hf. congruence. }
  apply (hoare_pre _ (existing r n)); [by intros h [Hex ?]|].
  eapply hoare_bind; [apply hoare_try|]. intros a.
  apply (hoare_pre _ (existing r n)); [by intros h [Hex ?]|].
  eapply hoare_bind with (Q := λ _, (existing r n)).
  { destruct a as [ids|e].
    - destruct (py_truth ids).
      + intros h Hex. by run.
      + eapply hoare_bind; [apply hoare_read_existing|]. intros ?.
        apply hoare_raise.
    - destruct e; try apply hoare_raise.
      eapply hoare_bind; [apply hoare_read_existing|]. intros ?.
      apply hoare_raise. }
  intros ids.
  eapply hoare_bind; [apply hoare_read_existing|]. intros len.
  eapply hoare_bind; [apply hoare_read_existing|]. intros attr.
  eapply hoare_bind; [apply hoare_setattr_member|]. intros ?.
  eapply hoare_bind; [apply hoare_delattr_other; names|]. intros ?.
  eapply hoare_bind; [apply hoare_read_existing|]. intros ids'.
  apply hoare_setattr_other; names.
Qed.

Lemma run_calls_keep_existing cs h :
  Forall (on_slot (VRef r) n) cs → existing r n h → (existing r n) (run_calls cs h).
Proof.
  intros Hcs. revert h. induction Hcs as [|c cs [Hd Hn] _ IH]; intros h Hex.
  { done. }
  simpl. apply IH.
  destruct c as [[d' n' v stg] id|[d' n' v stg]]; simpl in *; subst.
  - pose proof (apply_keeps_existing v stg id h Hex) as H.
    by destruct (apply _ _ h) as [[]].
  - pose proof (revert_keeps_existing v stg h Hex) as H.
    by destruct (revert _ h) as [[]].
Qed.
End existing_member.




(* ===================================================================== *)
(** ** Nothing to revert: C6                                              *)
(* ===================================================================== *)

(** C6, on the failing input: the instance [fan], nothing applied, has no
    created flag and no stack, and [revert] raises [AttributeError], the
    one of reading [fan.__name__] for the message of the [RuntimeError]
    (see [revert_nothing_stored]).  On the class [Fan], which has a
    [__name__], the same call raises the [RuntimeError]. *)
Lemma revert_on_instance_raises_attribute_error :
  created_flag World.world (VRef World.fan) "speed" = false ∧
  stack_tags World.world (VRef World.fan) "speed" = [] ∧
  (Monkey.revert (Monkey.mkPatch (VRef World.fan) "speed" (VInt 5) VNone)
     World.world).1 = Raise AttributeError ∧
  (Monkey.revert (Monkey.mkPatch (VRef World.Fan) "speed" (VInt 5) VNone)
     World.world).1 = Raise RuntimeError.
Proof. vm_compute. done. Qed.

(* ===================================================================== *)
(** ** Layers: C5                                                         *)
(* ===================================================================== *)

(** A non-data descriptor, or a plain value, never fails to bind. *)
Lemma descr_get_nondata h d inst owner :
  is_data_descr d = false → ∃ v, descr_get h d inst owner = Ok v.
Proof.
  unfold descr_get. destruct d; try done; intros _; eauto.
  destruct (has_kind _ _ _), inst; eauto.
Qed.

(** Reading a name that is plain on the type gives a value or
    [AttributeError], nothing else. *)
Lemma getattr_plain h r ob k :
  h !! r = Some ob → plain_on_type h r k →
  (∃ v, getattr h (VRef r) k = Ok v) ∨ getattr h (VRef r) k = Raise AttributeError.
Proof.
  intros Hr Hk. unfold plain_on_type, type_level in Hk. rewrite Hr in Hk.
  simpl in Hk. unfold getattr. destruct (is_class h (VRef r)).
  - unfold type_getattribute. rewrite Hr.
    destruct (mro_lookup h (getmro h (otype ob)) k) as [d|] eqn:Hm.
    + rewrite (Hk d eq_refl).
      destruct (mro_lookup h (omro ob) k) as [a|].
      * left. rewrite descr_get_through_class. eauto.
      * left. by apply descr_get_nondata, Hk.
    + destruct (mro_lookup h (omro ob) k) as [a|]; [|by right].
      left. rewrite descr_get_through_class. eauto.
  - unfold object_getattribute. rewrite Hr.
    destruct (mro_lookup h (getmro h (otype ob)) k) as [d|] eqn:Hm.
    + rewrite (Hk d eq_refl).
      destruct (dict_get (odict ob) k); [eauto|].
      left. by apply descr_get_nondata, Hk.
    + destruct (dict_get (odict ob) k); eauto.
Qed.

Lemma created_flag_unset_read h r ob n :
  h !! r = Some ob → plain_on_type h r (Monkey._CREATED n) →
  created_flag h (VRef r) n = false →
  ∃ flag, getattr_default h (VRef r) (Monkey._CREATED n) (VBool false) = Ok flag
          ∧ py_truth flag = false.
Proof.
  intros Hr Hk. unfold created_flag, getattr_default.
  destruct (getattr_plain h r ob _ Hr Hk) as [[v ->]| ->]; eauto.
Qed.

(** Running a sequence of calls in two parts. *)
Lemma do_calls_app (cs1 cs2 : list call) (h : heap) :
  do_calls (cs1 ++ cs2) h
  = match do_calls cs1 h with
    | (Ok _, h1) => do_calls cs2 h1
    | (Raise e, h1) => (Raise e, h1)
    end.
Proof.
  revert h. induction cs1 as [|c cs1 IH]; intros h; [done|].
  simpl. run. destruct (do_call c h) as [[[]|e] h1]; [apply IH|done].
Qed.

Lemma do_calls_cons (c : call) (cs : list call) (h : heap) :
  do_calls (c :: cs) h
  = match do_call c h with
    | (Ok _, h1) => do_calls cs h1
    | (Raise e, h1) => (Raise e, h1)
    end.
Proof. simpl. run. by destruct (do_call c h) as [[[]|e] h1]. Qed.

Section layers.
Import Monkey.
Context (h : heap) (r : ref) (ob : object) (n : string).
Hypothesis Hr : h !! r = Some ob.
Hypothesis Hmeta : r ∉ getmro h (otype ob).
Hypothesis Hhead : okind ob = KClass → ∃ rest, omro ob = r :: rest.
Hypothesis Hplain : slot_plain h r n.
#[local] Set Default Proof Using "Hr Hmeta Hhead Hplain".

Lemma pushed_member D l target id v : dict_get (pushed n D l target id v) n = Some v.
Proof using Type. unfold pushed. by dict_simpl. Qed.

Lemma pushed_ids D l target id v :
  dict_get (pushed n D l target id v) (_ORIGINAL_IDS n)
  = Some (VTuple (l ++ [VStr id])).
Proof using Type. unfold pushed. by dict_simpl. Qed.

Lemma pushed_item D l target id v :
  dict_get (pushed n D l target id v) (_ORIGINAL_ITEM n (length l)) = Some target.
Proof using Type. unfold pushed. by dict_simpl. Qed.

Lemma pushed_item_below D l target id v j :
  j ≠ length l →
  dict_get (pushed n D l target id v) (_ORIGINAL_ITEM n j)
  = dict_get D (_ORIGINAL_ITEM n j).
Proof using Type.
  intros Hj. unfold pushed. by dict_simpl.
Qed.

Lemma pushed_created D l target id v :
  dict_get (pushed n D l target id v) (_CREATED n) = dict_get D (_CREATED n).
Proof using Type. unfold pushed. by dict_simpl. Qed.

Lemma popped_member D l a : dict_get (popped n D l a) n = Some a.
Proof using Type. unfold popped. by dict_simpl. Qed.

Lemma popped_ids D l a : dict_get (popped n D l a) (_ORIGINAL_IDS n) = Some (VTuple l).
Proof using Type. unfold popped. by dict_simpl. Qed.

Lemma popped_item_below D l a j :
  j ≠ length l →
  dict_get (popped n D l a) (_ORIGINAL_ITEM n j) = dict_get D (_ORIGINAL_ITEM n j).
Proof using Type.
  intros Hj. unfold popped. by dict_simpl.
Qed.

Lemma popped_created D l a :
  dict_get (popped n D l a) (_CREATED n) = dict_get D (_CREATED n).
Proof using Type. unfold popped. by dict_simpl. Qed.

(** A storing [apply] from a dict whose member and stack are its own. *)
Lemma apply_pushes D v stg id target l :
  dict_get D n = Some target →
  dict_get D (_ORIGINAL_IDS n) = Some (VTuple l) →
  apply (mkPatch (VRef r) n v stg) id (at_dict h r ob D)
  = (Ok (), at_dict h r ob (pushed n D l target id v)).
Proof.
  intros Hn Hids. apply apply_stores; try done.
  - apply get_attribute_at_own; try done. apply Hplain.
  - unfold getattr_default. by erewrite (stack_ids_at_own h r ob n).
Qed.

(** A popping [revert]: the member gets the stored item as [getattr]
    reads it back. *)
Lemma revert_pops_read_back D v stg l top x :
  created_flag (at_dict h r ob D) (VRef r) n = false →
  dict_get D (_ORIGINAL_IDS n) = Some (VTuple (l ++ [top])) →
  dict_get D (_ORIGINAL_ITEM n (length l)) = Some x →
  revert (mkPatch (VRef r) n v stg) (at_dict h r ob D)
  = (Ok (), at_dict h r ob (popped n D l (read_back ob r x))).
Proof.
  intros Hflag Hids Hitem.
  destruct (created_flag_unset_read (at_dict h r ob D) r (with_dict ob D) n)
    as (flag & Hread & Ht); try done.
  { by apply at_dict_lookup. }
  { apply at_dict_plain_on_type; try done. apply Hplain. }
  eapply revert_pops; try done.
  - by apply stack_ids_at_own.
  - erewrite (getattr_at_own h r ob); try done. apply Hplain.
Qed.

(** A popping [revert], the top layer being plain data. *)
Lemma revert_pops_own D v stg l top a :
  created_flag (at_dict h r ob D) (VRef r) n = false →
  dict_get D (_ORIGINAL_IDS n) = Some (VTuple (l ++ [top])) →
  dict_get D (_ORIGINAL_ITEM n (length l)) = Some a →
  through_class r a = a →
  revert (mkPatch (VRef r) n v stg) (at_dict h r ob D)
  = (Ok (), at_dict h r ob (popped n D l a)).
Proof.
  intros Hflag Hids Hitem Ha.
  destruct (created_flag_unset_read (at_dict h r ob D) r (with_dict ob D) n)
    as (flag & Hread & Ht); try done.
  { by apply at_dict_lookup. }
  { apply at_dict_plain_on_type; try done. apply Hplain. }
  eapply revert_pops; try done.
  - by apply stack_ids_at_own.
  - erewrite (getattr_at_own h r ob); try done; [|apply Hplain].
    case_bool_decide; by rewrite ?Ha.
Qed.

Lemma created_flag_at_same D D' :
  dict_get D (_CREATED n) = dict_get D' (_CREATED n) →
  created_flag (at_dict h r ob D) (VRef r) n
  = created_flag (at_dict h r ob D') (VRef r) n.
Proof.
  intros HD. unfold created_flag.
  by rewrite (same_at_getattr_default _ _ (at_dict h r ob D'))
    by by apply at_dict_same_at.
Qed.

(** From a dict that holds the member and the stack as its own entries:
    any applies followed by as many reverts all succeed, the member is
    the former value as [revert] reads it back, and the stack, the flag
    and the items below are as before. *)
Lemma balanced_rounds stg ps : ∀ rs D l v,
  length rs = length ps →
  dict_get D n = Some v →
  dict_get D (_ORIGINAL_IDS n) = Some (VTuple l) →
  created_flag (at_dict h r ob D) (VRef r) n = false →
  ∃ D',
    do_calls (apply_calls (VRef r) n stg ps ++ revert_calls (VRef r) n stg rs)
      (at_dict h r ob D) = (Ok (), at_dict h r ob D') ∧
    dict_get D' n = Some (match ps with [] => v | _ => read_back ob r v end) ∧
    dict_get D' (_ORIGINAL_IDS n) = Some (VTuple l) ∧
    dict_get D' (_CREATED n) = dict_get D (_CREATED n) ∧
    ∀ j, j < length l →
         dict_get D' (_ORIGINAL_ITEM n j) = dict_get D (_ORIGINAL_ITEM n j).
Proof.
  induction ps as [|[v1 id1] ps IH]; intros rs D l v Hlen Hn Hids Hflag.
  - destruct rs; [|done]. by exists D.
  - destruct rs as [|x rs _] using rev_ind; [done|].
    rewrite length_app in Hlen. simpl in Hlen.
    set (D1 := pushed n D l v id1 v1).
    destruct (IH rs D1 (l ++ [VStr id1]) v1) as (D2 & Hrun & _ & Hids2 & Hc2 & Hit2).
    { lia. }
    { apply pushed_member. }
    { apply pushed_ids. }
    { rewrite <-Hflag. apply created_flag_at_same. apply pushed_created. }
    exists (popped n D2 l (read_back ob r v)). split_and!.
    + assert (apply_calls (VRef r) n stg ((v1, id1) :: ps)
                ++ revert_calls (VRef r) n stg (rs ++ [x])
              = CallApply (mkPatch (VRef r) n v1 stg) id1
                  :: (apply_calls (VRef r) n stg ps
                        ++ revert_calls (VRef r) n stg rs)
                  ++ [CallRevert (mkPatch (VRef r) n x stg)]) as ->.
      { unfold apply_calls, revert_calls. rewrite fmap_cons, fmap_app.
        simpl. by rewrite app_assoc. }
      rewrite do_calls_cons. cbn [do_call].
      rewrite (apply_pushes D v1 stg id1 v l) by done.
      rewrite do_calls_app. fold D1. rewrite Hrun.
      rewrite do_calls_cons. cbn [do_call do_calls].
      rewrite (revert_pops_read_back D2 x stg l (VStr id1) v); [done|..].
      * rewrite <-Hflag. apply created_flag_at_same.
        rewrite Hc2. apply pushed_created.
      * done.
      * rewrite Hit2 by (rewrite length_app; simpl; lia). apply pushed_item.
    + apply popped_member.
    + apply popped_ids.
    + rewrite popped_created, Hc2. apply pushed_created.
    + intros j Hj. rewrite popped_item_below by lia.
      rewrite Hit2 by (rewrite length_app; simpl; lia).
      apply pushed_item_below. lia.
Qed.
End layers.

(** Rounds that start with an [apply] on a member that exists: the dict
    of the destination afterwards. *)
Lemma rounds_on_existing_member
    (h : heap) (r : ref) (ob : object) (n : string) (stg V : value)
    (l : list value) (v1 : value) (id1 : string) (ps : list (value * string))
    (rs : list value) (x : value) :
  h !! r = Some ob →
  (r ∉ getmro h (otype ob)) →
  (okind ob = KClass → ∃ rest, omro ob = r :: rest) →
  slot_plain h r n →
  Monkey.get_attribute h (VRef r) n = Ok V →
  created_flag h (VRef r) n = false →
  getattr_default h (VRef r) (Monkey._ORIGINAL_IDS n) (VTuple []) = Ok (VTuple l) →
  length rs = length ps →
  ∃ D',
    do_calls (apply_calls (VRef r) n stg ((v1, id1) :: ps)
              ++ revert_calls (VRef r) n stg (rs ++ [x])) h
      = (Ok (), at_dict h r ob D') ∧
    dict_get D' n = Some (read_back ob r V) ∧
    dict_get D' (Monkey._ORIGINAL_IDS n) = Some (VTuple l) ∧
    created_flag (at_dict h r ob D') (VRef r) n = false.
Proof.
  intros Hr Hmeta Hhead Hplain Hget Hflag Hids Hlen.
  set (D1 := pushed n (odict ob) l V id1 v1).
  assert (Monkey.apply (Monkey.mkPatch (VRef r) n v1 stg) id1 h
          = (Ok (), at_dict h r ob D1)) as Hfirst.
  { pose proof (apply_stores h r ob n Hr Hmeta Hhead Hplain (odict ob)
                  v1 stg id1 V l) as Ha.
    rewrite (at_dict_id h r ob Hr Hmeta Hhead) in Ha. by apply Ha. }
  assert (∀ D, dict_get D (Monkey._CREATED n)
               = dict_get (odict ob) (Monkey._CREATED n) →
               created_flag (at_dict h r ob D) (VRef r) n = false) as Hunset.
  { intros D HD. rewrite <-Hflag. by apply created_flag_at_orig. }
  destruct (balanced_rounds h r ob n Hr Hmeta Hhead Hplain stg ps rs D1
              (l ++ [VStr id1]) v1)
    as (D2 & Hrun & _ & Hids2 & Hc2 & Hit2).
  { lia. }
  { apply pushed_member. }
  { apply pushed_ids. }
  { apply Hunset. apply pushed_created. }
  exists (popped n D2 l (read_back ob r V)). split_and!.
  - assert (apply_calls (VRef r) n stg ((v1, id1) :: ps)
              ++ revert_calls (VRef r) n stg (rs ++ [x])
            = CallApply (Monkey.mkPatch (VRef r) n v1 stg) id1
                :: (apply_calls (VRef r) n stg ps
                      ++ revert_calls (VRef r) n stg rs)
                ++ [CallRevert (Monkey.mkPatch (VRef r) n x stg)]) as ->.
    { unfold apply_calls, revert_calls. rewrite fmap_cons, fmap_app.
      simpl. by rewrite app_assoc. }
    rewrite do_calls_cons. cbn [do_call]. rewrite Hfirst.
    rewrite do_calls_app, Hrun, do_calls_cons. cbn [do_call do_calls].
    rewrite (revert_pops_read_back h r ob n Hr Hmeta Hhead Hplain
               D2 x stg l (VStr id1) V); [done|..].
    + apply Hunset. rewrite Hc2. apply pushed_created.
    + done.
    + rewrite Hit2 by (rewrite length_app; simpl; lia). apply pushed_item.
  - apply popped_member.
  - apply popped_ids.
  - apply Hunset. rewrite popped_created, Hc2. apply pushed_created.
Qed.



(** A static method of a class is not restored as it was: [apply] stores
    the raw [staticmethod] object, [revert] reads it back with [getattr],
    which hands out the function inside, and writes that. *)
Example static_method_comes_back_unwrapped :
  Monkey.get_attribute World.with_static (VRef World.Fan) "clamp"
    = Ok (VStaticmethod (VRef World.clamp)) ∧
  ∃ h',
    do_calls
      (apply_calls (VRef World.Fan) "clamp" VNone [(VInt 0, "default")]
       ++ revert_calls (VRef World.Fan) "clamp" VNone [VInt 0])
      World.with_static = (Ok (), h') ∧
    Monkey.get_attribute h' (VRef World.Fan) "clamp" = Ok (VRef World.clamp).
Proof. split; [reflexivity|]. eexists. split; vm_compute; reflexivity. Qed.

Lemma read_back_plain (ob : object) (r : ref) (v : value) :
  okind ob ≠ KClass ∨ through_class r v = v → read_back ob r v = v.
Proof. unfold read_back. intros [?|?]; case_bool_decide; congruence. Qed.

(** The scan of [get_original_attribute] returns the stored item of the
    last index whose tag is the requested one. *)
Lemma scan_ids_last_match h o n id (tags : list value) i t :
  tags !! i = Some t →
  py_eq_str t id = true →
  (∀ j t', i < j → tags !! j = Some t' → py_eq_str t' id = false) →
  Monkey.scan_ids h o n id (reverse tags)
  = getattr h o (Monkey._ORIGINAL_ITEM n i).
Proof.
  revert i t. induction tags as [|t0 tags IH] using rev_ind; intros i t Hi Ht Hlast.
  { done. }
  rewrite reverse_app. simpl.
  destruct (decide (i = length tags)) as [->|Hne].
  - rewrite lookup_app_r, Nat.sub_diag in Hi by lia. simpl in Hi. simplify_eq.
    by rewrite Ht, length_reverse.
  - assert (i < length tags) as Hlt.
    { apply lookup_lt_Some in Hi. rewrite length_app in Hi. simpl in Hi. lia. }
    rewrite (Hlast (length tags) t0); [|done|].
    2:{ rewrite lookup_app_r, Nat.sub_diag by lia. done. }
    rewrite lookup_app_l in Hi by done.
    apply (IH i t); [done..|].
    intros j t' Hij Hj. apply (Hlast j t'); [done|].
    rewrite lookup_app_l; [done|]. by apply lookup_lt_Some in Hj.
Qed.

Lemma scan_ids_no_match h o n id (tags : list value) :
  Forall (λ t, py_eq_str t id = false) tags →
  Monkey.scan_ids h o n id (reverse tags) = Raise AttributeError.
Proof.
  intros Hall. apply Forall_reverse in Hall.
  induction Hall as [|t ts Ht _ IH]; simpl; [done|]. by rewrite Ht.
Qed.



(* ===================================================================== *)
(** ** The member resolver: C4                                            *)
(* ===================================================================== *)

Lemma get_attribute_loop_found h (cs : list ref) n v :
  Monkey.get_attribute_loop h (VRef <$> cs) n = Ok v ↔
  ∃ before c after,
    cs = before ++ c :: after ∧
    Forall (λ c', object_getattribute h (VRef c') n = Raise AttributeError) before ∧
    object_getattribute h (VRef c) n = Ok v.
Proof.
  induction cs as [|c cs IH]; simpl.
  - split; [done|]. intros (before & c & after & Heq & _). by destruct before.
  - destruct (object_getattribute h (VRef c) n) as [w|e] eqn:Hc.
    + split.
      * intros [= ->]. exists [], c, cs. by repeat split.
      * intros (before & c0 & after & Heq & Hbefore & Hok).
        destruct before as [|c' before]; simplify_eq/=.
        -- congruence.
        -- inversion Hbefore; congruence.
    + split.
      * intros Hloop.
        assert (e = AttributeError) as -> by by destruct e.
        apply IH in Hloop as (before & c0 & after & -> & Hbefore & Hok).
        exists (c :: before), c0, after. split_and!; [done| |done].
        by constructor.
      * intros (before & c0 & after & Heq & Hbefore & Hok).
        destruct before as [|c' before]; simplify_eq/=; [congruence|].
        inversion Hbefore; simplify_eq.
        assert (e = AttributeError) as -> by congruence.
        apply IH. by exists before, c0, after.
Qed.

Lemma get_attribute_loop_absent h (cs : list ref) n :
  Monkey.get_attribute_loop h (VRef <$> cs) n = Raise AttributeError ↔
  Forall (λ c, object_getattribute h (VRef c) n = Raise AttributeError) cs.
Proof.
  induction cs as [|c cs IH]; simpl.
  - split; [by constructor|done].
  - destruct (object_getattribute h (VRef c) n) as [w|e] eqn:Hc.
    + split; [done|]. intros Hall. inversion Hall; congruence.
    + split.
      * intros Hloop.
        assert (e = AttributeError) as -> by by destruct e.
        constructor; [done|]. by apply IH.
      * intros Hall. inversion Hall as [|?? He Hrest]; simplify_eq.
        assert (e = AttributeError) as -> by congruence.
        by apply IH.
Qed.

(** What a class stores under a name is returned as it is stored, a
    property included, unless its metaclass has a data descriptor of that
    name. *)
Lemma object_getattribute_raw h c n v :
  own h c n = Some v → plain_on_type h c n →
  object_getattribute h (VRef c) n = Ok v.
Proof.
  unfold own, plain_on_type, type_level, object_getattribute.
  destruct (h !! c) as [ob|]; [|done]. simpl. intros -> Hplain.
  destruct (mro_lookup _ _ _) as [d|]; [|done]. by rewrite (Hplain d).
Qed.

(** C4, as stated, fails: [__hash__] is defined on [object] only, the
    lookup over the non-root ancestors of [Fan] finds nothing, and
    [get_attribute] returns a value. *)
Lemma root_member_is_resolved :
  own World.world World.Fan "__hash__" = None ∧
  own World.world object_ref "__hash__" = Some (VRef 5) ∧
  resolve_as_specified World.world World.Fan "__hash__" = Raise AttributeError ∧
  Monkey.get_attribute World.world (VRef World.Fan) "__hash__"
  = Ok (VBound (VRef 5) (VRef World.Fan)).
Proof. vm_compute. done. Qed.

(** C4, amended.  For a class [T], [get_attribute] goes through the whole
    linearization of [T], most derived first and the root bases included,
    reads each class with [object.__getattribute__], and returns the first
    value found; it raises [AttributeError] exactly when every class of the
    linearization does.  What a class stores is returned as stored, without
    binding.  A name that [object] defines is therefore never reported
    absent.  The heap is only read. *)
Theorem get_attribute_walks_whole_linearization
    (h : heap) (T : ref) (ob : object) (n : string) :
  h !! T = Some ob →
  okind ob = KClass →
  (∀ v, Monkey.get_attribute h (VRef T) n = Ok v ↔
        ∃ before c after,
          omro ob = before ++ c :: after ∧
          Forall (λ c', object_getattribute h (VRef c') n = Raise AttributeError)
            before ∧
          object_getattribute h (VRef c) n = Ok v) ∧
  (Monkey.get_attribute h (VRef T) n = Raise AttributeError ↔
   Forall (λ c, object_getattribute h (VRef c) n = Raise AttributeError)
     (omro ob)) ∧
  (∀ c v, own h c n = Some v → plain_on_type h c n →
          object_getattribute h (VRef c) n = Ok v) ∧
  (∀ v, object_ref ∈ omro ob → own h object_ref n = Some v →
        plain_on_type h object_ref n →
        Monkey.get_attribute h (VRef T) n ≠ Raise AttributeError).
Proof.
  intros HT Hclass.
  assert (Monkey.get_attribute h (VRef T) n
          = Monkey.get_attribute_loop h (VRef <$> omro ob) n) as Hunfold.
  { unfold Monkey.get_attribute, is_class, has_kind, getmro. rewrite HT.
    by rewrite bool_decide_true. }
  rewrite Hunfold. split_and!.
  - intros v. apply get_attribute_loop_found.
  - apply get_attribute_loop_absent.
  - intros c v. apply object_getattribute_raw.
  - intros v Hin Hown Hplain Habs.
    apply get_attribute_loop_absent in Habs.
    rewrite Forall_forall in Habs. specialize (Habs _ Hin).
    by rewrite (object_getattribute_raw h object_ref n v) in Habs.
Qed.

Lemma get_attribute_walks_whole_linearization_witness :
  (∀ v, Monkey.get_attribute World.world (VRef World.Fan) "max_power" = Ok v ↔
        ∃ before c after,
          [World.Fan; object_ref] = before ++ c :: after ∧
          Forall (λ c', object_getattribute World.world (VRef c') "max_power"
                        = Raise AttributeError) before ∧
          object_getattribute World.world (VRef c) "max_power" = Ok v) ∧
  (Monkey.get_attribute World.world (VRef World.Fan) "max_power"
     = Raise AttributeError ↔
   Forall (λ c, object_getattribute World.world (VRef c) "max_power"
                = Raise AttributeError) [World.Fan; object_ref]) ∧
  (∀ c v, own World.world c "max_power" = Some v →
          plain_on_type World.world c "max_power" →
          object_getattribute World.world (VRef c) "max_power" = Ok v) ∧
  (∀ v, object_ref ∈ [World.Fan; object_ref] →
        own World.world object_ref "max_power" = Some v →
        plain_on_type World.world object_ref "max_power" →
        Monkey.get_attribute World.world (VRef World.Fan) "max_power"
        ≠ Raise AttributeError).
Proof.
  apply (get_attribute_walks_whole_linearization World.world World.Fan
           (World.class_ "Fan" [World.Fan; object_ref]
              [("__module__", VStr "fan"); ("max_power", VInt 1);
               ("set_speed", VRef World.set_speed)])
           "max_power").
  - reflexivity.
  - reflexivity.
Defined.

(* ===================================================================== *)
(** ** Hashing a patch: C10                                               *)
(* ===================================================================== *)

(** C10.  Whatever the interpreter's hash of the hashable values is,
    [hash(p)] raises [TypeError] for every patch [p]: [Patch.__hash__]
    hashes the list that [sorted] returns.  Hence adding a patch to a set,
    or using it as a dictionary key, raises [TypeError] too. *)
Theorem patch_is_unhashable
    (hash_atom : value → Z) (hash_tuple : list Z → Z) (p : Monkey.Patch) :
  Monkey.Patch___hash__ hash_atom hash_tuple p = Raise TypeError ∧
  (∀ s, Monkey.set_add_patch hash_atom hash_tuple s p = Raise TypeError) ∧
  (∀ d v, Monkey.dict_setitem_patch hash_atom hash_tuple d p v = Raise TypeError).
Proof.
  assert (Monkey.Patch___hash__ hash_atom hash_tuple p = Raise TypeError) as H.
  { unfold Monkey.Patch___hash__. reflexivity. }
  split_and!; [done|intros s|intros d v];
    unfold Monkey.set_add_patch, Monkey.dict_setitem_patch; by rewrite H.
Qed.

(* ===================================================================== *)
(** ** The members of a class: C8                                         *)
(* ===================================================================== *)

Global Instance member_le_trans : Transitive Monkey.member_le.
Proof. intros a b c. unfold Monkey.member_le. apply transitivity. Qed.

Global Instance member_le_total : Total Monkey.member_le.
Proof. intros a b. unfold Monkey.member_le. apply (total String.le). Qed.

#[local] Set Warnings "-clear-no-such-hyp".

(** One root's items: a name enters the members the first time it is
    seen, with the value it has there. *)
Lemma collect_items_spec h items seen members :
  let res := Monkey.collect_items h Monkey._true items seen members in
  (∀ n, n ∈ res.1 ↔ n ∈ seen ∨ n ∈ items.*1) ∧
  (∀ n v, (n, v) ∈ res.2 ↔
          (n, v) ∈ members ∨ ((n ∉ seen) ∧ dict_get items n = Some v)) ∧
  (NoDup members.*1 → (∀ n, n ∈ members.*1 → n ∈ seen) →
   NoDup res.2.*1 ∧ ∀ n, n ∈ res.2.*1 → n ∈ res.1).
Proof.
  revert seen members.
  induction items as [|[k w] items IH]; intros seen members; simpl.
  { split_and!; [set_solver|naive_solver|done]. }
  unfold Monkey._true at 1. rewrite andb_true_r.
  specialize (IH (k :: seen)
    (if bool_decide (k ∉ seen) then members ++ [(k, w)] else members)).
  destruct IH as (IH1 & IH2 & IH3). split_and!.
  - intros n. rewrite IH1. set_solver.
  - intros n v. rewrite IH2. case_bool_decide as Hk.
    + rewrite elem_of_app, list_elem_of_singleton, not_elem_of_cons.
      destruct (decide (k = n)) as [->|Hne]; naive_solver.
    + rewrite not_elem_of_cons.
      destruct (decide (k = n)) as [->|Hne]; naive_solver.
  - intros Hnd Hsub. apply IH3.
    + case_bool_decide as Hk; [|done].
      rewrite fmap_app. simpl. apply NoDup_app. split_and!.
      * done.
      * intros n Hn ->%list_elem_of_singleton. by apply Hk, Hsub.
      * apply NoDup_singleton.
    + intros n. case_bool_decide; [rewrite fmap_app; simpl|]; set_solver.
Qed.

(** The roots one after the other: a name keeps the value of the first
    root that defines it. *)
Lemma collect_roots_spec h (cs : list ref) seen members :
  let ms := Monkey.collect_roots h Monkey._true (VRef <$> cs) seen members in
  (∀ n v, (n, v) ∈ ms ↔
          (n, v) ∈ members ∨ ((n ∉ seen) ∧ mro_lookup h cs n = Some v)) ∧
  (NoDup members.*1 → (∀ n, n ∈ members.*1 → n ∈ seen) → NoDup ms.*1).
Proof.
  revert seen members. induction cs as [|c cs IH]; intros seen members; simpl.
  { split; [naive_solver|done]. }
  pose proof (collect_items_spec h (Monkey.py_dict h (VRef c)) seen members)
    as (H1 & H2 & H3).
  destruct (Monkey.collect_items _ _ _ _ _) as [seen' members'] eqn:E.
  simpl in *. destruct (IH seen' members') as [IH1 IH2]. split.
  - intros n v. rewrite IH1, H2, H1.
    assert (h !! c ≫= (λ o, dict_get (odict o) n)
            = dict_get (Monkey.py_dict h (VRef c)) n) as ->.
    { simpl. by destruct (h !! c). }
    destruct (dict_get (Monkey.py_dict h (VRef c)) n) as [w|] eqn:Hd.
    + assert (n ∈ (Monkey.py_dict h (VRef c)).*1) as Hin.
      { clear -Hd. induction (Monkey.py_dict h (VRef c)) as [|[k x] d IHd];
          simpl in *; [done|].
        destruct (decide (k = n)); [set_solver|]. right. by apply IHd. }
      naive_solver.
    + assert (n ∉ (Monkey.py_dict h (VRef c)).*1) as Hin.
      { clear -Hd. induction (Monkey.py_dict h (VRef c)) as [|[k x] d IHd];
          simpl in *; [set_solver|].
        destruct (decide (k = n)); [done|].
        apply not_elem_of_cons. split; [done|]. by apply IHd. }
      naive_solver.
  - intros Hnd Hsub. destruct (H3 Hnd Hsub) as [Hnd' Hsub']. by apply IH2.
Qed.

(** Sorting keeps the members and puts the names in increasing order. *)
Lemma sorted_spec (ms : list (string * value)) :
  Monkey.sorted ms ≡ₚ ms ∧ StronglySorted Monkey.member_le (Monkey.sorted ms).
Proof.
  unfold Monkey.sorted. split.
  - apply merge_sort_Permutation.
  - apply StronglySorted_merge_sort; apply _.
Qed.

(** Two sorted lists of members without repeated names and with the same
    elements are the same list. *)
Lemma sorted_members_unique (l1 l2 : list (string * value)) :
  NoDup l1.*1 → NoDup l2.*1 →
  StronglySorted Monkey.member_le l1 → StronglySorted Monkey.member_le l2 →
  (∀ x, x ∈ l1 ↔ x ∈ l2) → l1 = l2.
Proof.
  intros Hnd1 Hnd2 Hs1 Hs2 Hel.
  assert (∀ l : list (string * value), NoDup l.*1 →
          ∀ x y, x ∈ l → y ∈ l → x.1 = y.1 → x = y) as Hkey.
  { clear. intros l. induction l as [|z l IH]; intros Hnd x y Hx Hy Hxy.
    { by apply elem_of_nil in Hx. }
    simpl in Hnd. apply NoDup_cons in Hnd as [Hz Hnd].
    apply elem_of_cons in Hx as [->|Hx]; apply elem_of_cons in Hy as [->|Hy].
    - done.
    - destruct Hz. rewrite Hxy. by apply list_elem_of_fmap_2.
    - destruct Hz. rewrite <-Hxy. by apply list_elem_of_fmap_2.
    - by apply IH. }
  apply (StronglySorted_unique_strong Monkey.member_le); [|done..|].
  - intros x1 x2 Hx1 Hx2 H12 H21. apply (Hkey l1 Hnd1); [done|by apply Hel|].
    by apply (anti_symm String.le).
  - apply NoDup_Permutation; [by eapply NoDup_fmap_1..|done].
Qed.

Lemma create_patches_loop_step fuel depth h tb flt rec dec parent stack out :
  Monkey.create_patches_loop (S fuel) depth h tb flt rec dec (parent :: stack) out
  = (members ← Monkey._get_members (S fuel) h (Monkey.obj parent) tb None false;
     acc ← Monkey.create_patches_members depth h flt rec dec parent
             (stack, out) members;
     Monkey.create_patches_loop fuel depth h tb flt rec dec acc.1 acc.2).
Proof. reflexivity. Qed.

Lemma create_patches_loop_done fuel depth h tb flt rec dec out :
  Monkey.create_patches_loop fuel depth h tb flt rec dec [] out = Ok out.
Proof. by destruct fuel. Qed.

Lemma get_members_of_class h T ob fuel :
  h !! T = Some ob → okind ob = KClass →
  Monkey._get_members (S fuel) h (VRef T) true None false
  = Ok (Monkey.sorted
          (Monkey.collect_roots h Monkey._true
             (VRef <$> merged_roots (omro ob)) [] [])).
Proof.
  intros HT Hclass. unfold Monkey._get_members. simpl.
  unfold is_class, has_kind, getmro. rewrite HT.
  rewrite bool_decide_true by done. simpl. by destruct fuel.
Qed.

Lemma create_patches_members_unfiltered depth h D n0 o0 stg stack out ms :
  Monkey.deepcopy h stg = Ok stg →
  Monkey.create_patches_members depth h Monkey._true false false
    (Monkey.mkPatch D n0 o0 stg) (stack, out) ms
  = Ok (stack, out ++ ((λ m, Monkey.mkPatch D m.1 m.2 stg) <$> ms)).
Proof.
  intros Hcopy. revert out. induction ms as [|[n v] ms IH]; intros out; simpl.
  { by rewrite app_nil_r. }
  unfold Monkey.create_patches_member. cbn [Monkey.settings Monkey.destination].
  rewrite Hcopy. run. rewrite IH. by rewrite <-app_assoc.
Qed.

(** C8.  For a class [T], [_get_members] with [traverse_bases] merges the
    own members of the classes of [T]'s linearization, the two root bases
    left out, so that a name defined by several of them keeps the
    definition of the most derived one ([mro_lookup] returns the first
    definition in linearization order); the members come out sorted by
    name, without repeated names.  [create_patches] takes its candidates
    from this list, in this order, whatever its other options are, and
    without filter, recursion and decorators it emits one patch per member.
    The list depends on which definition each name resolves to, not on the
    order in which the dicts hold them. *)
Theorem members_keep_most_derived_definition
    (h : heap) (T : ref) (ob : object) (fuel depth : nat) (D stg : value) :
  h !! T = Some ob →
  okind ob = KClass →
  Monkey.deepcopy h stg = Ok stg →
  ∃ members,
    Monkey._get_members (S fuel) h (VRef T) true None false = Ok members ∧
    (∀ n v, (n, v) ∈ members ↔
            mro_lookup h (merged_roots (omro ob)) n = Some v) ∧
    NoDup members.*1 ∧
    StronglySorted Monkey.member_le members ∧
    (∀ flt recursive use_decorators,
       Monkey.create_patches (S fuel) depth h D (VRef T) stg true flt
         recursive use_decorators
       = (acc ← Monkey.create_patches_members depth h
                  (Monkey.filter_or_true flt) recursive use_decorators
                  (Monkey.mkPatch D "" (VRef T) stg) ([], []) members;
          Monkey.create_patches_loop fuel depth h true
            (Monkey.filter_or_true flt) recursive use_decorators
            acc.1 acc.2)) ∧
    Monkey.create_patches (S fuel) depth h D (VRef T) stg true None false false
    = Ok ((λ m, Monkey.mkPatch D m.1 m.2 stg) <$> members) ∧
    (∀ h' ob',
       h' !! T = Some ob' → okind ob' = KClass →
       (∀ n, mro_lookup h' (merged_roots (omro ob')) n
             = mro_lookup h (merged_roots (omro ob)) n) →
       Monkey._get_members (S fuel) h' (VRef T) true None false = Ok members).
Proof.
  intros HT Hclass Hcopy.
  set (ms := Monkey.collect_roots h Monkey._true
               (VRef <$> merged_roots (omro ob)) [] []).
  pose proof (collect_roots_spec h (merged_roots (omro ob)) [] []) as [Hel Hnd].
  fold ms in Hel, Hnd.
  destruct (sorted_spec ms) as [Hperm Hsorted].
  assert (∀ n v, (n, v) ∈ Monkey.sorted ms ↔
                 mro_lookup h (merged_roots (omro ob)) n = Some v) as Hel'.
  { intros n v. rewrite Hperm, Hel. set_solver. }
  assert (NoDup (Monkey.sorted ms).*1) as Hnd'.
  { rewrite Hperm. apply Hnd; [constructor|set_solver]. }
  assert (Monkey._get_members (S fuel) h (VRef T) true None false
          = Ok (Monkey.sorted ms)) as Hget by by apply get_members_of_class.
  exists (Monkey.sorted ms). split_and!; try done.
  - intros flt recursive use_decorators.
    unfold Monkey.create_patches. rewrite create_patches_loop_step.
    cbn [Monkey.obj]. by rewrite Hget.
  - unfold Monkey.create_patches. rewrite create_patches_loop_step.
    cbn [Monkey.obj]. rewrite Hget. run.
    rewrite create_patches_members_unfiltered by done. simpl.
    apply create_patches_loop_done.
  - intros h' ob' HT' Hclass' Hsame.
    rewrite (get_members_of_class h' T ob') by done. f_equal.
    set (ms' := Monkey.collect_roots h' Monkey._true
                  (VRef <$> merged_roots (omro ob')) [] []).
    pose proof (collect_roots_spec h' (merged_roots (omro ob')) [] [])
      as [Hel2 Hnd2].
    fold ms' in Hel2, Hnd2.
    destruct (sorted_spec ms') as [Hperm2 Hsorted2].
    apply sorted_members_unique; try done.
    + rewrite Hperm2. apply Hnd2; [constructor|set_solver].
    + intros [n v]. rewrite Hel', Hperm2, Hel2, Hsame. set_solver.
Qed.

Lemma members_keep_most_derived_definition_witness :
  ∃ members,
    Monkey._get_members 1 World.templates (VRef World.Derived) true None false
      = Ok members ∧
    (∀ n v, (n, v) ∈ members ↔
            mro_lookup World.templates
              (merged_roots [World.Derived; World.Template; object_ref]) n
            = Some v) ∧
    NoDup members.*1 ∧
    StronglySorted Monkey.member_le members ∧
    Monkey.create_patches 1 1 World.templates (VRef World.Host)
      (VRef World.Derived) VNone true None false false
    = Ok ((λ m, Monkey.mkPatch (VRef World.Host) m.1 m.2 VNone) <$> members).
Proof.
  destruct (members_keep_most_derived_definition World.templates World.Derived
              (World.class_ "Derived"
                 [World.Derived; World.Template; object_ref]
                 [("__module__", VStr "patches");
                  ("foo", VRef World.derived_foo); ("extra", VInt 7)])
              0 1 (VRef World.Host) VNone eq_refl eq_refl eq_refl)
    as (members & H1 & H2 & H3 & H4 & _ & H6 & _).
  exists members. split_and!; assumption.
Defined.

(** The subclass's [foo] is the one that comes out. *)
Example derived_members :
  Monkey._get_members 1 World.templates (VRef World.Derived) true None false
  = Ok [("Inner", VRef World.TInner); ("__doc__", VNone);
        ("__module__", VStr "patches"); ("_bar", VRef World._bar);
        ("extra", VInt 7); ("foo", VRef World.derived_foo)].
Proof. vm_compute. reflexivity. Qed.

(* ===================================================================== *)
(** ** The builder on a template with a nested class: C7                  *)
(* ===================================================================== *)

Section builder.
Import Monkey.
Context (depth : nat) (h : heap).

Lemma create_patches_members_app flt rec dec parent acc l1 l2 :
  create_patches_members depth h flt rec dec parent acc (l1 ++ l2)
  = (acc' ← create_patches_members depth h flt rec dec parent acc l1;
     create_patches_members depth h flt rec dec parent acc' l2).
Proof.
  revert acc. induction l1 as [|m l1 IH]; intros acc; simpl; [done|].
  run. destruct (create_patches_member _ _ _ _ _ _ _ _) as [acc'|e]; [|done].
  apply IH.
Qed.

Lemma create_patches_member_private parent stg acc m :
  deepcopy h (settings parent) = Ok stg →
  private_member depth h m →
  create_patches_member depth h default_filter true true parent acc m = Ok acc.
Proof.
  intros Hcopy [Hpriv (base & Hbase & Hdata)]. destruct acc as [stack out].
  destruct m as [n v]. simpl in *. unfold create_patches_member.
  rewrite Hcopy. run. rewrite Hbase, Hdata. simpl.
  unfold default_filter. rewrite Hpriv, orb_true_r. done.
Qed.

Lemma create_patches_members_private parent stg acc l :
  deepcopy h (settings parent) = Ok stg →
  Forall (private_member depth h) l →
  create_patches_members depth h default_filter true true parent acc l = Ok acc.
Proof.
  intros Hcopy Hall. induction Hall as [|m l Hm _ IH]; simpl; [done|].
  by erewrite create_patches_member_private.
Qed.

(** A public member that is not a class becomes a leaf patch. *)
Lemma create_patches_member_leaf parent stg stack out n v :
  deepcopy h (settings parent) = Ok stg →
  undecorated depth h v →
  is_module h v = false → is_class h v = false →
  startswith n "_" = false →
  create_patches_member depth h default_filter true true parent (stack, out) (n, v)
  = Ok (stack, out ++ [mkPatch (destination parent) n v stg]).
Proof.
  intros Hcopy (base & Hbase & Hdata) Hmod Hcls Hpub.
  unfold create_patches_member. rewrite Hcopy. run. rewrite Hbase, Hdata. simpl.
  unfold default_filter. rewrite Hmod, Hpub. simpl. by rewrite Hcls.
Qed.

(** A public member that is a class: descent when the destination has a
    class of that name, a leaf patch otherwise. *)
Lemma create_patches_member_class parent stg stack out n v :
  deepcopy h (settings parent) = Ok stg →
  undecorated depth h v →
  is_module h v = false → is_class h v = true →
  startswith n "_" = false →
  create_patches_member depth h default_filter true true parent (stack, out) (n, v)
  = match get_attribute h (destination parent) n with
    | Raise AttributeError =>
        Ok (stack, out ++ [mkPatch (destination parent) n v stg])
    | Raise e => Raise e
    | Ok target =>
        if is_class h target
        then Ok (stack ++ [mkPatch target n v stg], out)
        else Ok (stack, out ++ [mkPatch (destination parent) n v stg])
    end.
Proof.
  intros Hcopy (base & Hbase & Hdata) Hmod Hcls Hpub.
  unfold create_patches_member. rewrite Hcopy. run. rewrite Hbase, Hdata. simpl.
  unfold default_filter. rewrite Hmod, Hpub. simpl. by rewrite Hcls.
Qed.
End builder.

(** In a sorted list of members without repeated names, two members with
    names in order stand in that order, the others around them. *)
Lemma sorted_members_split (P : string * value → Prop)
    (ms : list (string * value)) k1 v1 k2 v2 :
  StronglySorted Monkey.member_le ms → NoDup ms.*1 →
  (k1, v1) ∈ ms → (k2, v2) ∈ ms →
  String.le k1 k2 → k1 ≠ k2 →
  (∀ m, m ∈ ms → m.1 ≠ k1 → m.1 ≠ k2 → P m) →
  ∃ l1 l2 l3, ms = l1 ++ (k1, v1) :: l2 ++ (k2, v2) :: l3 ∧
              Forall P l1 ∧ Forall P l2 ∧ Forall P l3.
Proof.
  intros Hsorted Hnd H1 H2 Hle Hne HP.
  apply list_elem_of_split in H1 as (l1 & r & ->).
  assert ((k2, v2) ∈ r) as H2r.
  { apply elem_of_app in H2 as [H2|H2].
    - pose proof (StronglySorted_app_1_elem_of _ _ _ (k2, v2) (k1, v1)
                    Hsorted H2 ltac:(left)) as Hord.
      destruct Hne. by apply (anti_symm String.le).
    - apply elem_of_cons in H2 as [[=]|H2]; [by destruct Hne|done]. }
  apply list_elem_of_split in H2r as (l2 & l3 & ->).
  exists l1, l2, l3. split; [done|].
  rewrite !fmap_app, !fmap_cons, !fmap_app, !fmap_cons in Hnd. simpl in Hnd.
  apply NoDup_app in Hnd as (_ & Hl1 & Hnd).
  apply NoDup_cons in Hnd as (Hk1 & Hnd).
  apply NoDup_app in Hnd as (_ & Hl2 & Hnd).
  apply NoDup_cons in Hnd as (Hk2 & _).
  rewrite !Forall_forall. split_and!; intros m Hm; apply HP.
  - set_solver.
  - intros Heq. apply (Hl1 m.1); [by apply list_elem_of_fmap_2|]. set_solver.
  - intros Heq. apply (Hl1 m.1); [by apply list_elem_of_fmap_2|]. set_solver.
  - set_solver.
  - intros Heq. apply Hk1. rewrite <-Heq.
    apply elem_of_app. left. by apply list_elem_of_fmap_2.
  - intros Heq. apply (Hl2 m.1); [by apply list_elem_of_fmap_2|]. set_solver.
  - set_solver.
  - intros Heq. apply Hk1. rewrite <-Heq.
    apply elem_of_app. right. right. by apply list_elem_of_fmap_2.
  - intros Heq. apply Hk2. rewrite <-Heq. by apply list_elem_of_fmap_2.
Qed.

(** The members of a class that exposes two public members. *)
Lemma exposes_two_members depth h c k1 v1 k2 v2 fuel :
  exposes_two depth h c k1 v1 k2 v2 →
  String.le k1 k2 → k1 ≠ k2 →
  ∃ l1 l2 l3,
    Monkey._get_members (S fuel) h (VRef c) true None false
    = Ok (l1 ++ (k1, v1) :: l2 ++ (k2, v2) :: l3) ∧
    Forall (private_member depth h) l1 ∧
    Forall (private_member depth h) l2 ∧
    Forall (private_member depth h) l3.
Proof.
  intros (ob & Hc & Hclass & Hroots & Hk1 & Hk2 & Hothers) Hle Hne.
  destruct (members_keep_most_derived_definition h c ob fuel 0 VNone VNone
              Hc Hclass eq_refl) as (ms & Hget & Hel & Hnd & Hsorted & _).
  rewrite Hroots in Hel. simpl in Hel.
  assert (∀ n v, (n, v) ∈ ms ↔ dict_get (odict ob) n = Some v) as Hel'.
  { intros n v. rewrite Hel, Hc. simpl. by destruct (dict_get (odict ob) n). }
  destruct (sorted_members_split (private_member depth h) ms k1 v1 k2 v2)
    as (l1 & l2 & l3 & -> & ? & ? & ?); try done.
  - by apply Hel'.
  - by apply Hel'.
  - intros [n v] Hm ??. apply Hothers; [by apply Hel'|done..].
  - by exists l1, l2, l3.
Qed.

Lemma create_patches_members_two depth h parent stg acc l1 m1 l2 m2 l3 :
  Monkey.deepcopy h (Monkey.settings parent) = Ok stg →
  Forall (private_member depth h) l1 →
  Forall (private_member depth h) l2 →
  Forall (private_member depth h) l3 →
  Monkey.create_patches_members depth h Monkey.default_filter true true parent
    acc (l1 ++ m1 :: l2 ++ m2 :: l3)
  = (acc1 ← Monkey.create_patches_member depth h Monkey.default_filter
               true true parent acc m1;
     Monkey.create_patches_member depth h Monkey.default_filter
       true true parent acc1 m2).
Proof.
  intros Hcopy H1 H2 H3.
  rewrite create_patches_members_app.
  erewrite create_patches_members_private by done. run.
  destruct (Monkey.create_patches_member _ _ _ _ _ _ acc m1) as [acc1|e]; [|done].
  run. rewrite create_patches_members_app.
  erewrite create_patches_members_private by done. run.
  destruct (Monkey.create_patches_member _ _ _ _ _ _ acc1 m2) as [acc2|e]; [|done].
  run. by erewrite create_patches_members_private.
Qed.

(** C7.  A template class exposes [foo], [_bar] and the nested class
    [Inner] with members [a] and [b] (whatever other private members the
    two classes have).  With the default filter, [create_patches] yields a
    patch for [foo] and none for [_bar]; when the destination has a member
    [Inner] that is a class it yields the patches of [a] and [b] on that
    class, and otherwise one patch that replaces [Inner] as a whole. *)
Theorem create_patches_on_nested_template
    (fuel depth : nat) (h : heap) (D : value) (T I : ref)
    (vfoo vbar va vb stg : value) :
  exposes_two depth h T "Inner" (VRef I) "foo" vfoo →
  own h T "_bar" = Some vbar →
  exposes_two depth h I "a" va "b" vb →
  undecorated depth h (VRef I) →
  leaf_member depth h vfoo →
  leaf_member depth h va →
  leaf_member depth h vb →
  Monkey.deepcopy h stg = Ok stg →
  (∀ target,
     Monkey.get_attribute h D "Inner" = Ok target →
     is_class h target = true →
     Monkey.create_patches (S (S fuel)) depth h D (VRef T) stg true
       (Some Monkey.default_filter) true true
     = Ok [Monkey.mkPatch D "foo" vfoo stg;
           Monkey.mkPatch target "a" va stg;
           Monkey.mkPatch target "b" vb stg]) ∧
  (Monkey.get_attribute h D "Inner" = Raise AttributeError ∨
   (∃ target, Monkey.get_attribute h D "Inner" = Ok target ∧
              is_class h target = false) →
   Monkey.create_patches (S (S fuel)) depth h D (VRef T) stg true
     (Some Monkey.default_filter) true true
   = Ok [Monkey.mkPatch D "Inner" (VRef I) stg;
         Monkey.mkPatch D "foo" vfoo stg]).
Proof.
  intros HT Hbar HI HIund (Hfu & Hfm & Hfc) (Hau & Ham & Hac) (Hbu & Hbm & Hbc)
    Hcopy.
  destruct (exposes_two_members depth h T "Inner" (VRef I) "foo" vfoo (S fuel) HT)
    as (t1 & t2 & t3 & HTm & Ht1 & Ht2 & Ht3); [done..|].
  destruct (exposes_two_members depth h I "a" va "b" vb fuel HI)
    as (i1 & i2 & i3 & HIm & Hi1 & Hi2 & Hi3); [done..|].
  assert (is_class h (VRef I) = true ∧ is_module h (VRef I) = false)
    as [HIc HImod].
  { destruct HI as (iob & HIo & Hk & _).
    unfold is_class, is_module, has_kind. rewrite HIo, Hk. done. }
  assert (Monkey.create_patches (S (S fuel)) depth h D (VRef T) stg true
                 (Some Monkey.default_filter) true true
               = (acc ← (acc1 ← Monkey.create_patches_member depth h
                                   Monkey.default_filter true true
                                   (Monkey.mkPatch D "" (VRef T) stg) ([], [])
                                   ("Inner", VRef I);
                         Monkey.create_patches_member depth h
                           Monkey.default_filter true true
                           (Monkey.mkPatch D "" (VRef T) stg) acc1
                           ("foo", vfoo));
                  Monkey.create_patches_loop (S fuel) depth h true
                    Monkey.default_filter true true acc.1 acc.2)) as Hstep.
  { unfold Monkey.create_patches. rewrite create_patches_loop_step.
    cbn [Monkey.obj Monkey.filter_or_true]. rewrite HTm. run.
    by erewrite create_patches_members_two. }
  split.
  - intros target Hget Hcls. rewrite Hstep.
    erewrite create_patches_member_class by done. simpl.
    rewrite Hget, Hcls. run.
    erewrite create_patches_member_leaf by done. simpl.
    rewrite create_patches_loop_step. cbn [Monkey.obj]. rewrite HIm. run.
    erewrite create_patches_members_two by done.
    erewrite create_patches_member_leaf by done. run.
    erewrite create_patches_member_leaf by done. simpl.
    apply create_patches_loop_done.
  - intros Hno. rewrite Hstep.
    erewrite create_patches_member_class by done. simpl.
    cbn [Monkey.destination].
    destruct Hno as [Hget|(target & Hget & Hcls)]; rewrite Hget, ?Hcls; run;
      erewrite create_patches_member_leaf by done; simpl;
    apply create_patches_loop_done.
Qed.

(** The hypotheses of C7 on the concrete template. *)
Ltac concrete_members :=
  let n := fresh "n" in let v := fresh "v" in let H := fresh "H" in
  intros n v H ? ?; simpl in H;
  repeat match type of H with
         | context [decide (?k = n)] => destruct (decide (k = n)) as [<-|?]
         end;
  simplify_eq; try done;
  (split; [reflexivity|eexists; split; reflexivity]).

Lemma Template_exposes :
  exposes_two 1 World.templates World.Template
    "Inner" (VRef World.TInner) "foo" (VRef World.foo).
Proof.
  eexists. split_and!; [reflexivity..|]. concrete_members.
Defined.

Lemma TInner_exposes :
  exposes_two 1 World.templates World.TInner "a" (VInt 1) "b" (VInt 2).
Proof.
  eexists. split_and!; [reflexivity..|]. concrete_members.
Defined.

Lemma create_patches_on_nested_template_witness :
  Monkey.create_patches 2 1 World.templates (VRef World.Host)
    (VRef World.Template) VNone true (Some Monkey.default_filter) true true
  = Ok [Monkey.mkPatch (VRef World.Host) "foo" (VRef World.foo) VNone;
        Monkey.mkPatch (VRef World.HInner) "a" (VInt 1) VNone;
        Monkey.mkPatch (VRef World.HInner) "b" (VInt 2) VNone] ∧
  Monkey.create_patches 2 1 World.templates (VRef World.Fan)
    (VRef World.Template) VNone true (Some Monkey.default_filter) true true
  = Ok [Monkey.mkPatch (VRef World.Fan) "Inner" (VRef World.TInner) VNone;
        Monkey.mkPatch (VRef World.Fan) "foo" (VRef World.foo) VNone].
Proof.
  assert (∀ v, v = VRef World.foo ∨ v = VInt 1 ∨ v = VInt 2 →
               leaf_member 1 World.templates v) as Hleaf.
  { intros v [->|[->| ->]];
      (split_and!; [eexists; split; reflexivity|reflexivity..]). }
  split.
  - apply (create_patches_on_nested_template 0 1 World.templates
             (VRef World.Host) World.Template World.TInner
             (VRef World.foo) (VRef World._bar) (VInt 1) (VInt 2) VNone);
      [exact Template_exposes|reflexivity|exact TInner_exposes
      |eexists; split; reflexivity|apply Hleaf; auto..|reflexivity
      |reflexivity|reflexivity].
  - apply (create_patches_on_nested_template 0 1 World.templates
             (VRef World.Fan) World.Template World.TInner
             (VRef World.foo) (VRef World._bar) (VInt 1) (VInt 2) VNone);
      [exact Template_exposes|reflexivity|exact TInner_exposes
      |eexists; split; reflexivity|apply Hleaf; auto..|reflexivity
      |left; reflexivity].
Defined.

(* ===================================================================== *)
(** ** Discovery: C9                                                      *)
(* ===================================================================== *)

Section discovery.
Import Monkey.
Context (env : importer) (h : heap).

Lemma yielded_kids_app recursive k1 k2 :
  yielded_kids recursive (k1 ++ k2)
  = yielded_kids recursive k1 ++ yielded_kids recursive k2.
Proof. unfold yielded_kids. by rewrite filter_app, fmap_app. Qed.

Lemma pushed_kids_app recursive k1 k2 :
  pushed_kids recursive (k1 ++ k2)
  = pushed_kids recursive k1 ++ pushed_kids recursive k2.
Proof. unfold pushed_kids. by rewrite filter_app, fmap_app. Qed.

Lemma module_iterator_entries_spec package pname recursive kids stack yielded :
  getattr h package "__name__" = Ok (VStr pname) →
  Forall (imports_to env pname) kids →
  _module_iterator_entries env h package recursive kids.*1 stack yielded
  = (stack ++ pushed_kids recursive kids,
     yielded ++ yielded_kids recursive kids, Ok ()).
Proof.
  intros Hname Hall. revert stack yielded.
  induction Hall as [|[[n is_pkg] m] kids Hm _ IH]; intros stack yielded.
  { unfold pushed_kids, yielded_kids. simpl. by rewrite !app_nil_r. }
  unfold imports_to in Hm. simpl in Hm. simpl. rewrite Hname, Hm.
  change (((n, is_pkg), m) :: kids) with ([((n, is_pkg), m)] ++ kids).
  rewrite yielded_kids_app, pushed_kids_app, !app_assoc.
  destruct is_pkg, recursive; rewrite IH; unfold pushed_kids, yielded_kids;
    simpl; by rewrite ?app_nil_r.
Qed.

Lemma module_iterator_paths_spec package pname recursive paths kids stack yielded :
  getattr h package "__name__" = Ok (VStr pname) →
  kids.*1 = all_entries env paths →
  Forall (imports_to env pname) kids →
  _module_iterator_paths env h package recursive paths stack yielded
  = (stack ++ pushed_kids recursive kids,
     yielded ++ yielded_kids recursive kids, Ok ()).
Proof.
  intros Hname. revert kids stack yielded.
  induction paths as [|path paths IH]; intros kids stack yielded Hk Hall.
  { simpl in Hk. apply fmap_nil_inv in Hk as ->.
    unfold pushed_kids, yielded_kids. simpl. by rewrite !app_nil_r. }
  simpl in Hk. apply fmap_app_inv in Hk as (k1 & k2 & Hk1 & Hk2 & ->).
  apply Forall_app in Hall as [Hall1 Hall2]. simpl.
  change (match path with VStr p => iter_modules env p | _ => [] end)
    with (path_entries env path).
  rewrite Hk1, (module_iterator_entries_spec package pname) by done.
  rewrite (IH k2) by done.
  by rewrite yielded_kids_app, pushed_kids_app, !app_assoc.
Qed.

(** Whatever happens, the loops only add to what was yielded. *)
Lemma module_iterator_entries_extends package recursive es stack yielded :
  ∃ more, (_module_iterator_entries env h package recursive es stack yielded).1.2
          = yielded ++ more.
Proof.
  revert stack yielded. induction es as [|[n is_pkg] es IH]; intros stack yielded.
  { exists []. simpl. by rewrite app_nil_r. }
  simpl. destruct (getattr h package "__name__") as [[]|];
    try (exists []; simpl; by rewrite app_nil_r).
  destruct (import_module env _) as [m|];
    [|exists []; simpl; by rewrite app_nil_r].
  destruct is_pkg, recursive.
  - destruct (IH (stack ++ [m]) (yielded ++ [m])) as [more ->].
    exists (m :: more). by rewrite <-app_assoc.
  - apply IH.
  - destruct (IH stack (yielded ++ [m])) as [more ->].
    exists (m :: more). by rewrite <-app_assoc.
  - destruct (IH stack (yielded ++ [m])) as [more ->].
    exists (m :: more). by rewrite <-app_assoc.
Qed.

Lemma module_iterator_paths_extends package recursive paths stack yielded :
  ∃ more, (_module_iterator_paths env h package recursive paths stack yielded).1.2
          = yielded ++ more.
Proof.
  revert stack yielded. induction paths as [|path paths IH]; intros stack yielded.
  { exists []. simpl. by rewrite app_nil_r. }
  simpl.
  destruct (module_iterator_entries_extends package recursive
              (match path with VStr p => iter_modules env p | _ => [] end)
              stack yielded) as [more1 H1].
  destruct (_module_iterator_entries _ _ _ _ _ _ _) as [[stack' yielded'] [[]|e]];
    simpl in H1; subst.
  - destruct (IH stack' (yielded ++ more1)) as [more2 ->].
    exists (more1 ++ more2). by rewrite app_assoc.
  - by exists more1.
Qed.

Lemma module_iterator_loop_extends fuel recursive stack yielded :
  ∃ more, (_module_iterator_loop fuel env h recursive stack yielded).1
          = yielded ++ more.
Proof.
  revert stack yielded. induction fuel as [|fuel IH]; intros stack yielded.
  { exists []. destruct stack; simpl; by rewrite app_nil_r. }
  destruct stack as [|package stack]; simpl.
  { exists []. by rewrite app_nil_r. }
  destruct (getattr_default h package "__path__" (VList []) ≫= py_iter)
    as [paths|e]; [|exists []; simpl; by rewrite app_nil_r].
  destruct (module_iterator_paths_extends package recursive paths stack yielded)
    as [more1 H1].
  destruct (_module_iterator_paths _ _ _ _ _ _ _) as [[stack' yielded'] [[]|e]];
    simpl in H1; subst.
  - destruct (IH stack' (yielded ++ more1)) as [more2 ->].
    exists (more1 ++ more2). by rewrite app_assoc.
  - by exists more1.
Qed.

(** The root comes first. *)
Lemma module_iterator_root_first fuel root recursive :
  ∃ more ended,
    _module_iterator fuel env h root recursive = (root :: more, ended).
Proof.
  unfold _module_iterator.
  destruct (module_iterator_loop_extends fuel recursive [root] [root])
    as [more Hmore].
  destruct (_module_iterator_loop _ _ _ _ _ _) as [ys ended]. simpl in Hmore.
  subst. by exists more, ended.
Qed.

(** Then come the children of the root, in the order of the listing. *)
Lemma module_iterator_children fuel root recursive pname ps paths kids :
  getattr h root "__name__" = Ok (VStr pname) →
  getattr_default h root "__path__" (VList []) = Ok ps →
  py_iter ps = Ok paths →
  kids.*1 = all_entries env paths →
  Forall (imports_to env pname) kids →
  ∃ more ended,
    _module_iterator (S fuel) env h root recursive
    = (root :: yielded_kids recursive kids ++ more, ended).
Proof.
  intros Hname Hpath Hiter Hkids Hall. unfold _module_iterator. simpl.
  rewrite Hpath. run. rewrite Hiter.
  rewrite (module_iterator_paths_spec root pname recursive paths kids) by done.
  simpl.
  destruct (module_iterator_loop_extends fuel recursive
              (pushed_kids recursive kids)
              (root :: yielded_kids recursive kids)) as [more Hmore].
  destruct (_module_iterator_loop _ _ _ _ _ _) as [ys ended]. simpl in Hmore.
  subst. by exists more, ended.
Qed.

(** The member loop of [find_patches] only appends. *)
Lemma find_patches_members_acc depth ms out :
  find_patches_members depth h ms out
  = (ps ← find_patches_members depth h ms []; Ok (out ++ ps)).
Proof.
  revert out. induction ms as [|[n v] ms IH]; intros out; simpl.
  { run. by rewrite app_nil_r. }
  run. destruct (_get_base depth h v) as [base|e]; [|done].
  destruct (get_decorator_data h base) as [data|e]; [|done].
  destruct (is_None data); [apply IH|].
  destruct (data_patches data) as [patches|e]; [|done].
  destruct (py_iter patches) as [more|e]; [|done].
  rewrite (IH (out ++ more)), (IH more). run.
  destruct (find_patches_members depth h ms []) as [ps|e]; [|done].
  by rewrite app_assoc.
Qed.

Lemma get_members_loop_extends fuel tb flt rec stack out ms :
  _get_members_loop fuel h tb flt rec stack out = Ok ms →
  ∃ more, ms = out ++ more.
Proof.
  revert stack out. induction fuel as [|fuel IH]; intros stack out.
  { destruct stack; simpl; [|done]. intros [= <-]. exists []. by rewrite app_nil_r. }
  destruct stack as [|o stack]; simpl.
  { intros [= <-]. exists []. by rewrite app_nil_r. }
  intros [more ->]%IH. eexists. by rewrite <-app_assoc.
Qed.

(** The top-level members of a module come first in what
    [_get_members] returns. *)
Lemma get_members_toplevel_first fuel module ms :
  _get_members fuel h module true None true = Ok ms →
  ∃ nested, ms = toplevel_members h module ++ nested.
Proof.
  unfold _get_members. destruct fuel as [|fuel]; simpl; [done|].
  intros [more ->]%get_members_loop_extends. by exists more.
Qed.
End discovery.

Lemma yielded_kids_recursive (kids : list ((string * bool) * value)) :
  yielded_kids true kids = kids.*2.
Proof.
  unfold yielded_kids. f_equal. induction kids as [|kid kids IH]; [done|].
  rewrite filter_cons_True; [by rewrite IH|]. apply orb_true_r.
Qed.


(* ===================================================================== *)
(** * Beyond the claims                                                   *)
(* ===================================================================== *)

(* ===================================================================== *)
(** ** Unwrapping: _get_base                                             *)
(* ===================================================================== *)

Lemma get_base_unwrapped depth h f :
  unwrapped h f → Monkey._get_base (S depth) h f = Ok f.
Proof.
  intros [Hno Hp]. unfold Monkey._get_base. rewrite Hno. run.
  destruct f; try done. by destruct (Hp f).
Qed.

Lemma get_base_wrap_with depth h w f :
  Monkey._get_base (S depth) h (wrap_with w f) = Monkey._get_base depth h f.
Proof.
  destruct w; done.
Qed.

(** X2.  [_get_base] goes through any stack of wrappers (bound methods,
    [staticmethod], [classmethod] and [property] objects) down to the
    callable inside.  It takes one level of recursion for each wrapper and
    one for the callable: the callable is returned when the recursion
    limit leaves that many levels, and [RecursionError] is raised
    otherwise. *)
Theorem get_base_through_wrappers
    (h : heap) (ws : list wrapper) (f : value) (depth : nat) :
  unwrapped h f →
  Monkey._get_base depth h (wrapped ws f)
  = if decide (length ws < depth) then Ok f else Raise RecursionError.
Proof.
  intros Hf. revert depth. induction ws as [|w ws IH]; intros depth; simpl.
  - destruct depth; [done|]. rewrite decide_True by lia.
    by apply get_base_unwrapped.
  - destruct depth; [done|]. rewrite get_base_wrap_with, IH.
    repeat case_decide; try done; lia.
Qed.

Lemma get_base_through_wrappers_witness :
  Monkey._get_base 3 World.world
    (wrapped [WBound (VRef World.fan); WStaticmethod] (VRef World.set_speed))
  = Ok (VRef World.set_speed) ∧
  Monkey._get_base 2 World.world
    (wrapped [WBound (VRef World.fan); WStaticmethod] (VRef World.set_speed))
  = Raise RecursionError.
Proof.
  assert (unwrapped World.world (VRef World.set_speed)) as Hf.
  { split; [reflexivity|discriminate]. }
  split.
  - exact (get_base_through_wrappers World.world
             [WBound (VRef World.fan); WStaticmethod] (VRef World.set_speed) 3 Hf).
  - exact (get_base_through_wrappers World.world
             [WBound (VRef World.fan); WStaticmethod] (VRef World.set_speed) 2 Hf).
Defined.

(** X3.  What [_get_base] returns is unwrapped: it has no [__func__] and is no
    property, and [_get_base] returns it as it is.  Unwrapping twice is
    unwrapping once. *)
Theorem get_base_result_is_unwrapped (h : heap) (depth : nat) (v b : value) :
  Monkey._get_base depth h v = Ok b →
  unwrapped h b ∧ ∀ depth', Monkey._get_base (S depth') h b = Ok b.
Proof.
  revert v. induction depth as [|depth IH]; intros v; [done|].
  intros H.
  assert (unwrapped h b) as Hb;
    [|split; [done|intros; by apply get_base_unwrapped]].
  revert H. unfold Monkey._get_base at 1. fold Monkey._get_base.
  destruct (hasattr h v "__func__") as [[]|e] eqn:Hh; run; try done.
  - destruct (getattr h v "__func__") as [f|e]; run; [|done].
    intros H. by apply IH in H as [? _].
  - destruct v; try (intros [= <-]; split; [done|congruence]).
    + intros H. by apply IH in H as [? _].
    + unfold hasattr, getattr, object_getattribute in Hh. by simpl in Hh.
    + unfold hasattr, getattr, object_getattribute in Hh. by simpl in Hh.
Qed.

Lemma get_base_result_is_unwrapped_witness :
  unwrapped World.world (VRef World.set_speed) ∧
  ∀ depth', Monkey._get_base (S depth') World.world (VRef World.set_speed)
            = Ok (VRef World.set_speed).
Proof.
  apply (get_base_result_is_unwrapped World.world 2
           (VStaticmethod (VRef World.set_speed))).
  reflexivity.
Defined.

(* ===================================================================== *)
(** ** The builder with and without the decorators                       *)
(* ===================================================================== *)

Lemma create_patches_member_left_out depth h flt rec parent stg acc m :
  Monkey.deepcopy h (Monkey.settings parent) = Ok stg →
  left_out depth h flt m →
  Monkey.create_patches_member depth h flt rec true parent acc m = Ok acc.
Proof.
  intros Hcopy (data & (base & Hbase & Hdata) & Hcase).
  destruct acc as [stack out], m as [n v]. simpl in *.
  unfold Monkey.create_patches_member. rewrite Hcopy. run.
  rewrite Hbase, Hdata.
  destruct Hcase as [[[->|(ps & ov & ->)] Hflt]|(ps & ov & ->)]; simpl;
    by rewrite ?Hflt.
Qed.

Lemma create_patches_members_left_out depth h flt rec parent stg acc ms :
  Monkey.deepcopy h (Monkey.settings parent) = Ok stg →
  Forall (left_out depth h flt) ms →
  Monkey.create_patches_members depth h flt rec true parent acc ms = Ok acc.
Proof.
  intros Hcopy Hall. induction Hall as [|m ms Hm _ IH]; simpl; [done|].
  by erewrite create_patches_member_left_out.
Qed.

Lemma class_members_elem h T ob fuel :
  h !! T = Some ob → okind ob = KClass →
  ∃ members,
    Monkey._get_members (S fuel) h (VRef T) true None false = Ok members ∧
    ∀ n v, (n, v) ∈ members ↔ mro_lookup h (merged_roots (omro ob)) n = Some v.
Proof.
  intros HT Hclass. eexists. split; [by apply get_members_of_class|].
  intros n v.
  pose proof (collect_roots_spec h (merged_roots (omro ob)) [] []) as [Hel _].
  destruct (sorted_spec (Monkey.collect_roots h Monkey._true
               (VRef <$> merged_roots (omro ob)) [] [])) as [Hperm _].
  rewrite Hperm, Hel. set_solver.
Qed.

(** X4.  With the decorators in use, [create_patches] on a class returns no
    patch when each member is rejected by the filter and has no [filter]
    decorator, or has [filter(False)].  The filter is asked about the
    member under the name it has in the class: a [name] or [destination]
    override does not bring a member in.  So a plugin class whose methods
    have private names gives no patch under the default filter, whatever
    [name] decorators they carry. *)
Theorem create_patches_leaves_out
    (fuel depth : nat) (h : heap) (D stg : value) (T : ref) (ob : object)
    (flt : Monkey.filter_fn) (recursive : bool) :
  h !! T = Some ob →
  okind ob = KClass →
  Monkey.deepcopy h stg = Ok stg →
  (∀ n v, mro_lookup h (merged_roots (omro ob)) n = Some v →
          left_out depth h flt (n, v)) →
  Monkey.create_patches (S fuel) depth h D (VRef T) stg true (Some flt)
    recursive true = Ok [].
Proof.
  intros HT Hclass Hcopy Hall.
  destruct (class_members_elem h T ob fuel HT Hclass) as (ms & Hms & Hel).
  unfold Monkey.create_patches. rewrite create_patches_loop_step.
  cbn [Monkey.obj Monkey.filter_or_true]. rewrite Hms. run.
  rewrite (create_patches_members_left_out depth h flt recursive _ stg); try done.
  - simpl. apply create_patches_loop_done.
  - apply Forall_forall. intros [n v] Hin. apply Hall. by apply Hel.
Qed.

(** The members of a concrete class, one by one. *)
Ltac listed_members :=
  let n := fresh "n" in let v := fresh "v" in let H := fresh "H" in
  intros n v H; simpl in H;
  repeat match type of H with
         | context [?h !! ?c] =>
             let o := eval vm_compute in (h !! c) in
             change (h !! c) with o in H; simpl in H
         end;
  repeat match type of H with
         | context [decide (?k = n)] => destruct (decide (k = n)) as [<-|?]
         end;
  simplify_eq.

Ltac left_out_by_filter :=
  eexists; (split; [eexists; split; reflexivity|]);
  left; (split; [|reflexivity]);
  first [left; reflexivity | right; by do 2 eexists].

Lemma create_patches_leaves_out_witness :
  Monkey.create_patches 1 2 World.renamed (VRef World.Fan)
    (VRef World._FanScalingPatches) VNone true (Some Monkey.default_filter)
    false true = Ok [].
Proof.
  apply (create_patches_leaves_out 0 2 World.renamed (VRef World.Fan) VNone
           World._FanScalingPatches World.plugin_class Monkey.default_filter
           false); [reflexivity..|].
  listed_members; left_out_by_filter.
Defined.

Lemma class_members_nodup h T ob fuel :
  h !! T = Some ob → okind ob = KClass →
  ∃ members,
    Monkey._get_members (S fuel) h (VRef T) true None false = Ok members ∧
    (∀ n v, (n, v) ∈ members ↔ mro_lookup h (merged_roots (omro ob)) n = Some v) ∧
    NoDup members.*1.
Proof.
  intros HT Hclass. eexists. split; [by apply get_members_of_class|].
  pose proof (collect_roots_spec h (merged_roots (omro ob)) [] []) as [Hel Hnd].
  destruct (sorted_spec (Monkey.collect_roots h Monkey._true
               (VRef <$> merged_roots (omro ob)) [] [])) as [Hperm _].
  split.
  - intros n v. rewrite Hperm, Hel. set_solver.
  - rewrite Hperm. apply Hnd; [constructor|set_solver].
Qed.

Lemma members_split_at (ms : list (string * value)) k v :
  NoDup ms.*1 → (k, v) ∈ ms →
  ∃ l1 l2, ms = l1 ++ (k, v) :: l2 ∧
           ∀ m, m ∈ l1 ++ l2 → m ∈ ms ∧ m.1 ≠ k.
Proof.
  intros Hnd Hin. apply list_elem_of_split in Hin as (l1 & l2 & ->).
  exists l1, l2. split; [done|]. intros m Hm.
  rewrite fmap_app, fmap_cons in Hnd. simpl in Hnd.
  apply NoDup_app in Hnd as (_ & Hdisj & Hnd2).
  apply NoDup_cons in Hnd2 as [Hk _].
  apply elem_of_app in Hm as [Hm|Hm].
  - split; [set_solver|]. intros Heq. apply (Hdisj k).
    + rewrite <-Heq. by apply (list_elem_of_fmap_2 fst).
    + left.
  - split; [set_solver|]. intros Heq. apply Hk.
    rewrite <-Heq. by apply (list_elem_of_fmap_2 fst).
Qed.

Lemma create_patches_member_forced depth h flt rec parent stg stack out n v
    patches override p' :
  Monkey.deepcopy h (Monkey.settings parent) = Ok stg →
  decorated_as depth h v (VDecoratorData patches override (VBool true)) →
  Monkey._update h (Monkey.mkPatch (Monkey.destination parent) n v stg) override
    = Ok p' →
  rec = false ∨ is_class h v = false →
  Monkey.create_patches_member depth h flt rec true parent (stack, out) (n, v)
  = Ok (stack, out ++ [p']).
Proof.
  intros Hcopy (base & Hbase & Hdata) Hup Hleaf.
  unfold Monkey.create_patches_member. rewrite Hcopy. run.
  rewrite Hbase, Hdata. simpl. rewrite Hup. simpl.
  by destruct Hleaf as [->| ->]; rewrite ?andb_false_r.
Qed.

(** X5.  A member with [filter(True)] is patched though the filter rejects it.
    When every other member is left out, the result is the one patch of
    that member: on the given destination, under the member's name, with
    the overrides of the member's decorators applied by [_update]. *)
Theorem create_patches_forced_member
    (fuel depth : nat) (h : heap) (D stg : value) (T : ref) (ob : object)
    (flt : Monkey.filter_fn) (recursive : bool)
    (k : string) (v : value) (patches : list value)
    (override : list (string * value)) (p' : Monkey.Patch) :
  h !! T = Some ob →
  okind ob = KClass →
  Monkey.deepcopy h stg = Ok stg →
  mro_lookup h (merged_roots (omro ob)) k = Some v →
  decorated_as depth h v (VDecoratorData patches override (VBool true)) →
  Monkey._update h (Monkey.mkPatch D k v stg) override = Ok p' →
  recursive = false ∨ is_class h v = false →
  (∀ n w, mro_lookup h (merged_roots (omro ob)) n = Some w → n ≠ k →
          left_out depth h flt (n, w)) →
  Monkey.create_patches (S fuel) depth h D (VRef T) stg true (Some flt)
    recursive true = Ok [p'].
Proof.
  intros HT Hclass Hcopy Hk Hdata Hup Hleaf Hrest.
  destruct (class_members_nodup h T ob fuel HT Hclass) as (ms & Hms & Hel & Hnd).
  destruct (members_split_at ms k v Hnd) as (l1 & l2 & -> & Hothers);
    [by apply Hel|].
  assert (Forall (left_out depth h flt) l1 ∧ Forall (left_out depth h flt) l2)
    as [H1 H2].
  { split; apply Forall_forall; intros [n w] Hin;
      (destruct (Hothers (n, w)) as [Hin' Hne]; [set_solver|]);
      apply Hrest; [by apply Hel|done|by apply Hel|done]. }
  unfold Monkey.create_patches. rewrite create_patches_loop_step.
  cbn [Monkey.obj Monkey.filter_or_true]. rewrite Hms. run.
  rewrite create_patches_members_app.
  rewrite (create_patches_members_left_out depth h flt recursive _ stg) by done.
  run. simpl.
  erewrite create_patches_member_forced by done. run.
  rewrite (create_patches_members_left_out depth h flt recursive _ stg) by done.
  simpl. apply create_patches_loop_done.
Qed.

Lemma create_patches_forced_member_witness :
  Monkey.create_patches 1 2 World.forced (VRef World.Fan)
    (VRef World._FanScalingPatches) VNone true (Some Monkey.default_filter)
    false true
  = Ok [Monkey.mkPatch (VRef World.Fan) "_apply_speed"
          (VRef World._apply_speed) VNone].
Proof.
  apply (create_patches_forced_member 0 2 World.forced (VRef World.Fan) VNone
           World._FanScalingPatches World.plugin_class Monkey.default_filter
           false "_apply_speed" (VRef World._apply_speed) []
           [("name", VStr "_apply_speed")]);
    [reflexivity|reflexivity|reflexivity|reflexivity
    |eexists; split; reflexivity|reflexivity|by left|].
  listed_members; try done; left_out_by_filter.
Defined.

Lemma create_patches_members_filtered depth h flt D n0 o0 stg stack out ms :
  Monkey.deepcopy h stg = Ok stg →
  Monkey.create_patches_members depth h flt false false
    (Monkey.mkPatch D n0 o0 stg) (stack, out) ms
  = Ok (stack, out ++ ((λ m, Monkey.mkPatch D m.1 m.2 stg)
                         <$> filter (passes h flt) ms)).
Proof.
  intros Hcopy. revert out. induction ms as [|[n v] ms IH]; intros out; simpl.
  { by rewrite app_nil_r. }
  unfold Monkey.create_patches_member. cbn [Monkey.settings Monkey.destination].
  rewrite Hcopy. run. rewrite filter_cons.
  destruct (decide (passes h flt (n, v))) as [Hp|Hp]; unfold passes in Hp;
    simpl in Hp.
  - rewrite Hp. simpl. rewrite IH. simpl. by rewrite <-app_assoc.
  - apply not_true_is_false in Hp. rewrite Hp. simpl. by rewrite IH.
Qed.

(** X6.  Without recursion and without the decorators, [create_patches] on a
    class is the filter on its members: one patch for each member of
    [_get_members] that the filter accepts, in that order, each on the
    given destination and with the given settings. *)
Theorem create_patches_plain_filter
    (fuel depth : nat) (h : heap) (D stg : value) (T : ref) (ob : object)
    (flt : Monkey.filter_fn) :
  h !! T = Some ob →
  okind ob = KClass →
  Monkey.deepcopy h stg = Ok stg →
  ∃ members,
    Monkey._get_members (S fuel) h (VRef T) true None false = Ok members ∧
    Monkey.create_patches (S fuel) depth h D (VRef T) stg true (Some flt)
      false false
    = Ok ((λ m, Monkey.mkPatch D m.1 m.2 stg) <$> filter (passes h flt) members).
Proof.
  intros HT Hclass Hcopy. eexists. split; [by apply get_members_of_class|].
  unfold Monkey.create_patches. rewrite create_patches_loop_step.
  cbn [Monkey.obj Monkey.filter_or_true].
  rewrite (get_members_of_class h T ob) by done. run.
  rewrite create_patches_members_filtered by done. simpl.
  apply create_patches_loop_done.
Qed.

Lemma create_patches_plain_filter_witness :
  ∃ members,
    Monkey._get_members 1 World.templates (VRef World.Template) true None false
      = Ok members ∧
    Monkey.create_patches 1 1 World.templates (VRef World.Host)
      (VRef World.Template) VNone true (Some Monkey.default_filter) false false
    = Ok ((λ m, Monkey.mkPatch (VRef World.Host) m.1 m.2 VNone)
            <$> filter (passes World.templates Monkey.default_filter) members).
Proof.
  apply (create_patches_plain_filter 0 1 World.templates (VRef World.Host) VNone
           World.Template World.template_class Monkey.default_filter);
    reflexivity.
Defined.

Section sound.
Import Monkey.
Context (depth : nat) (h : heap) (flt : filter_fn) (rec : bool) (D : value).

Lemma create_patches_member_sound parent stack out m acc :
  pending_ok h D parent →
  Forall (pending_ok h D) stack → Forall (emitted_ok h flt rec D) out →
  create_patches_member depth h flt rec false parent (stack, out) m = Ok acc →
  Forall (pending_ok h D) acc.1 ∧ Forall (emitted_ok h flt rec D) acc.2.
Proof.
  intros Hparent Hstack Hout. destruct m as [n v].
  unfold create_patches_member.
  destruct (deepcopy h (settings parent)) as [stg|e]; run; [|done].
  destruct (flt h n v) eqn:Hflt; simpl; [|by intros [= <-]].
  destruct (rec && is_class h v) eqn:Hrec.
  - apply andb_prop in Hrec as [-> Hcls].
    destruct (get_attribute h (destination parent) n) as [target|e] eqn:Hget.
    + destruct (is_class h target) eqn:Ht; intros [= <-]; simpl.
      * split; [|done]. apply Forall_app. split; [done|].
        constructor; [|done]. by right.
      * split; [done|]. apply Forall_app. split; [done|].
        constructor; [|done]. split_and!; simpl; try done. congruence.
    + destruct e; try done. intros [= <-]. simpl. split; [done|].
      apply Forall_app. split; [done|].
      constructor; [|done]. split_and!; simpl; try done. congruence.
  - intros [= <-]. simpl. split; [done|]. apply Forall_app. split; [done|].
    constructor; [|done]. split_and!; simpl; try done.
    intros -> Hcls. by rewrite Hcls in Hrec.
Qed.

Lemma create_patches_members_sound parent ms : ∀ stack out acc,
  pending_ok h D parent →
  Forall (pending_ok h D) stack → Forall (emitted_ok h flt rec D) out →
  create_patches_members depth h flt rec false parent (stack, out) ms = Ok acc →
  Forall (pending_ok h D) acc.1 ∧ Forall (emitted_ok h flt rec D) acc.2.
Proof.
  induction ms as [|m ms IH]; intros stack out acc Hp Hs Ho; simpl.
  { by intros [= <-]. }
  destruct (create_patches_member depth h flt rec false parent (stack, out) m)
    as [[stack' out']|e] eqn:Hm; run; [|done].
  destruct (create_patches_member_sound _ _ _ _ _ Hp Hs Ho Hm) as [Hs' Ho'].
  by apply IH.
Qed.

Lemma create_patches_loop_sound fuel tb : ∀ stack out res,
  Forall (pending_ok h D) stack → Forall (emitted_ok h flt rec D) out →
  create_patches_loop fuel depth h tb flt rec false stack out = Ok res →
  Forall (emitted_ok h flt rec D) res.
Proof.
  induction fuel as [|fuel IH]; intros stack out res Hs Ho.
  { destruct stack; simpl; [by intros [= <-]|done]. }
  destruct stack as [|parent stack].
  { simpl. by intros [= <-]. }
  rewrite create_patches_loop_step.
  destruct (_get_members (S fuel) h (obj parent) tb None false) as [ms|e];
    run; [|done].
  destruct (create_patches_members depth h flt rec false parent (stack, out) ms)
    as [acc|e] eqn:Hms; run; [|done].
  apply Forall_cons in Hs as [Hp Hs].
  destruct (create_patches_members_sound _ _ _ _ _ Hp Hs Ho Hms) as [Hs' Ho'].
  by apply IH.
Qed.
End sound.

(** X7.  Without the decorators, every patch that [create_patches] returns is
    of a member that the filter accepted; its destination is the given one
    or a class found under it; and with [recursive] a member that is a
    class is patched in as a whole only where the destination has no class
    under that name. *)
Theorem create_patches_emits_only_filtered
    (fuel depth : nat) (h : heap) (D root stg : value) (tb recursive : bool)
    (flt : Monkey.filter_fn) (out : list Monkey.Patch) :
  Monkey.create_patches fuel depth h D root stg tb (Some flt) recursive false
    = Ok out →
  Forall (emitted_ok h flt recursive D) out.
Proof.
  unfold Monkey.create_patches. apply create_patches_loop_sound.
  - constructor; [by left|done].
  - done.
Qed.

Lemma create_patches_emits_only_filtered_witness :
  Forall (emitted_ok World.templates Monkey.default_filter true (VRef World.Host))
    [Monkey.mkPatch (VRef World.Host) "foo" (VRef World.foo) VNone;
     Monkey.mkPatch (VRef World.HInner) "a" (VInt 1) VNone;
     Monkey.mkPatch (VRef World.HInner) "b" (VInt 2) VNone].
Proof.
  apply (create_patches_emits_only_filtered 2 1 World.templates
           (VRef World.Host) (VRef World.Template) VNone true true
           Monkey.default_filter).
  reflexivity.
Defined.

(* ===================================================================== *)
(** ** Discovery: lists of modules, packages, import errors              *)
(* ===================================================================== *)

Section find.
Import Monkey.
Context (fuel depth : nat) (env : importer) (h : heap).

Lemma find_patches_modules_acc ms out :
  find_patches_modules fuel depth h ms out
  = (ps ← find_patches_modules fuel depth h ms []; Ok (out ++ ps)).
Proof.
  revert out. induction ms as [|m ms IH]; intros out; simpl.
  { run. by rewrite app_nil_r. }
  run. destruct (_get_members fuel h m true None true) as [members|e]; [|done].
  rewrite (find_patches_members_acc h depth members out).
  rewrite (find_patches_members_acc h depth members []). run.
  destruct (find_patches_members depth h members []) as [ps|e]; [|done].
  simpl. rewrite (IH (out ++ ps)), (IH ps). run.
  destruct (find_patches_modules fuel depth h ms []) as [qs|e]; [|done].
  by rewrite app_assoc.
Qed.

Lemma find_patches_packages_acc recursive ps out :
  find_patches_packages fuel depth env h recursive ps out
  = (r ← find_patches_packages fuel depth env h recursive ps []; Ok (out ++ r)).
Proof.
  revert out. induction ps as [|p ps IH]; intros out; simpl.
  { run. by rewrite app_nil_r. }
  destruct (_module_iterator fuel env h p recursive) as [yielded ended].
  rewrite (find_patches_modules_acc yielded out). run.
  destruct (find_patches_modules fuel depth h yielded []) as [o1|e]; [|done].
  simpl. destruct ended as [[]|e]; [|done]. simpl.
  rewrite (IH (out ++ o1)), (IH o1). run.
  destruct (find_patches_packages fuel depth env h recursive ps []) as [r|e];
    [|done].
  by rewrite app_assoc.
Qed.

Lemma find_patches_packages_app recursive ps1 ps2 out :
  find_patches_packages fuel depth env h recursive (ps1 ++ ps2) out
  = (o1 ← find_patches_packages fuel depth env h recursive ps1 out;
     find_patches_packages fuel depth env h recursive ps2 o1).
Proof.
  revert out. induction ps1 as [|p ps1 IH]; intros out; simpl; [done|].
  destruct (_module_iterator fuel env h p recursive) as [yielded ended].
  run. destruct (find_patches_modules fuel depth h yielded out) as [o|e]; [|done].
  destruct ended as [[]|e]; [|done]. apply IH.
Qed.
End find.

(** X8.  [find_patches] of no module finds nothing, and [find_patches] of a
    list of modules is the concatenation of what it finds in the parts of
    the list, in order; it fails as soon as a part fails. *)
Theorem find_patches_is_additive
    (fuel depth : nat) (env : Monkey.importer) (h : heap)
    (roots1 roots2 : list value) (recursive : bool) :
  Monkey.find_patches fuel depth env h [] recursive = Ok [] ∧
  Monkey.find_patches fuel depth env h (roots1 ++ roots2) recursive
  = (found1 ← Monkey.find_patches fuel depth env h roots1 recursive;
     found2 ← Monkey.find_patches fuel depth env h roots2 recursive;
     Ok (found1 ++ found2)).
Proof.
  split; [done|]. unfold Monkey.find_patches.
  rewrite find_patches_packages_app. run.
  destruct (Monkey.find_patches_packages fuel depth env h recursive roots1 [])
    as [o1|e]; [|done].
  by rewrite find_patches_packages_acc.
Qed.

Section iterate.
Import Monkey.
Context (env : importer) (h : heap).

Lemma module_iterator_entries_app package recursive es1 es2 stack yielded :
  _module_iterator_entries env h package recursive (es1 ++ es2) stack yielded
  = match _module_iterator_entries env h package recursive es1 stack yielded with
    | (stack', yielded', Ok _) =>
        _module_iterator_entries env h package recursive es2 stack' yielded'
    | failed => failed
    end.
Proof.
  revert stack yielded. induction es1 as [|[n b] es1 IH]; intros stack yielded;
    simpl; [done|].
  destruct (getattr h package "__name__") as [[]|]; try done.
  destruct (import_module env _); [|done].
  destruct b, recursive; apply IH.
Qed.

Lemma module_iterator_paths_entries package recursive paths stack yielded :
  _module_iterator_paths env h package recursive paths stack yielded
  = _module_iterator_entries env h package recursive (all_entries env paths)
      stack yielded.
Proof.
  revert stack yielded. induction paths as [|path paths IH]; intros stack yielded;
    simpl; [done|].
  change (match path with VStr p => iter_modules env p | _ => [] end)
    with (path_entries env path).
  rewrite module_iterator_entries_app.
  destruct (_module_iterator_entries env h package recursive
              (path_entries env path) stack yielded) as [[s y] [[]|e]]; [|done].
  apply IH.
Qed.

Lemma pushed_kids_off kids : pushed_kids false kids = [].
Proof.
  unfold pushed_kids. induction kids as [|k kids IH]; [done|].
  rewrite filter_cons_False; [done|]. rewrite andb_false_r. done.
Qed.

Lemma module_iterator_entries_import_fails package pname recursive kids n b rest
    stack yielded :
  getattr h package "__name__" = Ok (VStr pname) →
  Forall (imports_to env pname) kids →
  import_module env (pname +:+ "." +:+ n) = None →
  _module_iterator_entries env h package recursive (kids.*1 ++ (n, b) :: rest)
    stack yielded
  = (stack ++ pushed_kids recursive kids,
     yielded ++ yielded_kids recursive kids, Raise ImportError).
Proof.
  intros Hname Hkids Hfail. rewrite module_iterator_entries_app.
  rewrite (module_iterator_entries_spec env h package pname) by done.
  simpl. by rewrite Hname, Hfail.
Qed.
End iterate.

Lemma module_iterator_plain fuel env h module recursive :
  getattr h module "__path__" = Raise AttributeError →
  Monkey._module_iterator (S fuel) env h module recursive = ([module], Ok ()).
Proof.
  intros Hpath. unfold Monkey._module_iterator. simpl. unfold getattr_default.
  rewrite Hpath. simpl. by destruct fuel.
Qed.

Lemma find_patches_plain fuel depth env h module recursive :
  getattr h module "__path__" = Raise AttributeError →
  Monkey.find_patches (S fuel) depth env h [module] recursive
  = (members ← Monkey._get_members (S fuel) h module true None true;
     Monkey.find_patches_members depth h members []).
Proof.
  intros Hpath. unfold Monkey.find_patches. simpl.
  rewrite module_iterator_plain by done. simpl. run.
  destruct (Monkey._get_members (S fuel) h module true None true) as [ms|e];
    [|done].
  by destruct (Monkey.find_patches_members depth h ms []).
Qed.

(** X9.  A module without [__path__] (one that is no package) is iterated as
    itself alone: nothing is listed and nothing imported.  [find_patches]
    on it is the scan of its own members, the same with every importer
    and with [recursive] on or off. *)
Theorem module_iterator_without_path
    (fuel : nat) (env env' : Monkey.importer) (h : heap) (module : value)
    (recursive : bool) (depth : nat) :
  getattr h module "__path__" = Raise AttributeError →
  Monkey._module_iterator (S fuel) env h module recursive = ([module], Ok ()) ∧
  Monkey.find_patches (S fuel) depth env h [module] recursive
  = (members ← Monkey._get_members (S fuel) h module true None true;
     Monkey.find_patches_members depth h members []) ∧
  Monkey.find_patches (S fuel) depth env h [module] recursive
  = Monkey.find_patches (S fuel) depth env' h [module] (negb recursive).
Proof.
  intros Hpath. split_and!.
  - by apply module_iterator_plain.
  - by apply find_patches_plain.
  - by rewrite !find_patches_plain.
Qed.

Lemma module_iterator_without_path_witness :
  Monkey._module_iterator 1 (World.on_disk true) World.declared
    (VRef World.fan_scaling) true
  = ([VRef World.fan_scaling], Ok ()) ∧
  Monkey.find_patches 1 1 (World.on_disk true) World.declared
    [VRef World.fan_scaling] true
  = (members ← Monkey._get_members 1 World.declared
                 (VRef World.fan_scaling) true None true;
     Monkey.find_patches_members 1 World.declared members []) ∧
  Monkey.find_patches 1 1 (World.on_disk true) World.declared
    [VRef World.fan_scaling] true
  = Monkey.find_patches 1 1 World.broken_disk World.declared
      [VRef World.fan_scaling] false.
Proof.
  apply (module_iterator_without_path 0 (World.on_disk true) World.broken_disk
           World.declared (VRef World.fan_scaling) true 1).
  reflexivity.
Defined.

(** X10.  With [recursive] off, [_module_iterator] on a package whose listed
    children all import yields the package and then the children that are
    plain modules, in listing order.  The sub-packages are imported too,
    but neither yielded nor descended into. *)
Theorem module_iterator_not_recursive
    (fuel : nat) (env : Monkey.importer) (h : heap) (root : value)
    (pname : string) (ps : value) (paths : list value)
    (kids : list ((string * bool) * value)) :
  getattr h root "__name__" = Ok (VStr pname) →
  getattr_default h root "__path__" (VList []) = Ok ps →
  py_iter ps = Ok paths →
  kids.*1 = all_entries env paths →
  Forall (imports_to env pname) kids →
  Monkey._module_iterator (S fuel) env h root false
  = (root :: (filter (λ kid, kid.1.2 = false) kids).*2, Ok ()).
Proof.
  intros Hname Hpath Hiter Hkids Hall. unfold Monkey._module_iterator. simpl.
  rewrite Hpath. run. rewrite Hiter.
  rewrite (module_iterator_paths_spec env h root pname false paths kids) by done.
  rewrite pushed_kids_off. simpl.
  assert (yielded_kids false kids = (filter (λ kid, kid.1.2 = false) kids).*2)
    as ->.
  { unfold yielded_kids. f_equal. apply list_filter_iff. intros [[n b] m]. simpl.
    destruct b; naive_solver. }
  by destruct fuel.
Qed.

Lemma module_iterator_not_recursive_witness :
  Monkey._module_iterator 1 World.nested_disk World.declared
    (VRef World.patches_pkg) false
  = ([VRef World.patches_pkg; VRef World.fan_scaling], Ok ()).
Proof.
  apply (module_iterator_not_recursive 0 World.nested_disk World.declared
           (VRef World.patches_pkg) "patches"
           (VList [VStr "/patches"]) [VStr "/patches"]
           [(("fan_scaling", false), VRef World.fan_scaling);
            (("extra", true), VRef World.tmc_clock)]);
    [reflexivity..|].
  repeat constructor.
Defined.

(** X11.  When a listed child cannot be imported, [_module_iterator] stops
    there with [ImportError], after the package and the children listed
    before it.  This is so with [recursive] on or off, and also for a
    sub-package that would not be visited.  [find_patches] then fails as
    a whole: the patches of the modules seen before are not returned. *)
Theorem find_patches_import_failure
    (fuel depth : nat) (env : Monkey.importer) (h : heap) (root : value)
    (recursive : bool) (pname : string) (ps : value) (paths : list value)
    (kids : list ((string * bool) * value)) (n : string) (is_package : bool)
    (rest : list (string * bool)) :
  getattr h root "__name__" = Ok (VStr pname) →
  getattr_default h root "__path__" (VList []) = Ok ps →
  py_iter ps = Ok paths →
  all_entries env paths = kids.*1 ++ (n, is_package) :: rest →
  Forall (imports_to env pname) kids →
  Monkey.import_module env (pname +:+ "." +:+ n) = None →
  Monkey._module_iterator (S fuel) env h root recursive
  = (root :: yielded_kids recursive kids, Raise ImportError) ∧
  ∃ e, Monkey.find_patches (S fuel) depth env h [root] recursive = Raise e.
Proof.
  intros Hname Hpath Hiter Hent Hall Hfail.
  assert (Monkey._module_iterator (S fuel) env h root recursive
          = (root :: yielded_kids recursive kids, Raise ImportError)) as Hit.
  { unfold Monkey._module_iterator. simpl. rewrite Hpath. run. rewrite Hiter.
    rewrite module_iterator_paths_entries, Hent.
    by rewrite (module_iterator_entries_import_fails env h root pname). }
  split; [done|]. unfold Monkey.find_patches. simpl. rewrite Hit. run.
  match goal with
  | |- ∃ e, match ?m with _ => _ end = _ => destruct m; eauto
  end.
Qed.

Lemma find_patches_import_failure_witness :
  Monkey._module_iterator 1 World.broken_disk World.declared
    (VRef World.patches_pkg) true
  = ([VRef World.patches_pkg; VRef World.fan_scaling], Raise ImportError) ∧
  ∃ e, Monkey.find_patches 1 1 World.broken_disk World.declared
         [VRef World.patches_pkg] true = Raise e.
Proof.
  apply (find_patches_import_failure 0 1 World.broken_disk World.declared
           (VRef World.patches_pkg) true "patches"
           (VList [VStr "/patches"]) [VStr "/patches"]
           [(("fan_scaling", false), VRef World.fan_scaling)]
           "missing" true [("tmc_clock", false)]);
    [reflexivity..| |reflexivity].
  repeat constructor.
Defined.

(* ===================================================================== *)
(** ** What apply and revert leave alone                                 *)
(* ===================================================================== *)

Section frame.
Import Monkey.
Context (h0 : heap).

Lemma write_dict_frame d n h r ob D :
  only_slot_changed d n h0 h → h !! r = Some ob →
  (d = VRef r → ∀ k, ¬ slot_name n k → dict_get D k = dict_get (odict ob) k) →
  d = VRef r →
  only_slot_changed d n h0 (<[r := with_dict ob D]> h).
Proof.
  intros [Hshape Hown] Hr HD Hd. split.
  - intros c. specialize (Hshape c). destruct (decide (c = r)) as [->|Hne].
    + rewrite lookup_insert_eq. rewrite Hr in Hshape.
      inversion Hshape as [o o' Ho|]; subst. by constructor.
    + by rewrite lookup_insert_ne.
  - intros c k Hck. rewrite <-(Hown c k Hck). unfold own.
    destruct (decide (c = r)) as [->|Hne].
    + rewrite lookup_insert_eq, Hr. simpl. apply HD; [done|].
      destruct Hck as [Hne|Hk]; [by destruct Hne|done].
    + by rewrite lookup_insert_ne.
Qed.

Lemma hoare_setattr_frame d n k v :
  slot_name n k →
  hoare (only_slot_changed d n h0) (setattr d k v)
    (λ _, only_slot_changed d n h0) (only_slot_changed d n h0).
Proof.
  intros Hk h HF. unfold setattr.
  destruct d as [| | | | | |r| | | | | | | |]; try done.
  destruct (h !! r) as [ob|] eqn:Hr; [|done].
  assert (only_slot_changed (VRef r) n h0
            (<[r := with_dict ob (dict_set (odict ob) k v)]> h)) as Hw.
  { apply write_dict_frame; try done. intros _ k' Hk'.
    apply dict_get_set_ne. intros <-. by apply Hk'. }
  destruct (mro_lookup h (getmro h (otype ob)) k) as [dd|]; [|done].
  by destruct (is_data_descr dd).
Qed.

Lemma hoare_delattr_frame d n k :
  slot_name n k →
  hoare (only_slot_changed d n h0) (delattr d k)
    (λ _, only_slot_changed d n h0) (only_slot_changed d n h0).
Proof.
  intros Hk h HF. unfold delattr.
  destruct d as [| | | | | |r| | | | | | | |]; try done.
  destruct (h !! r) as [ob|] eqn:Hr; [|done].
  assert (only_slot_changed (VRef r) n h0
            (<[r := with_dict ob (dict_del (odict ob) k)]> h)) as Hw.
  { apply write_dict_frame; try done. intros _ k' Hk'.
    apply dict_get_del_ne. intros <-. by apply Hk'. }
  destruct (mro_lookup h (getmro h (otype ob)) k) as [dd|].
  - destruct (is_data_descr dd); [done|]. by destruct (dict_get (odict ob) k).
  - by destruct (dict_get (odict ob) k).
Qed.

Lemma hoare_read_frame {A} d n (f : heap → res A) :
  hoare (only_slot_changed d n h0) (read f)
    (λ _, only_slot_changed d n h0) (only_slot_changed d n h0).
Proof. intros h HF. run. by destruct (f h). Qed.

Lemma apply_frame p id :
  hoare (only_slot_changed (destination p) (name p) h0) (apply p id)
    (λ _, only_slot_changed (destination p) (name p) h0)
    (only_slot_changed (destination p) (name p) h0).
Proof.
  unfold apply.
  eapply hoare_bind
    with (Q := λ _, only_slot_changed (destination p) (name p) h0);
    [by intros h HF|].
  intros r.
  eapply hoare_bind
    with (Q := λ _, only_slot_changed (destination p) (name p) h0);
    [|intros ?; apply hoare_setattr_frame; by left].
  destruct r as [target|e].
  - eapply hoare_bind; [apply hoare_read_frame|]. intros ids.
    eapply hoare_bind; [apply hoare_read_frame|]. intros len.
    eapply hoare_bind; [apply hoare_setattr_frame; right; right; right; eauto|].
    intros ?.
    eapply hoare_bind; [apply hoare_read_frame|]. intros ids'.
    apply hoare_setattr_frame. right; right; by left.
  - destruct e; try apply hoare_raise.
    apply hoare_setattr_frame. right; by left.
Qed.

Lemma revert_frame p :
  hoare (only_slot_changed (destination p) (name p) h0) (revert p)
    (λ _, only_slot_changed (destination p) (name p) h0)
    (only_slot_changed (destination p) (name p) h0).
Proof.
  unfold revert.
  eapply hoare_bind; [apply hoare_read_frame|]. intros flag. simpl.
  destruct (py_truth flag).
  { apply hoare_delattr_frame. by left. }
  eapply hoare_bind
    with (Q := λ _, only_slot_changed (destination p) (name p) h0);
    [by intros h HF|].
  intros a.
  eapply hoare_bind
    with (Q := λ _, only_slot_changed (destination p) (name p) h0).
  { destruct a as [ids|e].
    - destruct (py_truth ids).
      + intros h HF. by run.
      + eapply hoare_bind; [apply hoare_read_frame|]. intros ?.
        apply hoare_raise.
    - destruct e; try apply hoare_raise.
      eapply hoare_bind; [apply hoare_read_frame|]. intros ?.
      apply hoare_raise. }
  intros ids.
  eapply hoare_bind; [apply hoare_read_frame|]. intros len.
  eapply hoare_bind; [apply hoare_read_frame|]. intros attr.
  eapply hoare_bind; [apply hoare_setattr_frame; by left|]. intros ?.
  eapply hoare_bind; [apply hoare_delattr_frame; right; right; right; eauto|].
  intros ?.
  eapply hoare_bind; [apply hoare_read_frame|]. intros ids'.
  apply hoare_setattr_frame. right; right; by left.
Qed.
End frame.

Lemma do_call_frame h0 c h :
  only_slot_changed (Monkey.destination (call_patch c))
    (Monkey.name (call_patch c)) h0 h →
  only_slot_changed (Monkey.destination (call_patch c))
    (Monkey.name (call_patch c)) h0 (do_call c h).2.
Proof.
  intros H0. destruct c as [p id|p]; simpl.
  - pose proof (apply_frame h0 p id h H0) as H.
    by destruct (Monkey.apply p id h) as [[]].
  - pose proof (revert_frame h0 p h H0) as H.
    by destruct (Monkey.revert p h) as [[]].
Qed.

Lemma run_calls_frame d n h0 cs : ∀ h,
  Forall (on_slot d n) cs →
  only_slot_changed d n h0 h →
  only_slot_changed d n h0 (run_calls cs h).
Proof.
  induction cs as [|c cs IH]; intros h Hcs H0; [done|].
  apply Forall_cons in Hcs as [[<- <-] Hcs]. simpl.
  apply IH; [done|]. by apply do_call_frame.
Qed.

Lemma do_calls_run cs : ∀ h h',
  do_calls cs h = (Ok (), h') → h' = run_calls cs h.
Proof.
  induction cs as [|c cs IH]; intros h h' H; simpl in *.
  - by injection H.
  - revert H. unfold mbind, M_mbind, bind.
    destruct (do_call c h) as [[[]|e] h1]; simpl; [|done].
    apply IH.
Qed.

Lemma rounds_on_slot d n stg ps rs :
  Forall (on_slot d n) (apply_calls d n stg ps ++ revert_calls d n stg rs).
Proof.
  apply Forall_app. split; apply Forall_fmap, Forall_true; by intros ?.
Qed.



(* ===================================================================== *)
(** ** Decorator data and the decorators                                 *)
(* ===================================================================== *)

(** X13.  [get_decorator_data] on a class answers for that class only.  A
    decorated class gets its own data; a subclass of it with no data of
    its own gets [None], though [getattr] finds the dict of the base
    class. *)
Theorem decorator_data_is_not_inherited
    (h : heap) (B D : ref) (obB obD : object) (restB restD : list ref)
    (dataB : value) :
  h !! B = Some obB → okind obB = KClass → omro obB = B :: restB →
  h !! D = Some obD → okind obD = KClass → omro obD = D :: B :: restD →
  B ≠ D →
  type_level h B Monkey._DECORATOR_DATA = None →
  type_level h D Monkey._DECORATOR_DATA = None →
  dict_get (odict obB) Monkey._DECORATOR_DATA = Some (VDict [(VRef B, dataB)]) →
  dict_get (odict obD) Monkey._DECORATOR_DATA = None →
  Monkey.get_decorator_data h (VRef B) = Ok dataB ∧
  Monkey.get_decorator_data h (VRef D) = Ok VNone.
Proof.
  intros HB HkB HmB HD HkD HmD Hne HtB HtD HdB HdD.
  unfold type_level in HtB, HtD. rewrite HB in HtB. rewrite HD in HtD.
  simpl in HtB, HtD.
  unfold Monkey.get_decorator_data, is_class, has_kind, getattr_default, getattr,
    is_class, has_kind, type_getattribute.
  rewrite HB, HD, HkB, HkD, !bool_decide_true by done.
  rewrite HtB, HtD, HmB, HmD. simpl. rewrite HB, HD. simpl.
  rewrite HdB, HdD. unfold descr_get. simpl. rewrite decide_True by done.
  by rewrite decide_False by done.
Qed.

Lemma decorator_data_is_not_inherited_witness :
  Monkey.get_decorator_data World.registered (VRef World.Template)
    = Ok (VDecoratorData
            [VPatch (VRef World.Host) "foo" (VRef World.foo) VNone] [] VNone) ∧
  Monkey.get_decorator_data World.registered (VRef World.Derived) = Ok VNone.
Proof.
  apply (decorator_data_is_not_inherited World.registered World.Template
           World.Derived World.registered_class World.derived_class
           [object_ref] [object_ref]); reflexivity || discriminate.
Defined.

(** The record of an object that keeps its decorator data itself. *)
Lemma dict_set_twice (d : dict) k v v' :
  dict_set (dict_set d k v) k v' = dict_set d k v'.
Proof.
  induction d as [|[k0 v0] d IH]; simpl.
  - by rewrite decide_True.
  - destruct (decide (k0 = k)) as [->|Hne]; simpl.
    + by rewrite decide_True.
    + rewrite decide_False by done. by rewrite IH.
Qed.

Lemma vdict_set_twice items f v v' :
  Decorators.vdict_set (Decorators.vdict_set items f v) f v'
  = Decorators.vdict_set items f v'.
Proof.
  induction items as [|[k w] items IH]; simpl.
  - by rewrite decide_True.
  - destruct k; simpl; try by rewrite IH.
    destruct (decide (r = f)) as [->|Hne]; simpl.
    + by rewrite decide_True.
    + rewrite decide_False by done. by rewrite IH.
Qed.

Lemma setdefault_none_vdict_set items f v :
  Monkey.setdefault_none (Decorators.vdict_set items f v) (VRef f) = v.
Proof.
  induction items as [|[k w] items IH]; simpl.
  - by rewrite decide_True.
  - destruct k; simpl; try done.
    destruct (decide (r = f)) as [->|Hne]; simpl.
    + by rewrite decide_True.
    + by rewrite decide_False.
Qed.

Lemma first_holder_mro_lookup h cs n :
  Decorators.first_holder h cs n = None ↔ mro_lookup h cs n = None.
Proof.
  induction cs as [|c cs IH]; simpl; [done|].
  by destruct (h !! c ≫= _).
Qed.

Section register.
Import Monkey.
Context (h : heap) (f : ref) (ob : object).
Hypothesis Hown : owns_record h f ob.

Lemma owns_record_parts :
  h !! f = Some ob ∧ (f ∉ getmro h (otype ob)) ∧
  (okind ob = KClass → ∃ rest, omro ob = f :: rest) ∧
  plain_on_type h f _DECORATOR_DATA.
Proof.
  destruct Hown as (Hr & Hmeta & Htype & Hcls). split_and!; try done.
  - intros Hk. rewrite bool_decide_true in Hcls by done.
    destruct Hcls as (rest & ? & _). eauto.
  - intros d. by rewrite Htype.
Qed.

Lemma getattr_record_absent :
  dict_get (odict ob) _DECORATOR_DATA = None →
  getattr h (VRef f) _DECORATOR_DATA = Raise AttributeError.
Proof.
  intros Hnone. destruct Hown as (Hr & Hmeta & Htype & Hcls).
  unfold type_level in Htype. rewrite Hr in Htype. simpl in Htype.
  unfold getattr, is_class, has_kind. rewrite Hr.
  case_bool_decide as Hk.
  - destruct Hcls as (rest & Hmro & Hrest). rewrite Hnone in Hrest.
    unfold type_getattribute. rewrite Hr, Htype, Hmro. simpl.
    rewrite Hr. simpl. by rewrite Hnone, Hrest.
  - unfold object_getattribute. by rewrite Hr, Htype, Hnone.
Qed.

Lemma stored_at_own D entry :
  dict_get D _DECORATOR_DATA = Some entry →
  Decorators.stored (at_dict h f ob D) (VRef f) _DECORATOR_DATA = Some (f, entry).
Proof.
  intros HD. destruct owns_record_parts as (Hr & Hmeta & Hhead & Hplain).
  unfold Decorators.stored. rewrite (at_dict_lookup h f ob) by done. simpl.
  case_bool_decide as Hk.
  - destruct (Hhead Hk) as [rest ->]. simpl.
    rewrite (at_dict_lookup h f ob) by done. simpl. by rewrite HD.
  - by rewrite HD.
Qed.

Lemma stored_absent :
  dict_get (odict ob) _DECORATOR_DATA = None →
  Decorators.stored h (VRef f) _DECORATOR_DATA = None.
Proof.
  intros Hnone. destruct Hown as (Hr & Hmeta & Htype & Hcls).
  unfold type_level in Htype. rewrite Hr in Htype. simpl in Htype.
  unfold Decorators.stored. rewrite Hr.
  case_bool_decide as Hk.
  - destruct Hcls as (rest & Hmro & Hrest). rewrite Hnone in Hrest.
    rewrite Hmro. simpl. rewrite Hr. simpl. rewrite Hnone.
    apply first_holder_mro_lookup in Hrest as ->.
    by apply first_holder_mro_lookup.
  - rewrite Hnone. by apply first_holder_mro_lookup.
Qed.

Lemma rewrite_stored_at_own D entry v' :
  dict_get D _DECORATOR_DATA = Some entry → (∀ x, entry ≠ VStaticmethod x) →
  Decorators.rewrite_stored (VRef f) _DECORATOR_DATA v' (at_dict h f ob D)
  = (Ok (), at_dict h f ob (dict_set D _DECORATOR_DATA v')).
Proof.
  intros HD Hns. unfold Decorators.rewrite_stored.
  rewrite (stored_at_own D entry) by done.
  destruct owns_record_parts as (Hr & Hmeta & Hhead & Hplain).
  rewrite (at_dict_lookup h f ob) by done. simpl.
  rewrite (at_dict_twice h f ob) by done.
  destruct entry; try done. by destruct (Hns entry).
Qed.

Lemma getattr_default_at_own D entry dflt :
  dict_get D _DECORATOR_DATA = Some entry →
  entry = VDict [] ∨ (∃ x xs, entry = VDict (x :: xs)) ∨
  (∃ a b c, entry = VDecoratorData a b c) →
  getattr_default (at_dict h f ob D) (VRef f) _DECORATOR_DATA dflt = Ok entry.
Proof.
  intros HD He. destruct owns_record_parts as (Hr & Hmeta & Hhead & Hplain).
  unfold getattr_default.
  rewrite (getattr_at_own h f ob Hr Hmeta Hhead D _DECORATOR_DATA entry) by done.
  case_bool_decide; [|done].
  by destruct He as [->|[(?&?&->)|(?&?&?&->)]].
Qed.

Lemma is_class_own D :
  is_class (at_dict h f ob D) (VRef f) = bool_decide (okind ob = KClass).
Proof.
  destruct owns_record_parts as (Hr & Hmeta & Hhead & Hplain).
  rewrite (at_dict_is_class h f ob) by done. unfold is_class, has_kind.
  by rewrite Hr.
Qed.

Lemma setattr_own k v :
  plain_on_type h f k →
  setattr (VRef f) k v h = (Ok (), at_dict h f ob (dict_set (odict ob) k v)).
Proof.
  intros Hk. destruct owns_record_parts as (Hr & Hmeta & Hhead & Hplain).
  pose proof (setattr_at h f ob Hr Hmeta Hhead (odict ob) k v Hk) as H.
  by rewrite (at_dict_id h f ob Hr Hmeta Hhead) in H.
Qed.

Lemma rewrite_stored_own entry v' :
  dict_get (odict ob) _DECORATOR_DATA = Some entry →
  (∀ x, entry ≠ VStaticmethod x) →
  Decorators.rewrite_stored (VRef f) _DECORATOR_DATA v' h
  = (Ok (), at_dict h f ob (dict_set (odict ob) _DECORATOR_DATA v')).
Proof.
  intros HD Hns. destruct owns_record_parts as (Hr & Hmeta & Hhead & Hplain).
  pose proof (rewrite_stored_at_own (odict ob) entry v' HD Hns) as H.
  by rewrite (at_dict_id h f ob Hr Hmeta Hhead) in H.
Qed.

Lemma getattr_own entry :
  dict_get (odict ob) _DECORATOR_DATA = Some entry →
  getattr h (VRef f) _DECORATOR_DATA = Ok (read_back ob f entry).
Proof.
  intros HD. destruct owns_record_parts as (Hr & Hmeta & Hhead & Hplain).
  pose proof (getattr_at_own h f ob Hr Hmeta Hhead (odict ob) _DECORATOR_DATA
                entry Hplain HD)
    as H.
  by rewrite (at_dict_id h f ob Hr Hmeta Hhead) in H.
Qed.

Lemma get_decorator_data_own :
  (okind ob ≠ KClass →
   ∀ entry, dict_get (odict ob) _DECORATOR_DATA = Some entry →
            read_back ob f entry = entry) →
  get_decorator_data h (VRef f) = Ok (current_record f ob).
Proof.
  intros Hnc. pose proof Hown as (Hr & Hmeta & Htype & Hcls).
  unfold get_decorator_data, current_record, is_class, has_kind. rewrite Hr.
  unfold getattr_default. case_bool_decide as Hk.
  - destruct Hcls as (rest & Hmro & Hentry).
    destruct (dict_get (odict ob) _DECORATOR_DATA) as [entry|] eqn:HD.
    + destruct Hentry as [items ->]. rewrite (getattr_own _ HD).
      unfold read_back. by rewrite bool_decide_true.
    + by rewrite getattr_record_absent.
  - destruct (dict_get (odict ob) _DECORATOR_DATA) as [entry|] eqn:HD.
    + rewrite (getattr_own _ HD). by rewrite (Hnc Hk entry).
    + by rewrite getattr_record_absent.
Qed.

Lemma get_decorator_data_creates :
  (okind ob ≠ KClass →
   ∀ entry, dict_get (odict ob) _DECORATOR_DATA = Some entry →
            read_back ob f entry = entry) →
  Decorators.get_decorator_data (VRef f) h
  = (Ok (or_new (current_record f ob)),
     if is_None (current_record f ob)
     then at_dict h f ob
            (dict_set (odict ob) _DECORATOR_DATA
               (record_entry ob f Decorators.DecoratorData))
     else h).
Proof.
  intros Hnc. pose proof Hown as (Hr & Hmeta & Htype & Hcls).
  destruct owns_record_parts as (_ & _ & Hhead & Hplain).
  unfold Decorators.get_decorator_data, record_entry, current_record, or_new.
  run. rewrite Hr. case_bool_decide as Hk.
  - destruct Hcls as (rest & Hmro & Hentry). unfold getattr_default.
    destruct (dict_get (odict ob) _DECORATOR_DATA) as [entry|] eqn:HD.
    + destruct Hentry as [items ->]. rewrite (getattr_own _ HD).
      unfold read_back. rewrite bool_decide_true by done. simpl.
      destruct (is_None (setdefault_none items (VRef f))) eqn:Hnone; [|done].
      rewrite (rewrite_stored_own (VDict items)) by done.
      rewrite (setattr_at h f ob) by done. by rewrite dict_set_twice.
    + rewrite getattr_record_absent by done. simpl.
      unfold Decorators.rewrite_stored. rewrite stored_absent by done.
      by rewrite setattr_own.
  - unfold getattr_default.
    destruct (dict_get (odict ob) _DECORATOR_DATA) as [entry|] eqn:HD; simpl.
    + rewrite (getattr_own _ HD), (Hnc Hk entry) by done.
      destruct (is_None entry); [|done]. by rewrite setattr_own.
    + rewrite getattr_record_absent by done. simpl. by rewrite setattr_own.
Qed.

Lemma change_decorator_data_at D data' :
  (if bool_decide (okind ob = KClass)
   then ∃ items, dict_get D _DECORATOR_DATA = Some (VDict items)
   else ∃ entry, dict_get D _DECORATOR_DATA = Some entry ∧
                 ∀ x, entry ≠ VStaticmethod x) →
  Decorators.change_decorator_data (VRef f) data' (at_dict h f ob D)
  = (Ok (), at_dict h f ob
              (dict_set D _DECORATOR_DATA
                 (if bool_decide (okind ob = KClass)
                  then match dict_get D _DECORATOR_DATA with
                       | Some (VDict items) =>
                           VDict (Decorators.vdict_set items f data')
                       | _ => VNone
                       end
                  else data'))).
Proof.
  intros HD. destruct owns_record_parts as (Hr & Hmeta & Hhead & Hplain).
  unfold Decorators.change_decorator_data. run.
  rewrite (at_dict_lookup h f ob) by done. simpl.
  case_bool_decide as Hk.
  - destruct HD as [items HD]. rewrite HD.
    unfold getattr_default.
    rewrite (getattr_at_own h f ob Hr Hmeta Hhead D _DECORATOR_DATA
               (VDict items)) by done.
    rewrite bool_decide_true by done. simpl.
    by rewrite (rewrite_stored_at_own D (VDict items)).
  - destruct HD as (entry & HD & Hns).
    by rewrite (rewrite_stored_at_own D entry).
Qed.

Lemma register_on_base (change : value → res value) a b c data' :
  or_new (current_record f ob) = VDecoratorData a b c →
  change (VDecoratorData a b c) = Ok data' →
  (data ← Decorators.get_decorator_data (VRef f);
   data' ← read (λ _, change data);
   Decorators.change_decorator_data (VRef f) data') h
  = (Ok (), at_dict h f ob
              (dict_set (odict ob) _DECORATOR_DATA (record_entry ob f data'))).
Proof.
  intros Hcur Hchange. pose proof Hown as (Hr & Hmeta & Htype & Hcls).
  destruct owns_record_parts as (_ & _ & Hhead & Hplain).
  assert (okind ob ≠ KClass → ∀ entry, dict_get (odict ob) _DECORATOR_DATA = Some entry →
          read_back ob f entry = entry) as Hnc.
  { intros Hk entry _. unfold read_back. by rewrite bool_decide_false. }
  unfold mbind at 1, M_mbind, bind.
  rewrite (get_decorator_data_creates Hnc), Hcur.
  unfold mbind at 1, M_mbind, bind, read. rewrite Hchange.
  destruct (is_None (current_record f ob)) eqn:Hnone.
  - rewrite change_decorator_data_at.
    + rewrite dict_set_twice. do 2 f_equal. rewrite dict_get_set_eq.
      unfold record_entry. case_bool_decide; [|done].
      destruct (dict_get (odict ob) _DECORATOR_DATA) as [[]|]; simpl;
        by rewrite ?vdict_set_twice, ?decide_True.
    + rewrite dict_get_set_eq. unfold record_entry.
      case_bool_decide; [|by eauto].
      destruct (dict_get (odict ob) _DECORATOR_DATA) as [[]|]; eauto.
  - pose proof (change_decorator_data_at (odict ob) data') as Hm.
    rewrite (at_dict_id h f ob Hr Hmeta Hhead) in Hm. rewrite Hm.
    + do 2 f_equal. unfold record_entry, current_record in *.
      case_bool_decide as Hk; [|done].
      destruct Hcls as (rest & Hmro & Hentry).
      destruct (dict_get (odict ob) _DECORATOR_DATA) as [entry|]; [|done].
      by destruct Hentry as [items ->].
    + unfold current_record, or_new in *. rewrite Hnone in Hcur.
      case_bool_decide as Hk.
      * destruct Hcls as (rest & Hmro & Hentry).
        destruct (dict_get (odict ob) _DECORATOR_DATA) as [entry|]; [|done].
        destruct Hentry as [items ->]. eauto.
      * destruct (dict_get (odict ob) _DECORATOR_DATA) as [entry|]; [|done].
        simpl in Hcur. subst entry. eauto.
Qed.
End register.

Lemma only_record_changed_same_at f h h' k :
  only_record_changed f h h' → k ≠ Monkey._DECORATOR_DATA → same_at k h h'.
Proof.
  intros [Hs Ho] Hk. split; [done|]. intros c. symmetry. apply Ho. by right.
Qed.

Lemma get_base_same_at depth h h' v :
  same_at "__func__" h h' →
  Monkey._get_base depth h v = Monkey._get_base depth h' v.
Proof.
  intros Hs. revert v. induction depth as [|depth IH]; intros v; [done|].
  unfold Monkey._get_base; fold Monkey._get_base.
  unfold hasattr. rewrite <-(same_at_getattr _ h h') by done.
  destruct (getattr h v "__func__") as [g|e]; run.
  - apply IH.
  - destruct e; try done. destruct v; try done; try apply IH;
      destruct Hs as [Hs _]; rewrite <-(same_shape_descr_get h h') by done;
      (destruct (descr_get h _ _ _); [apply IH|done]).
Qed.

Section decorators.
Import Monkey.
Context (depth : nat) (h : heap) (f : ref) (ob : object) (wrapped : value).
Context (patches_ : list value) (override_ : list (string * value)).
Context (filter_ : value).
Hypothesis Hown : owns_record h f ob.
Hypothesis Hbase : _get_base depth h wrapped = Ok (VRef f).
Hypothesis Hdata : ∃ data, get_decorator_data h (VRef f) = Ok data ∧
                           or_new data = VDecoratorData patches_ override_ filter_.

Lemma current_record_is :
  or_new (current_record f ob) = VDecoratorData patches_ override_ filter_.
Proof.
  destruct Hdata as (data & Hget & Hnew).
  rewrite (get_decorator_data_own h f ob Hown) in Hget.
  - by injection Hget as ->.
  - intros Hk entry _. unfold read_back. by rewrite bool_decide_false.
Qed.

Lemma owns_record_after data' :
  owns_record
    (at_dict h f ob
       (dict_set (odict ob) _DECORATOR_DATA (record_entry ob f data')))
    f (with_dict ob
         (dict_set (odict ob) _DECORATOR_DATA (record_entry ob f data'))).
Proof.
  destruct (owns_record_parts h f ob Hown) as (Hr & Hmeta & Hhead & Hplain).
  destruct Hown as (_ & _ & Htype & Hcls).
  split_and!.
  - by apply at_dict_lookup.
  - simpl. by rewrite (at_dict_getmro h f ob) by done.
  - by rewrite (at_dict_type_level h f ob) by done.
  - simpl. case_bool_decide as Hk; [|done].
    destruct Hcls as (rest & Hmro & _). exists rest. split; [done|].
    rewrite dict_get_set_eq. unfold record_entry. rewrite bool_decide_true by done.
    destruct (dict_get (odict ob) _DECORATOR_DATA) as [[]|]; eauto.
Qed.

Lemma record_after data' :
  (∃ a b c, data' = VDecoratorData a b c) →
  get_decorator_data
    (at_dict h f ob
       (dict_set (odict ob) _DECORATOR_DATA (record_entry ob f data')))
    (VRef f)
  = Ok data'.
Proof.
  intros Hd. rewrite (get_decorator_data_own _ f _ (owns_record_after data')).
  - f_equal. unfold current_record. simpl. rewrite dict_get_set_eq.
    unfold record_entry. case_bool_decide as Hk; [|done].
    destruct (dict_get (odict ob) _DECORATOR_DATA) as [[]|]; simpl;
      by rewrite ?setdefault_none_vdict_set, ?decide_True.
  - intros Hk entry _. unfold read_back. simpl. by rewrite bool_decide_false.
Qed.

Lemma record_frame data' :
  only_record_changed f h
    (at_dict h f ob
       (dict_set (odict ob) _DECORATOR_DATA (record_entry ob f data'))).
Proof.
  destruct (owns_record_parts h f ob Hown) as (Hr & Hmeta & Hhead & Hplain).
  split; [by apply at_dict_shape|]. intros c k Hck.
  rewrite (at_dict_own h f ob) by done. destruct (decide (c = f)) as [->|]; [|done].
  destruct Hck as [?|Hk]; [done|]. rewrite dict_get_set_ne by done.
  unfold own. by rewrite Hr.
Qed.

(** The outcome of a decorator whose change of the record is [change]. *)
Lemma decorated (change : value → res value) data' :
  change (VDecoratorData patches_ override_ filter_) = Ok data' →
  (∃ a b c, data' = VDecoratorData a b c) →
  ∃ h',
    (data ← Decorators.get_decorator_data (VRef f);
     data' ← read (λ _, change data);
     Decorators.change_decorator_data (VRef f) data';;
     mret wrapped) h = (Ok wrapped, h') ∧
    decorated_as depth h' wrapped data' ∧
    only_record_changed f h h'.
Proof.
  intros Hchange Hd. eexists. split_and!.
  - pose proof (register_on_base h f ob Hown change _ _ _ data'
                  current_record_is Hchange) as Hreg.
    revert Hreg. run.
    destruct (Decorators.get_decorator_data (VRef f) h) as [[data|e] h1];
      [|done].
    destruct (change data) as [d|e]; [|done].
    destruct (Decorators.change_decorator_data (VRef f) d h1) as [[[]|e] h2];
      [|done].
    by intros [= ->].
  - exists (VRef f). split; [|by apply record_after].
    rewrite <-Hbase. symmetry. apply get_base_same_at.
    apply (only_record_changed_same_at f); [apply record_frame|done].
  - apply record_frame.
Qed.
End decorators.

Lemma bind_read {A B} (g : heap → res A) (k : A → M B) (h : heap) (a : A) :
  g h = Ok a → (read g ≫= k) h = k a h.
Proof. intros Hg. unfold mbind, M_mbind, bind, read. by rewrite Hg. Qed.

Lemma bind_ret {A B} (a : A) (k : A → M B) (h : heap) : (mret a ≫= k) h = k a h.
Proof. done. Qed.

Lemma bind_bind {A B C} (m : M A) (k1 : A → M B) (k2 : B → M C) (h : heap) :
  ((m ≫= k1) ≫= k2) h = (m ≫= λ a, k1 a ≫= k2) h.
Proof.
  unfold mbind, M_mbind, bind. destruct (m h) as [[a|e] h1]; [|done].
  done.
Qed.

(** X14.  The modifier decorators [name], [destination] and [filter] return
    what they decorate as it is, and record on its base.  Afterwards the
    decorator data found for the decorated value is the former data (a new
    [DecoratorData] if there was none) with the override set, or with the
    filter replaced; the patches recorded before are kept, and nothing
    else in the heap has changed but that record on the base. *)
Theorem modifiers_record_on_the_base
    (depth : nat) (h : heap) (f : ref) (ob : object) (wrapped v data : value)
    (patches : list value) (override : list (string * value)) (flt : value) :
  owns_record h f ob →
  Monkey._get_base depth h wrapped = Ok (VRef f) →
  Monkey.get_decorator_data h (VRef f) = Ok data →
  or_new data = VDecoratorData patches override flt →
  (∃ h', Decorators.name depth v wrapped h = (Ok wrapped, h') ∧
         decorated_as depth h' wrapped
           (VDecoratorData patches (dict_set override "name" v) flt) ∧
         only_record_changed f h h') ∧
  (∃ h', Decorators.destination depth v wrapped h = (Ok wrapped, h') ∧
         decorated_as depth h' wrapped
           (VDecoratorData patches (dict_set override "destination" v) flt) ∧
         only_record_changed f h h') ∧
  (∃ h', Decorators.filter depth v wrapped h = (Ok wrapped, h') ∧
         decorated_as depth h' wrapped (VDecoratorData patches override v) ∧
         only_record_changed f h h').
Proof.
  intros Hown Hbase Hdata Hnew.
  assert (∃ data, Monkey.get_decorator_data h (VRef f) = Ok data ∧
                  or_new data = VDecoratorData patches override flt) as Hd
    by eauto.
  split_and!.
  - destruct (decorated depth h f ob wrapped patches override flt Hown Hbase Hd
                (λ data, Decorators.override_setitem data "name" v) _ eq_refl)
      as (h' & Hrun & ?); [by eauto|].
    exists h'. split; [|done]. unfold Decorators.name.
    by rewrite (bind_read _ _ h _ Hbase).
  - destruct (decorated depth h f ob wrapped patches override flt Hown Hbase Hd
                (λ data, Decorators.override_setitem data "destination" v)
                _ eq_refl) as (h' & Hrun & ?); [by eauto|].
    exists h'. split; [|done]. unfold Decorators.destination.
    by rewrite (bind_read _ _ h _ Hbase).
  - destruct (decorated depth h f ob wrapped patches override flt Hown Hbase Hd
                (λ data, Decorators.filter_assign data v) _ eq_refl)
      as (h' & Hrun & ?); [by eauto|].
    exists h'. split; [|done]. unfold Decorators.filter.
    by rewrite (bind_read _ _ h _ Hbase).
Qed.

Lemma plugin_function_owns_record :
  owns_record World.plugin World._apply_speed (World.builtin "_apply_speed").
Proof.
  split_and!; [reflexivity| |reflexivity|done].
  change (World._apply_speed ∉ [function_type_ref; object_ref]).
  rewrite !not_elem_of_cons. split_and!; [discriminate..|apply not_elem_of_nil].
Defined.

Lemma modifiers_record_on_the_base_witness :
  (∃ h', Decorators.name 2 (VStr "set_speed")
           (VStaticmethod (VRef World._apply_speed)) World.plugin
         = (Ok (VStaticmethod (VRef World._apply_speed)), h') ∧
         decorated_as 2 h' (VStaticmethod (VRef World._apply_speed))
           (VDecoratorData [] [("name", VStr "set_speed")] VNone) ∧
         only_record_changed World._apply_speed World.plugin h') ∧
  (∃ h', Decorators.destination 2 (VStr "set_speed")
           (VStaticmethod (VRef World._apply_speed)) World.plugin
         = (Ok (VStaticmethod (VRef World._apply_speed)), h') ∧
         decorated_as 2 h' (VStaticmethod (VRef World._apply_speed))
           (VDecoratorData [] [("destination", VStr "set_speed")] VNone) ∧
         only_record_changed World._apply_speed World.plugin h') ∧
  (∃ h', Decorators.filter 2 (VStr "set_speed")
           (VStaticmethod (VRef World._apply_speed)) World.plugin
         = (Ok (VStaticmethod (VRef World._apply_speed)), h') ∧
         decorated_as 2 h' (VStaticmethod (VRef World._apply_speed))
           (VDecoratorData [] [] (VStr "set_speed")) ∧
         only_record_changed World._apply_speed World.plugin h').
Proof.
  apply (modifiers_record_on_the_base 2 World.plugin World._apply_speed
           (World.builtin "_apply_speed")
           (VStaticmethod (VRef World._apply_speed)) (VStr "set_speed") VNone
           [] [] VNone plugin_function_owns_record); reflexivity.
Defined.

(** X15.  [patch] returns what it decorates as it is, and appends one patch to
    the record on its base, after those recorded before: the given
    destination; the given name or, without one, the [__name__] of the
    base; the decorated value itself, wrappers included, as the object;
    and a copy of the settings.  Nothing else in the heap changes. *)
Theorem patch_records_on_the_base
    (depth : nat) (h : heap) (f : ref) (ob : object)
    (destination_ : value) (name_ : option string) (n : string)
    (settings_ settings' wrapped data : value)
    (patches : list value) (override : list (string * value)) (flt : value) :
  owns_record h f ob →
  Monkey._get_base depth h wrapped = Ok (VRef f) →
  Monkey.get_decorator_data h (VRef f) = Ok data →
  or_new data = VDecoratorData patches override flt →
  name_ = Some n ∨ (name_ = None ∧ getattr h (VRef f) "__name__" = Ok (VStr n)) →
  Monkey.deepcopy h settings_ = Ok settings' →
  ∃ h', Decorators.patch depth destination_ name_ settings_ wrapped h
          = (Ok wrapped, h') ∧
        decorated_as depth h' wrapped
          (VDecoratorData (patches ++ [VPatch destination_ n wrapped settings'])
             override flt) ∧
        only_record_changed f h h'.
Proof.
  intros Hown Hbase Hdata Hnew Hname Hcopy.
  assert (∃ data, Monkey.get_decorator_data h (VRef f) = Ok data ∧
                  or_new data = VDecoratorData patches override flt) as Hd
    by eauto.
  destruct (decorated depth h f ob wrapped patches override flt Hown Hbase Hd
              (λ data, Decorators.patches_append data
                         (VPatch destination_ n wrapped settings')) _ eq_refl)
    as (h' & Hrun & ?); [by eauto|].
  exists h'. split; [|done]. unfold Decorators.patch.
  rewrite (bind_read _ _ h _ Hbase).
  destruct Hname as [->|[-> Hn]].
  - rewrite bind_ret. by rewrite (bind_read _ _ h _ Hcopy).
  - rewrite bind_bind, (bind_read _ _ h _ Hn), bind_ret.
    by rewrite (bind_read _ _ h _ Hcopy).
Qed.

Lemma patch_records_on_the_base_witness :
  ∃ h', Decorators.patch 2 (VRef World.Fan) None VNone
          (VRef World._apply_speed) World.plugin
        = (Ok (VRef World._apply_speed), h') ∧
        decorated_as 2 h' (VRef World._apply_speed)
          (VDecoratorData
             [VPatch (VRef World.Fan) "_apply_speed" (VRef World._apply_speed)
                VNone] [] VNone) ∧
        only_record_changed World._apply_speed World.plugin h'.
Proof.
  apply (patch_records_on_the_base 2 World.plugin World._apply_speed
           (World.builtin "_apply_speed") (VRef World.Fan) None "_apply_speed"
           VNone VNone (VRef World._apply_speed) VNone [] [] VNone
           plugin_function_owns_record);
    [reflexivity|reflexivity|reflexivity|right; split; reflexivity|reflexivity].
Defined.

(** X16.  [patches] returns what it decorates as it is, and appends to the
    record on its base, after the patches recorded before, exactly the
    patches that [create_patches] builds for the decorated value with the
    same arguments and a copy of the settings.  Nothing else in the heap
    changes. *)
Theorem patches_records_what_create_patches_builds
    (fuel depth : nat) (h : heap) (f : ref) (ob : object)
    (destination_ settings_ settings' wrapped data : value)
    (traverse_bases recursive use_decorators : bool)
    (filter_ : option Monkey.filter_fn) (found : list Monkey.Patch)
    (patches : list value) (override : list (string * value)) (flt : value) :
  owns_record h f ob →
  Monkey._get_base depth h wrapped = Ok (VRef f) →
  Monkey.get_decorator_data h (VRef f) = Ok data →
  or_new data = VDecoratorData patches override flt →
  Monkey.deepcopy h settings_ = Ok settings' →
  Monkey.create_patches fuel depth h destination_ wrapped settings'
    traverse_bases filter_ recursive use_decorators = Ok found →
  ∃ h', Decorators.patches fuel depth destination_ settings_ traverse_bases
          filter_ recursive use_decorators wrapped h = (Ok wrapped, h') ∧
        decorated_as depth h' wrapped
          (VDecoratorData (patches ++ (Decorators.patch_value <$> found))
             override flt) ∧
        only_record_changed f h h'.
Proof.
  intros Hown Hbase Hdata Hnew Hcopy Hfound.
  assert (∃ data, Monkey.get_decorator_data h (VRef f) = Ok data ∧
                  or_new data = VDecoratorData patches override flt) as Hd
    by eauto.
  destruct (decorated depth h f ob wrapped patches override flt Hown Hbase Hd
              (λ data, Decorators.patches_extend data
                         (Decorators.patch_value <$> found)) _ eq_refl)
    as (h' & Hrun & ?); [by eauto|].
  exists h'. split; [|done]. unfold Decorators.patches.
  rewrite (bind_read _ _ h _ Hcopy).
  rewrite (bind_read _ _ h _ Hfound).
  by rewrite (bind_read _ _ h _ Hbase).
Qed.

Lemma Template_owns_record :
  owns_record World.templates World.Template World.template_class.
Proof.
  split_and!; [reflexivity| |reflexivity|].
  - change (World.Template ∉ [type_ref; object_ref]).
    rewrite !not_elem_of_cons. split_and!; [discriminate..|apply not_elem_of_nil].
  - eexists. split; reflexivity.
Defined.

Lemma patches_records_what_create_patches_builds_witness :
  ∃ h', Decorators.patches 2 1 (VRef World.Host) VNone true
          (Some Monkey.default_filter) true true (VRef World.Template)
          World.templates
        = (Ok (VRef World.Template), h') ∧
        decorated_as 1 h' (VRef World.Template)
          (VDecoratorData
             [VPatch (VRef World.Host) "foo" (VRef World.foo) VNone;
              VPatch (VRef World.HInner) "a" (VInt 1) VNone;
              VPatch (VRef World.HInner) "b" (VInt 2) VNone] [] VNone) ∧
        only_record_changed World.Template World.templates h'.
Proof.
  apply (patches_records_what_create_patches_builds 2 1 World.templates
           World.Template World.template_class (VRef World.Host) VNone VNone
           (VRef World.Template) VNone true true true
           (Some Monkey.default_filter)
           [Monkey.mkPatch (VRef World.Host) "foo" (VRef World.foo) VNone;
            Monkey.mkPatch (VRef World.HInner) "a" (VInt 1) VNone;
            Monkey.mkPatch (VRef World.HInner) "b" (VInt 2) VNone]
           [] [] VNone Template_owns_record); reflexivity.
Defined.

(** What the decorators recorded is what the discovery returns. *)
Lemma find_patches_members_collect depth h ms pss out :
  Forall2 (contributes depth h) ms pss →
  Monkey.find_patches_members depth h ms out = Ok (out ++ concat pss).
Proof.
  intros Hall. revert out.
  induction Hall as [|[n v] ps ms pss (data & (base & Hb & Hd) & Hps) _ IH];
    intros out; simpl.
  { by rewrite app_nil_r. }
  simpl in Hb. rewrite Hb. run. rewrite Hd.
  destruct Hps as [[-> ->]|(ov & flt & ->)]; simpl.
  - apply IH.
  - rewrite IH. by rewrite app_assoc.
Qed.

(** X17.  [find_patches] on a module that is no package returns the patches
    recorded on the bases of the module's members, member by member in
    the order of [_get_members]; a member without a record adds nothing. *)
Theorem find_patches_collects_the_records
    (fuel depth : nat) (env : Monkey.importer) (h : heap) (module : value)
    (recursive : bool) (members : list (string * value))
    (found : list (list value)) :
  getattr h module "__path__" = Raise AttributeError →
  Monkey._get_members (S fuel) h module true None true = Ok members →
  Forall2 (contributes depth h) members found →
  Monkey.find_patches (S fuel) depth env h [module] recursive
  = Ok (concat found).
Proof.
  intros Hpath Hms Hall.
  rewrite find_patches_plain by done.
  rewrite Hms. simpl. by rewrite (find_patches_members_collect depth h _ found).
Qed.

Lemma find_patches_collects_the_records_witness :
  Monkey.find_patches 1 1 (World.on_disk true) World.declared
    [VRef World.fan_scaling] true
  = Ok [World.speed_patch].
Proof.
  apply (find_patches_collects_the_records 0 1 (World.on_disk true)
           World.declared (VRef World.fan_scaling) true
           [("__doc__", VNone); ("__name__", VStr "patches.fan_scaling");
            ("set_fan", VRef World.set_fan)]
           [[]; []; [World.speed_patch]]); [reflexivity|reflexivity|].
  repeat constructor.
  - eexists. split; [eexists; split; reflexivity|]. by left.
  - eexists. split; [eexists; split; reflexivity|]. by left.
  - eexists. split; [eexists; split; reflexivity|]. right. by do 2 eexists.
Defined.

Lemma find_patches_members_app depth h ms1 ms2 out :
  Monkey.find_patches_members depth h (ms1 ++ ms2) out
  = (out' ← Monkey.find_patches_members depth h ms1 out;
     Monkey.find_patches_members depth h ms2 out').
Proof.
  revert out. induction ms1 as [|[n v] ms1 IH]; intros out; simpl; [done|].
  destruct (Monkey._get_base depth h v) as [base|e]; simpl; [|done].
  destruct (Monkey.get_decorator_data h base) as [data|e]; simpl; [|done].
  destruct (Monkey.is_None data); [apply IH|].
  destruct (Monkey.data_patches data) as [ps|e]; simpl; [|done].
  destruct (py_iter ps) as [more|e]; simpl; [|done].
  apply IH.
Qed.

(** An instance has no decorator data of its own, but [getattr] on it
    finds the dict that its class keeps. *)
Lemma instance_sees_the_class_record h x ox items :
  h !! x = Some ox →
  okind ox = KInstance →
  dict_get (odict ox) Monkey._DECORATOR_DATA = None →
  mro_lookup h (getmro h (otype ox)) Monkey._DECORATOR_DATA
    = Some (VDict items) →
  Monkey.get_decorator_data h (VRef x) = Ok (VDict items).
Proof.
  intros Hx Hk Hown Hcls.
  unfold Monkey.get_decorator_data, is_class, has_kind. rewrite Hx, Hk. simpl.
  unfold getattr_default, getattr, is_class, has_kind. rewrite Hx, Hk. simpl.
  unfold object_getattribute. by rewrite Hx, Hcls, Hown.
Qed.

(** X18.  A module that holds an instance of a decorated class breaks the
    discovery.  The instance has no decorator data of its own, so
    [getattr] hands out the dict that its class keeps; that dict is not
    [None] and has no [patches]: [find_patches] raises [AttributeError]
    when it comes to this member, and returns nothing of what it found
    before. *)
Theorem find_patches_fails_on_instance_of_decorated_class
    (fuel depth : nat) (env : Monkey.importer) (h : heap) (module : value)
    (recursive : bool) (before rest : list (string * value))
    (found : list (list value)) (k : string) (x : ref) (ox : object)
    (items : list (value * value)) :
  getattr h module "__path__" = Raise AttributeError →
  Monkey._get_members (S fuel) h module true None true
    = Ok (before ++ (k, VRef x) :: rest) →
  Forall2 (contributes (S depth) h) before found →
  h !! x = Some ox →
  okind ox = KInstance →
  hasattr h (VRef x) "__func__" = Ok false →
  dict_get (odict ox) Monkey._DECORATOR_DATA = None →
  mro_lookup h (getmro h (otype ox)) Monkey._DECORATOR_DATA
    = Some (VDict items) →
  Monkey.find_patches (S fuel) (S depth) env h [module] recursive
  = Raise AttributeError.
Proof.
  intros Hpath Hms Hbefore Hx Hk Hfunc Hown Hcls.
  rewrite find_patches_plain by done. rewrite Hms. simpl.
  rewrite find_patches_members_app.
  rewrite (find_patches_members_collect _ _ _ _ _ Hbefore).
  assert (∀ out, Monkey.find_patches_members (S depth) h ((k, VRef x) :: rest)
                   out = Raise AttributeError) as Hfail; [|apply Hfail].
  intros out. cbn [Monkey.find_patches_members].
  rewrite (get_base_unwrapped depth h (VRef x)) by (split; [done|congruence]).
  simpl. by rewrite (instance_sees_the_class_record h x ox items).
Qed.

Lemma find_patches_fails_on_instance_of_decorated_class_witness :
  Monkey.find_patches 1 1 (World.on_disk true) World.with_instance
    [VRef World.holder] true
  = Raise AttributeError.
Proof.
  apply (find_patches_fails_on_instance_of_decorated_class 0 0
           (World.on_disk true) World.with_instance (VRef World.holder) true
           [("__doc__", VNone); ("__name__", VStr "holder")] []
           [[]; []] "t" World.template_instance
           (World.instance World.Template [])
           [(VRef World.Template,
             VDecoratorData
               [VPatch (VRef World.Host) "foo" (VRef World.foo) VNone] []
               VNone)]);
    try reflexivity.
  repeat constructor.
  - eexists. split; [eexists; split; reflexivity|]. by left.
  - eexists. split; [eexists; split; reflexivity|]. by left.
Defined.

(* ===================================================================== *)
(** ** The plugin helpers: bootstrap_plugin and call_original            *)
(* ===================================================================== *)

Lemma only_slot_changed_same_at d n h h' k :
  only_slot_changed d n h h' → ¬ slot_name n k → same_at k h h'.
Proof.
  intros [Hs Ho] Hk. split; [done|]. intros c. symmetry. apply Ho. by right.
Qed.

Lemma type_level_same_at k h h' r :
  same_at k h h' → type_level h' r k = type_level h r k.
Proof.
  intros Hs. unfold type_level. pose proof Hs as [Hshape _].
  specialize (Hshape r).
  destruct (h !! r) as [ob|], (h' !! r) as [ob'|]; inversion Hshape as [?? Hst|];
    subst; simpl; [|done].
  destruct Hst as (_ & <- & _).
  rewrite <-(same_shape_getmro h h') by apply Hs.
  symmetry. by apply same_at_mro_lookup.
Qed.

Lemma slot_plain_frame d n h h' r n' :
  only_slot_changed d n h h' → disjoint_slots n n' →
  slot_plain h r n' → slot_plain h' r n'.
Proof.
  intros Hf Hdis (H1 & H2 & H3 & H4).
  assert (∀ k, slot_name n' k → plain_on_type h r k → plain_on_type h' r k) as Hk.
  { intros k Hk Hp d'. rewrite (type_level_same_at k h h'); [apply Hp|].
    apply (only_slot_changed_same_at d n); [done|]. intros Hn. by apply (Hdis k). }
  split_and!; [apply Hk; [by left|done]|apply Hk; [right; by left|done]|
               apply Hk; [right; right; by left|done]|].
  intros i. apply Hk; [|done]. right; right; right. eauto.
Qed.

Lemma well_placed_same_shape h h' r :
  same_shape h h' → well_placed h r → well_placed h' r.
Proof.
  intros Hs (ob & Hr & Hmeta & Hhead). pose proof (Hs r) as Hsr.
  rewrite Hr in Hsr. inversion Hsr as [? ob' (Hk & Ht & Hn & Hm) Heq1 Heq2|]; subst.
  exists ob'. split_and!; [done| |].
  - rewrite <-Ht, <-(same_shape_getmro h h') by done. done.
  - rewrite <-Hk, <-Hm. done.
Qed.

Lemma get_original_attribute_frame h h' o n id x :
  same_at (Monkey._ORIGINAL_IDS n) h h' →
  (∀ i, same_at (Monkey._ORIGINAL_ITEM n i) h h') →
  Monkey.get_original_attribute h o n id = Ok x →
  Monkey.get_original_attribute h' o n id = Ok x.
Proof.
  intros Hids Hitems. unfold Monkey.get_original_attribute.
  rewrite <-(same_at_getattr _ h h') by done.
  destruct (getattr h o (Monkey._ORIGINAL_IDS n)) as [ids|e]; run.
  - destruct (py_truth ids).
    + run. destruct (py_iter ids) as [items|e]; [|done]. simpl.
      induction (reverse items) as [|t ts IH]; simpl; [done|].
      destruct (py_eq_str t id); [|done].
      by rewrite <-(same_at_getattr _ h h').
    + by destruct (getattr h o "__name__").
  - destruct e; try done. by destruct (getattr h o "__name__").
Qed.

(** One [apply] with the default id on a member that exists and has no
    stack. *)
Lemma apply_default_on_existing h r ob n v stg V :
  h !! r = Some ob → well_placed h r → slot_plain h r n →
  Monkey.get_attribute h (VRef r) n = Ok V →
  getattr_default h (VRef r) (Monkey._ORIGINAL_IDS n) (VTuple []) = Ok (VTuple []) →
  ∃ h', Monkey.apply (Monkey.mkPatch (VRef r) n v stg) "default" h = (Ok (), h') ∧
        Monkey.get_attribute h' (VRef r) n = Ok v ∧
        Monkey.get_original_attribute h' (VRef r) n "default"
          = Ok (read_back ob r V) ∧
        only_slot_changed (VRef r) n h h' ∧
        (∃ ob', h' !! r = Some ob' ∧ static_eq ob ob').
Proof.
  intros Hr (ob' & Hr' & Hmeta & Hhead) Hplain Hget Hids.
  assert (ob' = ob) as -> by congruence.
  set (D1 := pushed n (odict ob) [] V "default" v).
  exists (at_dict h r ob D1).
  assert (Monkey.apply (Monkey.mkPatch (VRef r) n v stg) "default" h
          = (Ok (), at_dict h r ob D1)) as Happly.
  { pose proof (apply_stores h r ob n Hr Hmeta Hhead Hplain (odict ob)
                  v stg "default" V []) as Ha.
    rewrite (at_dict_id h r ob Hr Hmeta Hhead) in Ha. by apply Ha. }
  split_and!; [done|..].
  - apply get_attribute_at_own; try done; [apply Hplain|apply pushed_member].
  - unfold Monkey.get_original_attribute.
    erewrite (stack_ids_at_own h r ob n) by (try done; apply pushed_ids).
    run. rewrite (getattr_at_own h r ob Hr Hmeta Hhead D1 _ V);
      [done|apply Hplain|apply (pushed_item n (odict ob) [])].
  - pose proof (apply_frame h (Monkey.mkPatch (VRef r) n v stg) "default" h)
      as Hf.
    rewrite Happly in Hf. apply Hf. by split.
  - exists (with_dict ob D1). split; [by apply at_dict_lookup|done].
Qed.

Lemma slot_name_self n : slot_name n n.
Proof. by left. Qed.

Section install.
Import Monkey Kapuchin.
Context (r : ref).

Lemma ready_frame h h' n e :
  only_slot_changed (VRef r) n h h' → disjoint_slots n (mp_name e) →
  ready h r e → ready h' r e.
Proof.
  intros Hf Hdis (Hplain & Hget & Hids).
  assert (∀ k, slot_name (mp_name e) k → same_at k h h') as Hsame.
  { intros k Hk. apply (only_slot_changed_same_at (VRef r) n); [done|].
    intros Hn. by apply (Hdis k). }
  split_and!.
  - by apply (slot_plain_frame (VRef r) n h).
  - rewrite <-Hget. symmetry. apply same_at_get_attribute, Hsame. by left.
  - rewrite <-Hids. symmetry. apply same_at_getattr_default, Hsame.
    right; right; by left.
Qed.

Lemma installed_frame h h' ob e :
  (∀ k, slot_name (mp_name e) k → same_at k h h') →
  installed h r ob e → installed h' r ob e.
Proof.
  intros Hsame [Hget Horig]. split.
  - rewrite <-Hget. symmetry. apply same_at_get_attribute, Hsame. by left.
  - apply (get_original_attribute_frame h); [| |done].
    + apply Hsame. right; right; by left.
    + intros i. apply Hsame. right; right; right. eauto.
Qed.

Lemma apply_each_installs entries : ∀ h ob,
  h !! r = Some ob → well_placed h r →
  Forall (ready h r) entries →
  pairwise_disjoint (mp_name <$> entries) →
  ∃ h', apply_each (patch_for r <$> entries) h = (Ok (), h') ∧
        Forall (installed h' r ob) entries ∧
        same_shape h h' ∧
        ∀ k, Forall (λ e, ¬ slot_name (mp_name e) k) entries → same_at k h h'.
Proof.
  induction entries as [|e entries IH]; intros h ob Hr Hwp Hready Hdis.
  { exists h. by split_and!. }
  apply Forall_cons in Hready as [(Hplain & Hget & Hids) Hready].
  simpl in Hdis. destruct Hdis as [Hdis Hrest].
  destruct (apply_default_on_existing h r ob (mp_name e) (mp_obj e)
              (mp_settings e) (mp_original e) Hr Hwp Hplain Hget Hids)
    as (h1 & Happly & Hget1 & Horig1 & Hf1 & ob1 & Hr1 & Hst).
  destruct (IH h1 ob1) as (h' & Hrun & Hinst & Hshape & Hframe).
  { done. }
  { apply (well_placed_same_shape h); [apply Hf1|done]. }
  { rewrite Forall_forall in Hready. apply Forall_forall. intros e' He'.
    apply (ready_frame h h1 (mp_name e)); [done| |by apply Hready].
    rewrite Forall_forall in Hdis. apply Hdis. by apply list_elem_of_fmap_2. }
  { done. }
  assert (∀ k, slot_name (mp_name e) k → same_at k h1 h') as Hkeep.
  { intros k Hk. apply Hframe. apply Forall_forall. intros e' He' Hk'.
    rewrite Forall_forall in Hdis.
    apply (Hdis (mp_name e') (list_elem_of_fmap_2 _ _ _ He') k); done. }
  exists h'. split_and!.
  - simpl. run. rewrite Happly. apply Hrun.
  - constructor.
    + apply (installed_frame h1); [done|]. by split.
    + eapply Forall_impl; [apply Hinst|]. intros e' [? Ho]. split; [done|].
      rewrite Ho. unfold read_back. destruct Hst as (-> & _). done.
  - etrans; [apply Hf1|done].
  - intros k Hk. apply Forall_cons in Hk as [Hke Hk].
    etrans; [|by apply Hframe].
    by apply (only_slot_changed_same_at (VRef r) (mp_name e)).
Qed.
End install.


Lemma discovery_Fan_well_placed (pA pB : value) :
  well_placed (World.discovery pA pB) World.Fan.
Proof.
  eexists. split_and!; [reflexivity| |].
  - change (World.Fan ∉ [type_ref; object_ref]).
    rewrite !not_elem_of_cons. split_and!; [discriminate..|apply not_elem_of_nil].
  - intros _. by eexists.
Defined.

Lemma discovery_Fan_plain (pA pB : value) (n : string) :
  type_level (World.discovery pA pB) World.Fan n = None →
  slot_plain (World.discovery pA pB) World.Fan n.
Proof.
  intros Hn. split_and!.
  - intros d. rewrite Hn. discriminate.
  - intros d. vm_compute. discriminate.
  - intros d. vm_compute. discriminate.
  - intros i d. vm_compute. discriminate.
Defined.

Lemma set_speed_max_power_disjoint : disjoint_slots "set_speed" "max_power".
Proof.
  intros k Hk Hk'.
  destruct Hk as [->|[->|[->|[i ->]]]];
    destruct Hk' as [H|[H|[H|[j H]]]];
    try discriminate H; by simplify_eq/=.
Defined.


Lemma markers_ne_dunder_name n k :
  n ≠ "__name__" → slot_name n k → k ≠ "__name__".
Proof.
  intros Hn [->|[->|[->|[i ->]]]]; try done; by intros [=].
Qed.



(** Two layers under one id, as every plugin of kapuchin stacks them. *)
Lemma two_layers_same_id h r ob n stg1 stg2 V v1 v2 id l :
  h !! r = Some ob → well_placed h r → slot_plain h r n →
  Monkey.get_attribute h (VRef r) n = Ok V →
  getattr_default h (VRef r) (Monkey._ORIGINAL_IDS n) (VTuple []) = Ok (VTuple l) →
  ∃ h1 h2,
    Monkey.apply (Monkey.mkPatch (VRef r) n v1 stg1) id h = (Ok (), h1) ∧
    Monkey.apply (Monkey.mkPatch (VRef r) n v2 stg2) id h1 = (Ok (), h2) ∧
    Monkey.get_original_attribute h1 (VRef r) n id = Ok (read_back ob r V) ∧
    Monkey.get_attribute h2 (VRef r) n = Ok v2 ∧
    Monkey.get_original_attribute h2 (VRef r) n id = Ok (read_back ob r v1) ∧
    ∀ id', id' ≠ id → Forall (λ t, py_eq_str t id' = false) l →
           Monkey.get_original_attribute h2 (VRef r) n id' = Raise AttributeError.
Proof.
  intros Hr (ob' & Hr' & Hmeta & Hhead) Hplain Hget Hids.
  assert (ob' = ob) as -> by congruence.
  set (D1 := pushed n (odict ob) l V id v1).
  set (D2 := pushed n D1 (l ++ [VStr id]) v1 id v2).
  exists (at_dict h r ob D1), (at_dict h r ob D2).
  assert (∀ D tags, dict_get D (Monkey._ORIGINAL_IDS n) = Some (VTuple tags) →
          tags ≠ [] → ∀ i,
          Monkey.get_original_attribute (at_dict h r ob D) (VRef r) n i
          = Monkey.scan_ids (at_dict h r ob D) (VRef r) n i (reverse tags))
    as Hscan.
  { intros D tags HD Hne i. unfold Monkey.get_original_attribute.
    erewrite (stack_ids_at_own h r ob n) by done. run.
    by rewrite bool_decide_true by done. }
  split_and!.
  - pose proof (apply_stores h r ob n Hr Hmeta Hhead Hplain (odict ob)
                  v1 stg1 id V l) as Ha.
    rewrite (at_dict_id h r ob Hr Hmeta Hhead) in Ha. by apply Ha.
  - apply apply_pushes; try done; [apply pushed_member|apply pushed_ids].
  - rewrite (Hscan D1 (l ++ [VStr id])); [|apply pushed_ids|by destruct l].
    rewrite reverse_app. simpl. rewrite bool_decide_true by done.
    rewrite length_reverse.
    rewrite (getattr_at_own h r ob Hr Hmeta Hhead D1 _ V); [done|apply Hplain|].
    apply pushed_item.
  - apply get_attribute_at_own; try done; [apply Hplain|apply pushed_member].
  - rewrite (Hscan D2 ((l ++ [VStr id]) ++ [VStr id]));
      [|apply pushed_ids|by destruct l].
    rewrite reverse_app. simpl. rewrite bool_decide_true by done.
    rewrite length_reverse.
    rewrite (getattr_at_own h r ob Hr Hmeta Hhead D2 _ v1); [done|apply Hplain|].
    apply pushed_item.
  - intros id' Hne Hl.
    rewrite (Hscan D2 ((l ++ [VStr id]) ++ [VStr id]));
      [|apply pushed_ids|by destruct l].
    apply scan_ids_no_match. rewrite !Forall_app. split_and!; [done|..];
      constructor; try done; simpl; by rewrite bool_decide_false.
Qed.




